(** * Waste-mapping dashboard: clustering engine, option validation and route
      sequencing

    A shallow embedding of [agent 1/clustering/ClusteringEngine.js],
    of the parts of [agent 1/models/Cluster.js], [agent 1/models/Hotspot.js]
    and [agent 1/routes/clustering.js] the engine depends on, and of the
    route optimizer as the specification describes it.

    Conventions.
    - A JavaScript number is a rational [Q] wherever the code only adds,
      multiplies, divides, compares and rounds; equality of numbers is [==].
      [NaN], infinities and [undefined] numbers are outside the model.
      This is exact arithmetic: the program computes in binary64 and rounds
      after every operation, so a statement over [Q] or [R] names the
      formula the program evaluates, and the program's value can differ from
      it in the last digits.  Module [Doubles] has the same lines over
      binary64 and shows where that matters.
    - The haversine distance needs [sin], [cos], [sqrt] and [atan2]; it is
      written over the real numbers [R], and rational coordinates enter it
      through [Q2R].
    - The numeric libraries the engine calls (ml-dbscan, ml-kmeans, ml-hclust)
      are not part of the repository.  A call to one of them is an event of
      the program ([Vis]); the program continues with whatever answer the
      library gives. *)

From Stdlib Require Import Bool String Decimal DecimalString DecimalNat.
From Stdlib Require Import List Arith ZArith QArith Qround Qminmax Lia Lqa.
From Stdlib Require Import Permutation Sorted.
From Stdlib Require Import Reals Lra Qreals.
From Stdlib Require Floats.PrimFloat.
Import ListNotations.

(* ================================================================== *)
(** * Distance utility *)

Module Distance.

Local Open Scope R_scope.

(** [Math.atan2(y, x)] over the reals (signed zeros are not modelled). *)
Definition atan2 (y x : R) : R :=
  if Rlt_dec 0 x then atan (y / x)
  else if Rlt_dec x 0 then
         (if Rle_dec 0 y then atan (y / x) + PI else atan (y / x) - PI)
  else if Rlt_dec 0 y then PI / 2
  else if Rlt_dec y 0 then - (PI / 2)
  else 0.

(** The quantity [a] of the source: the haversine of the central angle. *)
Definition hav_a (lat1 lon1 lat2 lon2 : R) : R :=
  let phi1 := lat1 * PI / 180 in
  let phi2 := lat2 * PI / 180 in
  let dphi := (lat2 - lat1) * PI / 180 in
  let dlam := (lon2 - lon1) * PI / 180 in
  sin (dphi / 2) * sin (dphi / 2) +
  cos phi1 * cos phi2 * sin (dlam / 2) * sin (dlam / 2).

(** ClusteringEngine.js, [calculateDistance] (lines 361-374), over the
    reals.  In binary64 the quantity [a] can round to a value above 1 for
    points that face each other across the globe; [Doubles.calculateDistance]
    has that case. *)
Definition calculateDistance (lat1 lon1 lat2 lon2 : R) : R :=
  let R_ := 6371000 in
  let phi1 := lat1 * PI / 180 in
  let phi2 := lat2 * PI / 180 in
  let dphi := (lat2 - lat1) * PI / 180 in
  let dlam := (lon2 - lon1) * PI / 180 in
  let a := sin (dphi / 2) * sin (dphi / 2) +
           cos phi1 * cos phi2 * sin (dlam / 2) * sin (dlam / 2) in
  let c := 2 * atan2 (sqrt a) (sqrt (1 - a)) in
  R_ * c.

(** Cluster.js, [clusterSchema.methods.calculateDistance] (lines 239-252). *)
Definition Cluster_calculateDistance (lat1 lon1 lat2 lon2 : R) : R :=
  let R_ := 6371000 in
  let phi1 := lat1 * PI / 180 in
  let phi2 := lat2 * PI / 180 in
  let dphi := (lat2 - lat1) * PI / 180 in
  let dlam := (lon2 - lon1) * PI / 180 in
  let a := sin (dphi / 2) * sin (dphi / 2) +
           cos phi1 * cos phi2 * sin (dlam / 2) * sin (dlam / 2) in
  let c := 2 * atan2 (sqrt a) (sqrt (1 - a)) in
  R_ * c.

(** The textbook great-circle distance on a sphere of radius [radius]:
    [2 r asin (sqrt a)]. *)
Definition haversine (radius lat1 lon1 lat2 lon2 : R) : R :=
  2 * radius * asin (sqrt (hav_a lat1 lon1 lat2 lon2)).

Definition valid_lat (lat : R) : Prop := -90 <= lat <= 90.
Definition valid_lng (lng : R) : Prop := -180 <= lng <= 180.

End Distance.

(* ================================================================== *)
(** * JavaScript helpers *)

Module Js.

Local Open Scope Q_scope.

(** [Math.round]: the nearest integer, halves going up. *)
Definition Math_round (x : Q) : Q := inject_Z (Qfloor (x + (1 # 2))).
Definition Math_ceil (x : Q) : Q := inject_Z (Qceiling x).
Definition Math_min (x y : Q) : Q := Qmin x y.
Definition Math_max (x y : Q) : Q := Qmax x y.

(** [x || y] on numbers: [0] is falsy, an absent value is falsy. *)
Definition or_else (x : option Q) (y : Q) : Q :=
  match x with
  | Some v => if Qeq_bool v 0 then y else v
  | None => y
  end.

(** lodash [_.sum] and [_.mean], in exact arithmetic; [Doubles.mean] is the
    rounded quotient of the rounded sum. *)
Definition sum (l : list Q) : Q := fold_left Qplus l 0.
Definition mean (l : list Q) : Q := sum l / inject_Z (Z.of_nat (length l)).

(** [Math.max(x, ...xs)] and [Math.min(x, ...xs)] on a non-empty spread. *)
Definition max_of (x : Q) (xs : list Q) : Q := fold_left Math_max xs x.
Definition min_of (x : Q) (xs : list Q) : Q := fold_left Math_min xs x.

(** The decimal numeral of a natural number, as template literals print it. *)
Definition string_of_nat (n : nat) : string := NilEmpty.string_of_uint (Nat.to_uint n).

(** [Array.prototype.sort] with a comparator: a stable sort.  [insert] puts
    [x], which precedes every element of [l] in the original array, in front
    of the first element it does not have to follow. *)
Section Sort.

Variable A : Type.
Variable cmp : A -> A -> Z.

Fixpoint insert (x : A) (l : list A) : list A :=
  match l with
  | [] => [x]
  | y :: l' => if (cmp x y <=? 0)%Z then x :: y :: l' else y :: insert x l'
  end.

Fixpoint sort (l : list A) : list A :=
  match l with
  | [] => []
  | x :: l' => insert x (sort l')
  end.

End Sort.

Arguments insert {A} cmp x l.
Arguments sort {A} cmp l.

End Js.

(* ================================================================== *)
(** * Data model *)

(** Hotspot.js: the [waste_type] enumeration. *)
Inductive WasteType : Type :=
| household | commercial | industrial | street_litter
| market_waste | construction | medical | electronic.

(** The four-level scale shared by the risk fields and the priority level. *)
Inductive Level : Type := low | medium | high | critical.

Definition Level_eqb (a b : Level) : bool :=
  match a, b with
  | low, low | medium, medium | high, high | critical, critical => true
  | _, _ => false
  end.

(** Hotspot.js, [reportSchema]; [timestamp] in milliseconds since the epoch. *)
Record Report : Type := mkReport {
  timestamp : Z;
  severity_score : Q
}.

Record EnvironmentalMetrics : Type := mkMetrics {
  estimated_waste_kg : Q;
  co2_emissions : Q;
  water_pollution_risk : Level;
  air_quality_impact : Level
}.

(** A hotspot as the engine reads it.  [coordinates] is the GeoJSON pair
    [[longitude, latitude]]; [calculated_severity] is [None] on an object
    that does not carry the virtual; an absent [typical_reports] is the
    empty list. *)
Record Hotspot : Type := mkHotspot {
  coordinates : Q * Q;
  waste_type : WasteType;
  base_severity : Q;
  calculated_severity : option Q;
  typical_reports : list Report;
  environmental_metrics : option EnvironmentalMetrics
}.

(** Hotspot.js, the virtual [calculated_severity] (70% base, 30% reports),
    with the exact weights 7/10 and 3/10; the source has the doubles [0.7]
    and [0.3], see [Doubles.calculated_severity]. *)
Definition calculated_severity_virtual (base : Q) (reports : list Report) : Q :=
  match reports with
  | [] => base
  | _ :: _ =>
      let reportSeverity := fold_left (fun s r => s + severity_score r) reports 0 in
      let averageReportSeverity := reportSeverity / inject_Z (Z.of_nat (length reports)) in
      (base * (7 # 10)) + (averageReportSeverity * (3 # 10))
  end%Q.

(** The [parameters] object: every field may be absent. *)
Record Parameters : Type := mkParameters {
  p_eps : option Q;
  p_minPoints : option Q;
  p_k : option Q;
  p_iterations : option Q;
  p_tolerance : option Q;
  p_distance : option string;
  p_linkage : option string;
  p_maxClusters : option Q
}.

Definition no_parameters : Parameters :=
  mkParameters None None None None None None None None.

(** The [options] argument of [runClustering]. *)
Record Options : Type := mkOptions {
  o_algorithm : option string;
  o_parameters : option Parameters;
  o_minClusterSize : option Q;
  o_maxClusters : option Q
}.

Definition no_options : Options := mkOptions None None None None.

Record Statistics : Type := mkStatistics {
  totalHotspots : nat;
  averageSeverity : Q;
  maxSeverity : Q;
  minSeverity : Q;
  totalWasteKg : Q;
  totalCO2Emissions : Q;
  priorityScore : Q
}.

(** A cluster object.  [memberHotspots] holds [hotspots[i]] for each member
    index, [None] where the index is out of range.  [name], [parameters],
    [statistics] and [priorityLevel] are set by post-processing only. *)
Record Cluster : Type := mkCluster {
  id : Z;
  centroid : Q * Q;
  memberIndices : list nat;
  memberHotspots : list (option Hotspot);
  radius : R;
  size : nat;
  algorithm : string;
  name : option string;
  parameters : option Parameters;
  statistics : option Statistics;
  priorityLevel : option Level
}.

Record ClusteringResult : Type := mkResult {
  r_algorithm : string;
  r_parameters : Parameters;
  r_clusters : list Cluster;
  r_noise : option (list nat);
  r_totalClusters : nat;
  r_converged : option bool
}.

(* ================================================================== *)
(** * Programs that call the numeric libraries *)

Inductive Error : Type :=
| UnsupportedAlgorithm (name : string)
| TypeError
| LibraryError (message : string).

Record DbscanAnswer : Type := mkDbscanAnswer {
  db_clusters : list Z;
  db_noise : list nat
}.

Record KMeansAnswer : Type := mkKMeansAnswer {
  km_clusters : list Z;
  km_centroids : list (Q * Q);
  km_converged : bool
}.

(** One constructor per library entry point, indexed by the answer type.
    [HCLUST] stands for [hclust(matrix, {distance, linkage}).cut(n)]. *)
Inductive LibCall : Type -> Type :=
| DBSCAN (matrix : list (Q * Q)) (eps minPoints : Q) : LibCall DbscanAnswer
| KMEANS (matrix : list (Q * Q)) (k maxIterations tolerance : Q) (seed : Z)
    : LibCall KMeansAnswer
| HCLUST (matrix : list (Q * Q)) (distance linkage : string) (cut : Q)
    : LibCall (list Z).

Inductive Prog (A : Type) : Type :=
| Ret (a : A)
| Throw (e : Error)
| Vis (T : Type) (c : LibCall T) (k : T -> Prog A).

Arguments Ret {A} a.
Arguments Throw {A} e.
Arguments Vis {A T} c k.

Fixpoint bind {A B : Type} (p : Prog A) (f : A -> Prog B) : Prog B :=
  match p with
  | Ret a => f a
  | Throw e => Throw e
  | Vis c k => Vis c (fun t => bind (k t) f)
  end.

Notation "x <- p ;; q" := (bind p (fun x => q))
  (at level 61, p at next level, right associativity).

(** What a library does when called: it returns an answer or throws. *)
Definition Library : Type := forall T, LibCall T -> Error + T.

Fixpoint run {A : Type} (lib : Library) (p : Prog A) : Error + A :=
  match p with
  | Ret a => inr a
  | Throw e => inl e
  | Vis c k => match lib _ c with
               | inl e => inl e
               | inr t => run lib (k t)
               end
  end.

(** Whether a program reaches a library at all. *)
Definition calls_library {A : Type} (p : Prog A) : bool :=
  match p with
  | Vis _ _ => true
  | _ => false
  end.

(** [a[i]] for every [i] of [idx]; reading a property of an [undefined]
    element is a [TypeError]. *)
Fixpoint lookup_all {A : Type} (a : list A) (idx : list nat) : Prog (list A) :=
  match idx with
  | [] => Ret []
  | i :: idx' =>
      match nth_error a i with
      | None => Throw TypeError
      | Some x => xs <- lookup_all a idx' ;; Ret (x :: xs)
      end
  end.

Fixpoint all_defined {A : Type} (l : list (option A)) : Prog (list A) :=
  match l with
  | [] => Ret []
  | None :: _ => Throw TypeError
  | Some x :: l' => xs <- all_defined l' ;; Ret (x :: xs)
  end.

(* ================================================================== *)
(** * ClusteringEngine.js *)

Module ClusteringEngine.

Import Js.
Local Open Scope Q_scope.

Definition Qltb (x y : Q) : bool := negb (Qle_bool y x).

Definition of_nat (n : nat) : Q := inject_Z (Z.of_nat n).

Definition default {A : Type} (x : option A) (d : A) : A :=
  match x with Some v => v | None => d end.

(** ** The table [this.algorithms] *)

Inductive Algorithm : Type := dbscan | kmeans | hierarchical.

(** What [this.algorithms[name]] evaluates to: one of the three own entries,
    a member inherited from [Object.prototype] (truthy, but not a clustering
    routine), or [undefined]. *)
Inductive Property : Type :=
| Own (a : Algorithm)
| Inherited
| Undefined.

Definition Object_prototype_names : list string :=
  ["constructor"; "__defineGetter__"; "__defineSetter__"; "hasOwnProperty";
   "__lookupGetter__"; "__lookupSetter__"; "isPrototypeOf";
   "propertyIsEnumerable"; "toString"; "valueOf"; "__proto__";
   "toLocaleString"]%string.

Definition algorithms (name : string) : Property :=
  if String.eqb name "dbscan" then Own dbscan
  else if String.eqb name "kmeans" then Own kmeans
  else if String.eqb name "hierarchical" then Own hierarchical
  else if existsb (String.eqb name) Object_prototype_names then Inherited
  else Undefined.

(** ** Geometry *)

(** [prepareCoordinates] (lines 65-70). *)
Definition prepareCoordinates (hotspots : list Hotspot) : list (Q * Q) :=
  map (fun hotspot => (fst (coordinates hotspot), snd (coordinates hotspot))) hotspots.

(** [calculateCentroid] (lines 322-329), in exact arithmetic; see
    [Doubles.calculateCentroid] for the rounded sums. *)
Definition calculateCentroid (points : list (Q * Q)) : Q * Q :=
  if Nat.eqb (length points) 0 then (0, 0)
  else
    let sumLng := fold_left (fun sum point => sum + fst point) points 0 in
    let sumLat := fold_left (fun sum point => sum + snd point) points 0 in
    (sumLng / of_nat (length points), sumLat / of_nat (length points)).

(** [calculateClusterRadius] (lines 337-351), in metres. *)
Definition calculateClusterRadius (points : list (Q * Q)) (centroid : Q * Q) : R :=
  if Nat.eqb (length points) 0 then 0%R
  else
    fold_left
      (fun maxDistance point =>
         let distance :=
           Distance.calculateDistance
             (Q2R (snd centroid)) (Q2R (fst centroid))
             (Q2R (snd point)) (Q2R (fst point)) in
         Rmax maxDistance distance)
      points 0%R.

(** ** Priority score and statistics *)

Definition critical_waste (w : WasteType) : bool :=
  match w with
  | medical | electronic | industrial => true
  | _ => false
  end.

Definition risk_is_critical (m : option EnvironmentalMetrics)
           (field : EnvironmentalMetrics -> Level) : bool :=
  match m with
  | Some e => Level_eqb (field e) critical
  | None => false
  end.

Definition ms_per_day : Q := 1000 * 60 * 60 * 24.

(** The body of the [forEach] of [calculateClusterPriorityScore]; [now] is
    the value of [Date.now()]. *)
Definition scoreHotspot (now : Z) (score : Q) (hotspot : Hotspot) : Q :=
  let severity := or_else (calculated_severity hotspot) (base_severity hotspot) in
  let score := score + severity * 2 in
  let score := if critical_waste (waste_type hotspot) then score + 10 else score in
  let score :=
    if risk_is_critical (environmental_metrics hotspot) water_pollution_risk
    then score + 8 else score in
  let score :=
    if risk_is_critical (environmental_metrics hotspot) air_quality_impact
    then score + 8 else score in
  match typical_reports hotspot with
  | [] => score
  | r :: rs =>
      let latestReport := fold_left Z.max (map timestamp rs) (timestamp r) in
      let daysSinceReport := inject_Z (now - latestReport) / ms_per_day in
      if Qle_bool daysSinceReport 1 then score + 5
      else if Qle_bool daysSinceReport 7 then score + 3
      else score
  end.

(** [calculateClusterPriorityScore] (lines 494-526). *)
Definition calculateClusterPriorityScore (now : Z) (memberHotspots : list Hotspot) : Q :=
  let score := fold_left (scoreHotspot now) memberHotspots 0 in
  Math_min 100 (Math_round score).

Definition severity_of (h : Hotspot) : Q :=
  or_else (calculated_severity h) (base_severity h).

Definition waste_of (h : Hotspot) : Q :=
  or_else (option_map estimated_waste_kg (environmental_metrics h)) 0.

Definition co2_of (h : Hotspot) : Q :=
  or_else (option_map co2_emissions (environmental_metrics h)) 0.

(** [calculateClusterStatistics] (lines 447-473). *)
Definition calculateClusterStatistics (now : Z) (memberHotspots : list Hotspot) : Statistics :=
  match memberHotspots with
  | [] => mkStatistics 0 0 0 0 0 0 0
  | h :: hs =>
      let severities := map severity_of memberHotspots in
      let wasteAmounts := map waste_of memberHotspots in
      let co2Amounts := map co2_of memberHotspots in
      mkStatistics
        (length memberHotspots)
        (mean severities)
        (max_of (severity_of h) (map severity_of hs))
        (min_of (severity_of h) (map severity_of hs))
        (sum wasteAmounts)
        (sum co2Amounts)
        (calculateClusterPriorityScore now memberHotspots)
  end.

(** [calculatePriorityLevel] (lines 480-487). *)
Definition calculatePriorityLevel (statistics : Statistics) : Level :=
  let score := priorityScore statistics in
  if Qle_bool 80 score then critical
  else if Qle_bool 60 score then high
  else if Qle_bool 40 score then medium
  else low.

(** ** Grouping the library's labels *)

(** A JavaScript [Map] from cluster id to member indices: the entries in
    insertion order. *)
Definition ClusterMap : Type := list (Z * list nat).

Fixpoint Map_has (m : ClusterMap) (key : Z) : bool :=
  match m with
  | [] => false
  | (k, _) :: m' => if Z.eqb k key then true else Map_has m' key
  end.

(** [m.set(key, v)]: an existing key keeps its place, a new key goes last. *)
Fixpoint Map_set (m : ClusterMap) (key : Z) (v : list nat) : ClusterMap :=
  match m with
  | [] => [(key, v)]
  | (k, w) :: m' =>
      if Z.eqb k key then (k, v) :: m' else (k, w) :: Map_set m' key v
  end.

(** [m.get(key).push(i)]. *)
Fixpoint Map_push (m : ClusterMap) (key : Z) (i : nat) : ClusterMap :=
  match m with
  | [] => []
  | (k, w) :: m' =>
      if Z.eqb k key then (k, w ++ [i]) :: m' else (k, w) :: Map_push m' key i
  end.

(** The first [forEach] of [processDBSCANResults]: label [-1] is noise and
    is skipped. *)
Fixpoint groupDBSCAN (clusters : list Z) (pointIndex : nat) (clusterMap : ClusterMap)
  : ClusterMap :=
  match clusters with
  | [] => clusterMap
  | clusterId :: rest =>
      if Z.eqb clusterId (-1) then groupDBSCAN rest (S pointIndex) clusterMap
      else
        let clusterMap :=
          if negb (Map_has clusterMap clusterId)
          then Map_set clusterMap clusterId []
          else clusterMap in
        groupDBSCAN rest (S pointIndex) (Map_push clusterMap clusterId pointIndex)
  end.

(** The first [forEach] of [processHierarchicalResults]: no label is skipped. *)
Fixpoint groupHierarchical (clusters : list Z) (pointIndex : nat) (clusterMap : ClusterMap)
  : ClusterMap :=
  match clusters with
  | [] => clusterMap
  | clusterId :: rest =>
      let clusterMap :=
        if negb (Map_has clusterMap clusterId)
        then Map_set clusterMap clusterId []
        else clusterMap in
      groupHierarchical rest (S pointIndex) (Map_push clusterMap clusterId pointIndex)
  end.

(** The second [forEach], shared in shape by the DBSCAN and the hierarchical
    path: one cluster object per map entry, in map order. *)
Fixpoint clustersOfMap (algorithm : string) (coordinates : list (Q * Q))
         (hotspots : list Hotspot) (clusterMap : ClusterMap) : Prog (list Cluster) :=
  match clusterMap with
  | [] => Ret []
  | (clusterId, pointIndices) :: rest =>
      clusterPoints <- lookup_all coordinates pointIndices ;;
      let clusterHotspots := map (nth_error hotspots) pointIndices in
      let centroid := calculateCentroid clusterPoints in
      let radius := calculateClusterRadius clusterPoints centroid in
      clusterResults <- clustersOfMap algorithm coordinates hotspots rest ;;
      Ret (mkCluster clusterId (fst centroid, snd centroid) pointIndices
                     clusterHotspots radius (length pointIndices) algorithm
                     None None None None
           :: clusterResults)
  end.

(** [processDBSCANResults] (lines 192-229). *)
Definition processDBSCANResults (clusters : list Z) (coordinates : list (Q * Q))
           (hotspots : list Hotspot) (noise : list nat) : Prog (list Cluster) :=
  let clusterMap := groupDBSCAN clusters 0 [] in
  clustersOfMap "dbscan" coordinates hotspots clusterMap.

(** [processHierarchicalResults] (lines 280-315). *)
Definition processHierarchicalResults (clusters : list Z) (coordinates : list (Q * Q))
           (hotspots : list Hotspot) : Prog (list Cluster) :=
  let clusterMap := groupHierarchical clusters 0 [] in
  clustersOfMap "hierarchical" coordinates hotspots clusterMap.

(** The [reduce] of [processKMeansResults]: the indices labelled [clusterId]. *)
Fixpoint indicesLabelled (clusters : list Z) (index : nat) (clusterId : Z) : list nat :=
  match clusters with
  | [] => []
  | cluster :: rest =>
      if Z.eqb cluster clusterId
      then index :: indicesLabelled rest (S index) clusterId
      else indicesLabelled rest (S index) clusterId
  end.

Fixpoint kmeansClusters (clusters : list Z) (coordinates : list (Q * Q))
         (hotspots : list Hotspot) (centroids : list (Q * Q)) (clusterId : nat)
  : Prog (list Cluster) :=
  match centroids with
  | [] => Ret []
  | centroid :: rest =>
      let memberIndices := indicesLabelled clusters 0 (Z.of_nat clusterId) in
      if Nat.eqb (length memberIndices) 0
      then kmeansClusters clusters coordinates hotspots rest (S clusterId)
      else
        clusterPoints <- lookup_all coordinates memberIndices ;;
        let clusterHotspots := map (nth_error hotspots) memberIndices in
        let radius := calculateClusterRadius clusterPoints centroid in
        clusterResults <-
          kmeansClusters clusters coordinates hotspots rest (S clusterId) ;;
        Ret (mkCluster (Z.of_nat clusterId) (fst centroid, snd centroid)
                       memberIndices clusterHotspots radius
                       (length memberIndices) "kmeans" None None None None
             :: clusterResults)
  end.

(** [processKMeansResults] (lines 238-271). *)
Definition processKMeansResults (kmeansResult : KMeansAnswer)
           (coordinates : list (Q * Q)) (hotspots : list Hotspot) : Prog (list Cluster) :=
  kmeansClusters (km_clusters kmeansResult) coordinates hotspots
                 (km_centroids kmeansResult) 0.

(** ** The three algorithms *)

(** [runDBSCAN] (lines 79-108). *)
Definition runDBSCAN (coordinates : list (Q * Q)) (parameters : Parameters)
           (hotspots : list Hotspot) : Prog ClusteringResult :=
  let eps := default (p_eps parameters) (1 # 100) in
  let minPoints := default (p_minPoints parameters) 2 in
  let matrix := coordinates in
  Vis (DBSCAN matrix eps minPoints) (fun dbscan =>
    let clusters := db_clusters dbscan in
    let noise := db_noise dbscan in
    clusterResults <- processDBSCANResults clusters coordinates hotspots noise ;;
    Ret (mkResult "dbscan"
                  (mkParameters (Some eps) (Some minPoints) None None None None None None)
                  clusterResults (Some noise) (length clusterResults) None)).

(** The default [k] of [runKMeans] (line 119). *)
Definition default_k (n : nat) : Q := Math_min 5 (Math_ceil (of_nat n / 3)).

(** [runKMeans] (lines 117-144). *)
Definition runKMeans (coordinates : list (Q * Q)) (parameters : Parameters)
           (hotspots : list Hotspot) : Prog ClusteringResult :=
  let k := default (p_k parameters) (default_k (length coordinates)) in
  let iterations := default (p_iterations parameters) 100 in
  let tolerance := default (p_tolerance parameters) (1 # 10000) in
  let matrix := coordinates in
  Vis (KMEANS matrix k iterations tolerance 42) (fun kmeansResult =>
    clusterResults <- processKMeansResults kmeansResult coordinates hotspots ;;
    Ret (mkResult "kmeans"
                  (mkParameters None None (Some k) (Some iterations) (Some tolerance)
                                None None None)
                  clusterResults None (length clusterResults)
                  (Some (km_converged kmeansResult)))).

(** [runHierarchicalClustering] (lines 153-182); the [dendrogram] field of
    the result, the library's own tree object, is left out. *)
Definition runHierarchicalClustering (coordinates : list (Q * Q)) (parameters : Parameters)
           (hotspots : list Hotspot) : Prog ClusteringResult :=
  let distance := default (p_distance parameters) "euclidean"%string in
  let linkage := default (p_linkage parameters) "ward"%string in
  let maxClusters :=
    default (p_maxClusters parameters)
            (Math_min 8 (Math_ceil (of_nat (length coordinates) / 2))) in
  let matrix := coordinates in
  Vis (HCLUST matrix distance linkage maxClusters) (fun clusters =>
    clusterResults <- processHierarchicalResults clusters coordinates hotspots ;;
    Ret (mkResult "hierarchical"
                  (mkParameters None None None None None
                                (Some distance) (Some linkage) (Some maxClusters))
                  clusterResults None (length clusterResults) None)).

Definition call (a : Algorithm) : list (Q * Q) -> Parameters -> list Hotspot ->
                                  Prog ClusteringResult :=
  match a with
  | dbscan => runDBSCAN
  | kmeans => runKMeans
  | hierarchical => runHierarchicalClustering
  end.

(** ** Too few points *)

(** [createSingleClusterResult] (lines 381-412). *)
Definition createSingleClusterResult (hotspots : list Hotspot) : ClusteringResult :=
  if Nat.eqb (length hotspots) 0 then
    mkResult "none" no_parameters [] None 0 None
  else
    let coordinates := prepareCoordinates hotspots in
    let centroid := calculateCentroid coordinates in
    let radius := calculateClusterRadius coordinates centroid in
    mkResult "single" no_parameters
             [mkCluster 0 (fst centroid, snd centroid)
                        (seq 0 (length hotspots)) (map Some hotspots)
                        radius (length hotspots) "single" None None None None]
             None 1 None.

(** ** Post-processing *)

(** The [forEach] of [postProcessClusters]: name, algorithm, parameters,
    statistics and priority level of every cluster, by position. *)
Fixpoint annotate (now : Z) (algorithm : string) (parameters : Parameters)
         (clusters : list Cluster) (index : nat) : Prog (list Cluster) :=
  match clusters with
  | [] => Ret []
  | cluster :: rest =>
      members <- all_defined (memberHotspots cluster) ;;
      let statistics := calculateClusterStatistics now members in
      rest' <- annotate now algorithm parameters rest (S index) ;;
      Ret (mkCluster (id cluster) (centroid cluster) (memberIndices cluster)
                     (memberHotspots cluster) (radius cluster) (size cluster)
                     algorithm
                     (Some ("Cluster " ++ string_of_nat (index + 1))%string)
                     (Some parameters)
                     (Some statistics)
                     (Some (calculatePriorityLevel statistics))
           :: rest')
  end.

Definition bySizeDescending (a b : Cluster) : Z := Z.of_nat (size b) - Z.of_nat (size a).

(** [postProcessClusters] (lines 422-440). *)
Definition postProcessClusters (now : Z) (result : ClusteringResult)
           (hotspots : list Hotspot) (algorithm : string) (parameters : Parameters)
  : Prog ClusteringResult :=
  let sorted := sort bySizeDescending (r_clusters result) in
  clusters <- annotate now algorithm parameters sorted 0 ;;
  Ret (mkResult (r_algorithm result) (r_parameters result) clusters
                (r_noise result) (r_totalClusters result) (r_converged result)).

(** ** Entry point *)

(** [runClustering] (lines 23-58).  An inherited property passes the
    truthiness test of line 31; called as an algorithm it yields no result
    object, and reading [result.clusters] is a [TypeError]. *)
Definition runClustering (now : Z) (hotspots : list Hotspot) (options : Options)
  : Prog ClusteringResult :=
  let algorithm := default (o_algorithm options) "dbscan"%string in
  let parameters := default (o_parameters options) no_parameters in
  let minClusterSize := default (o_minClusterSize options) 2 in
  let maxClusters := default (o_maxClusters options) 10 in
  match algorithms algorithm with
  | Undefined => Throw (UnsupportedAlgorithm algorithm)
  | property =>
      let coordinates := prepareCoordinates hotspots in
      if Qltb (of_nat (length coordinates)) minClusterSize
      then Ret (createSingleClusterResult hotspots)
      else
        match property with
        | Own a =>
            result <- call a coordinates parameters hotspots ;;
            postProcessClusters now result hotspots algorithm parameters
        | _ => Throw TypeError
        end
  end.

End ClusteringEngine.

(* ================================================================== *)
(** * routes/clustering.js: option validation and the recluster handler *)

Module Routes.

Import ClusteringEngine.
Local Open Scope Q_scope.

(** The options of a request, as received. *)
Record RequestOptions : Type := mkRequest {
  q_algorithm : option string;
  q_parameters : option Parameters;
  q_minClusterSize : option Q;
  q_maxClusters : option Q;
  q_forceRecluster : option bool;
  q_includeNoise : option bool
}.

(** The options after validation: every default is filled in. *)
Record ValidOptions : Type := mkValid {
  v_algorithm : string;
  v_parameters : Parameters;
  v_minClusterSize : Q;
  v_maxClusters : Q;
  v_forceRecluster : bool;
  v_includeNoise : bool
}.

Inductive Rule : Type :=
| MustBeOneOf (allowed : list string)
| MustBePositive
| MustBeInteger
| MustBeAtLeast (limit : Q)
| MustBeAtMost (limit : Q).

(** One entry of Joi's [error.details]: the offending key and the rule. *)
Record ValidationError : Type := mkValidationError {
  path : string;
  rule : Rule
}.

Definition Validated (A : Type) : Type := (ValidationError + A)%type.

Definition andThen {A B : Type} (v : Validated A) (f : A -> Validated B) : Validated B :=
  match v with
  | inl e => inl e
  | inr a => f a
  end.

Notation "x <-- v ;;; f" := (andThen v (fun x => f))
  (at level 61, v at next level, right associativity).

(** [Joi.string().valid(...).default(d)]. *)
Definition string_valid (path : string) (allowed : list string) (d : string)
           (x : option string) : Validated string :=
  match x with
  | None => inr d
  | Some s => if existsb (String.eqb s) allowed then inr s
              else inl (mkValidationError path (MustBeOneOf allowed))
  end.

(** [Joi.number().positive().default(d)]. *)
Definition number_positive (path : string) (d : Q) (x : option Q) : Validated Q :=
  match x with
  | None => inr d
  | Some v => if Qltb 0 v then inr v
              else inl (mkValidationError path MustBePositive)
  end.

Definition is_integer (v : Q) : bool := Qeq_bool v (inject_Z (Qfloor v)).

(** [Joi.number().integer().min(lo).max(hi).default(d)]; [hi] may be absent. *)
Definition number_integer (path : string) (lo : Q) (hi : option Q) (d : Q)
           (x : option Q) : Validated Q :=
  match x with
  | None => inr d
  | Some v =>
      if negb (is_integer v) then inl (mkValidationError path MustBeInteger)
      else if Qltb v lo then inl (mkValidationError path (MustBeAtLeast lo))
      else match hi with
           | Some h => if Qltb h v then inl (mkValidationError path (MustBeAtMost h))
                       else inr v
           | None => inr v
           end
  end.

(** [Joi.boolean().default(d)]. *)
Definition boolean_default (d : bool) (x : option bool) : bool :=
  match x with Some b => b | None => d end.

(** The [parameters] sub-schema (lines 13-27), key after key. *)
Definition validateParameters (p : Parameters) : Validated Parameters :=
  eps <-- number_positive "parameters.eps" (1 # 100) (p_eps p) ;;;
  minPoints <-- number_integer "parameters.minPoints" 2 None 2 (p_minPoints p) ;;;
  k <-- number_integer "parameters.k" 2 (Some 20) 5 (p_k p) ;;;
  iterations <--
    number_integer "parameters.iterations" 10 (Some 1000) 100 (p_iterations p) ;;;
  tolerance <-- number_positive "parameters.tolerance" (1 # 10000) (p_tolerance p) ;;;
  distance <--
    string_valid "parameters.distance" ["euclidean"; "manhattan"; "cosine"]%string
                 "euclidean" (p_distance p) ;;;
  linkage <--
    string_valid "parameters.linkage" ["ward"; "single"; "complete"; "average"]%string
                 "ward" (p_linkage p) ;;;
  maxClusters <--
    number_integer "parameters.maxClusters" 2 (Some 20) 8 (p_maxClusters p) ;;;
  inr (mkParameters (Some eps) (Some minPoints) (Some k) (Some iterations)
                    (Some tolerance) (Some distance) (Some linkage)
                    (Some maxClusters)).

(** [clusteringOptionsSchema.validate] (lines 11-32).  Validation stops at
    the first failing key; an absent [parameters] becomes the literal [{}]
    of [.default({})]. *)
Definition validate (r : RequestOptions) : Validated ValidOptions :=
  algorithm <--
    string_valid "algorithm" ["dbscan"; "kmeans"; "hierarchical"]%string "dbscan"
                 (q_algorithm r) ;;;
  parameters <--
    match q_parameters r with
    | None => inr no_parameters
    | Some p => validateParameters p
    end ;;;
  minClusterSize <-- number_integer "minClusterSize" 1 None 2 (q_minClusterSize r) ;;;
  maxClusters <-- number_integer "maxClusters" 1 (Some 50) 20 (q_maxClusters r) ;;;
  inr (mkValid algorithm parameters minClusterSize maxClusters
               (boolean_default false (q_forceRecluster r))
               (boolean_default false (q_includeNoise r))).

(** The validated object, read as the [options] argument of the engine. *)
Definition engine_options (value : ValidOptions) : Options :=
  mkOptions (Some (v_algorithm value)) (Some (v_parameters value))
            (Some (v_minClusterSize value)) (Some (v_maxClusters value)).

Inductive Response : Type :=
| BadRequest (error : string) (details : ValidationError)
| NoHotspots
| Clustered (result : ClusteringResult)
| ServerError (error : string) (cause : Error).

(** [router.post('/clusters', ...)] (lines 163-230).  [stored] is what
    [Hotspot.find] returns; deleting the old clusters and saving the new
    ones are not modelled. *)
Definition postClusters (lib : Library) (now : Z) (stored : list Hotspot)
           (body : RequestOptions) : Response :=
  match validate body with
  | inl details => BadRequest "Invalid clustering parameters" details
  | inr value =>
      let value := mkValid (v_algorithm value) (v_parameters value)
                           (v_minClusterSize value) (v_maxClusters value)
                           true (v_includeNoise value) in
      if Nat.eqb (length stored) 0 then NoHotspots
      else
        match run lib (runClustering now stored (engine_options value)) with
        | inr clusteringResult => Clustered clusteringResult
        | inl error => ServerError "Forced clustering failed" error
        end
  end.

End Routes.

(* ================================================================== *)
(** * Route optimizer *)

Module RouteOptimizer.

Local Open Scope R_scope.

(** Modelled from the spec: a route node [{id, lat, lng}] of
    [route_optimizer.py], which is not among the sources. *)
Record Node : Type := mkNode {
  node_id : string;
  node_lat : Q;
  node_lng : Q
}.

(** Modelled from the spec: a coordinate [(lat, lng)], as the optional start
    point of [route_optimizer.py] (not among the sources). *)
Definition Coordinate : Type := (Q * Q)%type.

(** Modelled from the spec: the coordinate of a node. *)
Definition position (n : Node) : Coordinate := (node_lat n, node_lng n).

(** Modelled from the spec: the metric of [route_optimizer.py] (not among
    the sources), which the specification fixes to the distance utility. *)
Definition distance (a b : Coordinate) : R :=
  Distance.calculateDistance (Q2R (fst a)) (Q2R (snd a)) (Q2R (fst b)) (Q2R (snd b)).

(** Modelled from the spec: the nearest-neighbour step of
    [route_optimizer.py], which is not among the sources.  [nearest from
    best rest] is the node of [best :: rest] closest to [from]; a later node
    replaces the current best only when it is strictly closer, so ties go to
    the earlier node in input order. *)
Fixpoint nearest (from : Coordinate) (best : Node) (rest : list Node) : Node :=
  match rest with
  | [] => best
  | n :: rest' =>
      if Rlt_dec (distance from (position n)) (distance from (position best))
      then nearest from n rest'
      else nearest from best rest'
  end.

(** Modelled from the spec: the position in [best :: rest] of the node that
    [nearest] selects ([route_optimizer.py] is not among the sources). *)
Fixpoint nearest_index (from : Coordinate) (best : Node) (best_index : nat)
         (rest : list Node) (index : nat) : nat :=
  match rest with
  | [] => best_index
  | n :: rest' =>
      if Rlt_dec (distance from (position n)) (distance from (position best))
      then nearest_index from n index rest' (S index)
      else nearest_index from best best_index rest' (S index)
  end.

(** Modelled from the spec: marking the node at position [i] as visited,
    that is, dropping it from the unvisited nodes. *)
Fixpoint remove_at {A : Type} (i : nat) (l : list A) : list A :=
  match l, i with
  | [], _ => []
  | _ :: l', O => l'
  | x :: l', S i' => x :: remove_at i' l'
  end.

(** Modelled from the spec: the nearest-neighbour construction of
    [route_optimizer.py] (section 4.3, steps 2-4), which is not among the
    sources.  From [current], repeatedly move to the nearest unvisited node;
    [fuel] bounds the number of moves by the number of unvisited nodes. *)
Fixpoint visit (fuel : nat) (current : Coordinate) (unvisited : list Node) : list Node :=
  match fuel, unvisited with
  | S fuel', first :: rest =>
      let next := nearest current first rest in
      let i := nearest_index current first 0 rest 1 in
      next :: visit fuel' (position next) (remove_at i unvisited)
  | _, _ => []
  end.

(** Modelled from the spec: the nearest-neighbour route of
    [route_optimizer.py], not among the sources.  With a start point the
    first leg goes to the node nearest to it; without one the traversal
    begins at the first node in input order. *)
Definition nearest_neighbor (nodes : list Node) (start : option Coordinate) : list Node :=
  match start with
  | Some s => visit (length nodes) s nodes
  | None =>
      match nodes with
      | [] => []
      | first :: rest => first :: visit (length rest) (position first) rest
      end
  end.

(** Modelled from the spec: the sum of the leg distances along [route]. *)
Fixpoint path_length (route : list Node) : R :=
  match route with
  | a :: ((b :: _) as rest) => distance (position a) (position b) + path_length rest
  | _ => 0
  end.

(** Modelled from the spec: [total_distance_m] of [route_optimizer.py], not
    among the sources: the sum of all traversed legs, the leg from the start
    to the first node included when a start is given. *)
Definition total_distance (start : option Coordinate) (route : list Node) : R :=
  match start, route with
  | Some s, first :: _ => distance s (position first) + path_length route
  | _, _ => path_length route
  end.

(** Modelled from the spec: the route with the segment between the edges
    [(i, i+1)] and [(j, j+1)] reversed, that is, positions [i+1 .. j]. *)
Definition reverse_segment (route : list Node) (i j : nat) : list Node :=
  firstn (i + 1) route ++ rev (firstn (j - i) (skipn (i + 1) route))
         ++ skipn (j + 1) route.

(** Modelled from the spec: the pairs of non-adjacent edges [(i, i+1)],
    [(j, j+1)] of a route of [n] nodes, in scanning order. *)
Definition edge_pairs (n : nat) : list (nat * nat) :=
  flat_map (fun i => map (fun j => (i, j)) (seq (i + 2) (n - 1 - (i + 2))))
           (seq 0 (n - 1)).

(** Modelled from the spec: one step of the 2-opt pass of
    [route_optimizer.py], not among the sources.  The delta of a reversal is
    the total distance after it minus the total distance before it; the
    reversal is applied if and only if the delta is strictly negative. *)
Definition improve (start : option Coordinate) (route : list Node) (pair : nat * nat)
  : list Node :=
  let candidate := reverse_segment route (fst pair) (snd pair) in
  let delta := total_distance start candidate - total_distance start route in
  if Rlt_dec delta 0 then candidate else route.

(** Modelled from the spec: the bounded 2-opt improvement of
    [route_optimizer.py], not among the sources: one pass over all pairs of
    non-adjacent edges, first improvement, continuing from the next pair. *)
Definition two_opt_pass (start : option Coordinate) (route : list Node) : list Node :=
  fold_left (improve start) (edge_pairs (length route)) route.

(** Modelled from the spec: the [Route] entity of section 3, every node with
    its [order]. *)
Record Route : Type := mkRoute {
  route_nodes : list (Node * nat);
  total_distance_m : R
}.

(** Modelled from the spec: the nodes with their 0-based [order]. *)
Definition numbered (route : list Node) : list (Node * nat) :=
  combine route (seq 0 (length route)).

(** Modelled from the spec: the route of the nearest-neighbour construction
    alone ([route_optimizer.py] is not among the sources). *)
Definition nearest_neighbor_route (nodes : list Node) (start : option Coordinate) : Route :=
  let route := nearest_neighbor nodes start in
  mkRoute (numbered route) (total_distance start route).

(** Modelled from the spec: [optimize_route] of [route_optimizer.py], not
    among the sources: nearest-neighbour construction, then the 2-opt pass
    when there are at least four nodes. *)
Definition optimize_route (nodes : list Node) (start : option Coordinate) : Route :=
  let route := nearest_neighbor nodes start in
  let route := if (4 <=? length route)%nat then two_opt_pass start route else route in
  mkRoute (numbered route) (total_distance start route).

End RouteOptimizer.

(* ================================================================== *)
(** * Notions used in the statements *)

Module Notions.

Import ClusteringEngine.
Local Open Scope Q_scope.

(** The member indices of a map, entry after entry. *)
Definition members (m : ClusterMap) : list nat := concat (map snd m).

(** The indices from [i] on whose label is not the noise label. *)
Fixpoint kept (labels : list Z) (i : nat) : list nat :=
  match labels with
  | [] => []
  | c :: rest => if Z.eqb c (-1) then kept rest (S i) else i :: kept rest (S i)
  end.

(** Whether the library labelled point [i] as noise. *)
Definition is_noise (labels : list Z) (i : nat) : bool :=
  match nth_error labels i with
  | Some c => Z.eqb c (-1)
  | None => false
  end.

(** The sum of a list of numbers, from the right. *)
Definition Qsum (l : list Q) : Q := fold_right Qplus 0 l.

(** [n] times the centroid of [c] is the plain sum of its members'
    coordinates: every member counts once. *)
Definition centroid_is_mean (coords : list (Q * Q)) (c : Cluster) : Prop :=
  exists pts,
    map Some pts = map (nth_error coords) (memberIndices c) /\
    fst (centroid c) * of_nat (length pts) == Qsum (map fst pts) /\
    snd (centroid c) * of_nat (length pts) == Qsum (map snd pts).

(** [clamp(x, lo, hi)]. *)
Definition clamp (x lo hi : Q) : Q := Qmax lo (Qmin hi x).

(** The aggregate severity in the words of the specification:
    [round(sum(s_i * s_i) / sum(s_i))], clamped to [1, 10]. *)
Definition spec_aggregate_severity (severities : list Q) : Q :=
  clamp (Js.Math_round (Qsum (map (fun s => s * s) severities) / Qsum severities)) 1 10.

(** The centroid in the words of the specification: the mean of the
    members' coordinates, each weighted by that member's severity. *)
Definition spec_weighted_centroid (members : list Hotspot) : Q * Q :=
  let weights := map severity_of members in
  (Qsum (map (fun h => severity_of h * fst (coordinates h)) members) / Qsum weights,
   Qsum (map (fun h => severity_of h * snd (coordinates h)) members) / Qsum weights).

(** What post-processing leaves untouched in a cluster. *)
Definition bare (c : Cluster) : Z * (Q * Q) * list nat * list (option Hotspot) * nat :=
  (id c, centroid c, memberIndices c, memberHotspots c, size c).

(** The severity that post-processing attaches to a cluster. *)
Definition average_of (c : Cluster) : Q :=
  match statistics c with
  | Some st => averageSeverity st
  | None => 0
  end.

(** The order of the specification between a cluster [a] and a later
    cluster [b]: more members first, then higher aggregate severity (the
    severity that the statistics attach to the cluster), then lower centroid
    latitude. *)
Definition spec_order (a b : Cluster) : Prop :=
  (size b < size a)%nat \/
  (size a = size b /\ average_of b < average_of a) \/
  (size a = size b /\ average_of a == average_of b /\
   snd (centroid a) <= snd (centroid b)).

(** A cluster carries a priority score that is an integer of [0, 100],
    and the priority level computed from its statistics. *)
Definition scored (c : Cluster) : Prop :=
  exists st z,
    statistics c = Some st /\
    priorityScore st = inject_Z z /\ (0 <= z <= 100)%Z /\
    priorityLevel c = Some (calculatePriorityLevel st).

(** Every member of the cluster is a hotspot of non-negative severity. *)
Definition members_nonneg (c : Cluster) : Prop :=
  exists ms, memberHotspots c = map Some ms /\
             Forall (fun h => 0 <= severity_of h) ms.

(** Every member index of the cluster was in range of the hotspot array. *)
Definition members_defined (c : Cluster) : Prop :=
  exists ms, memberHotspots c = map Some ms.

(** A density library that answers with the given labels and noise list;
    the other two libraries are not installed. *)
Definition density_library (labels : list Z) (noise : list nat) : Library :=
  fun T c =>
    match c in LibCall T return Error + T with
    | DBSCAN _ _ _ => inr (mkDbscanAnswer labels noise)
    | KMEANS _ _ _ _ _ => inl (LibraryError "ml-kmeans is not installed")
    | HCLUST _ _ _ _ => inl (LibraryError "ml-hclust is not installed")
    end.

(** The comparator [(a, b) => b.key - a.key]. *)
Definition descending {A : Type} (key : A -> nat) (a b : A) : Z :=
  (Z.of_nat (key b) - Z.of_nat (key a))%Z.

(** Sample data: two reports a hundred metres apart and a third far away. *)
Definition report_at (lng lat severity : Q) : Hotspot :=
  mkHotspot (lng, lat) household severity None [] None.

Definition three_reports : list Hotspot :=
  [report_at 0 0 8; report_at (1 # 1000) 0 4; report_at 50 50 2].

Definition two_reports : list Hotspot := [report_at 0 0 8; report_at (1 # 1000) 0 4].

(** A mild report at the origin and a severe one four degrees east. *)
Definition mild_and_severe : list Hotspot := [report_at 0 0 1; report_at 4 0 3].

(** Two mild reports next to each other, then two severe ones next to
    each other, far from the first pair. *)
Definition mild_pair_severe_pair : list Hotspot :=
  [report_at 0 0 2; report_at (1 # 1000) 0 2;
   report_at 50 50 9; report_at (50001 # 1000) 50 9].

(** Parameters with a negative [eps] and [minPoints = 0]. *)
Definition bad_parameters : Parameters :=
  mkParameters (Some (-1)) (Some 0) None None None None None None.

Definition four_nodes : list RouteOptimizer.Node :=
  [RouteOptimizer.mkNode "a" 0 0; RouteOptimizer.mkNode "b" 0 (1 # 100);
   RouteOptimizer.mkNode "c" (1 # 100) (1 # 100); RouteOptimizer.mkNode "d" (1 # 100) 0].

End Notions.

(* ================================================================== *)
(** * Further notions used in the statements *)

Module MoreNotions.

Import ClusteringEngine.
Local Open Scope Q_scope.

(** The distance that [calculateClusterRadius] measures between a centroid
    and a point, both [[lng, lat]]. *)
Definition distance_from (centroid point : Q * Q) : R :=
  Distance.calculateDistance (Q2R (snd centroid)) (Q2R (fst centroid))
                             (Q2R (snd point)) (Q2R (fst point)).

(** The member list that a map holds for a key, empty for an absent key. *)
Fixpoint Map_get (m : ClusterMap) (key : Z) : list nat :=
  match m with
  | [] => []
  | (k, v) :: m' => if Z.eqb k key then v else Map_get m' key
  end.

(** The indices from [i] on whose label is one of [ids]. *)
Fixpoint labelled_in (ids : list Z) (labels : list Z) (i : nat) : list nat :=
  match labels with
  | [] => []
  | c :: rest =>
      if existsb (Z.eqb c) ids then i :: labelled_in ids rest (S i)
      else labelled_in ids rest (S i)
  end.

(** What [processKMeansResults] makes of one centroid and its label. *)
Definition kmeans_cluster_ok (labels : list Z) (hotspots : list Hotspot)
           (centroids : list (Q * Q)) (first : nat) (c : Cluster) : Prop :=
  (Z.of_nat first <= id c < Z.of_nat (first + length centroids))%Z /\
  nth_error centroids (Z.to_nat (id c) - first) = Some (centroid c) /\
  memberIndices c = indicesLabelled labels 0 (id c) /\
  memberIndices c <> [] /\
  size c = length (memberIndices c) /\
  memberHotspots c = map (nth_error hotspots) (memberIndices c).

(** A cluster over [hotspots] is well formed: it has a member, its [size]
    counts its member indices, every index is in range, and
    [memberHotspots] holds the hotspots at these indices. *)
Definition cluster_wf (hotspots : list Hotspot) (c : Cluster) : Prop :=
  memberIndices c <> [] /\
  size c = length (memberIndices c) /\
  Forall (fun i => (i < length hotspots)%nat) (memberIndices c) /\
  memberHotspots c = map (nth_error hotspots) (memberIndices c).

(** The four levels in increasing order. *)
Definition Level_rank (l : Level) : nat :=
  match l with
  | low => 0
  | medium => 1
  | high => 2
  | critical => 3
  end.

End MoreNotions.

(* ================================================================== *)
(** * Hotspot.js: the hotspot document *)

Module HotspotModel.

Import Js.
Local Open Scope Q_scope.

(** A stored hotspot document: the fields of [hotspotSchema] that the
    methods below and the cluster model read.  On a document
    [environmental_metrics] is always present (every field has a default). *)
Record HotspotDoc : Type := mkHotspotDoc {
  d_coordinates : Q * Q;
  d_waste_type : WasteType;
  d_base_severity : Q;
  d_typical_reports : list Report;
  d_environmental_metrics : EnvironmentalMetrics
}.

(** What reading [doc.calculated_severity] gives: the virtual's getter. *)
Definition d_calculated_severity (d : HotspotDoc) : Q :=
  calculated_severity_virtual (d_base_severity d) (d_typical_reports d).

(** The document as the clustering engine reads it. *)
Definition as_hotspot (d : HotspotDoc) : Hotspot :=
  mkHotspot (d_coordinates d) (d_waste_type d) (d_base_severity d)
            (Some (d_calculated_severity d)) (d_typical_reports d)
            (Some (d_environmental_metrics d)).

(** The metrics that [updateEnvironmentalMetrics] writes (lines 144-163)
    for the severity it has read at line 142.  The comparisons with 8, 6
    and 4 are exact in binary64 as well; the two products are exact only
    here. *)
Definition metricsFor (severity : Q) : EnvironmentalMetrics :=
  let estimated_waste_kg := severity * 5 in
  let co2_emissions := severity * (12 # 10) in
  let risk :=
    if Qle_bool 8 severity then (critical, critical)
    else if Qle_bool 6 severity then (high, high)
    else if Qle_bool 4 severity then (medium, medium)
    else (low, low) in
  mkMetrics estimated_waste_kg co2_emissions (fst risk) (snd risk).

(** [hotspotSchema.methods.updateEnvironmentalMetrics] (lines 141-166); the
    final [save] is not modelled. *)
Definition updateEnvironmentalMetrics (d : HotspotDoc) : HotspotDoc :=
  let severity := d_calculated_severity d in
  mkHotspotDoc (d_coordinates d) (d_waste_type d) (d_base_severity d)
               (d_typical_reports d) (metricsFor severity).

End HotspotModel.

(* ================================================================== *)
(** * Cluster.js: the cluster document *)

Module ClusterModel.

Import Js HotspotModel.
Local Open Scope Q_scope.

(** The [statistics] sub-document of [clusterSchema]. *)
Record ClusterStatistics : Type := mkClusterStatistics {
  total_hotspots : nat;
  average_severity : Q;
  max_severity : Q;
  min_severity : Q;
  total_waste_kg : Q;
  total_co2_emissions : Q;
  priority_score : Q
}.

Record Boundaries : Type := mkBoundaries {
  north : Q;
  south : Q;
  east : Q;
  west : Q
}.

(** A real number or [Infinity]. *)
Inductive Extended : Type :=
| Finite (x : R)
| Infinite.

(** The fields of a cluster document that [updateStatistics] reads and
    writes; [c_centroid] is [[longitude, latitude]]. *)
Record ClusterDoc : Type := mkClusterDoc {
  c_centroid : Q * Q;
  c_statistics : ClusterStatistics;
  c_boundaries : option Boundaries;
  c_radius : R;
  c_density : Extended
}.

(** The virtual [area_km2] (lines 127-132); a radius of 0 is falsy. *)
Definition area_km2 (radius : R) : R :=
  if Req_dec_T radius 0 then 0%R else (PI * (radius / 1000) * (radius / 1000))%R.

Definition critical_waste (w : WasteType) : bool :=
  match w with
  | medical | electronic | industrial => true
  | _ => false
  end.

(** The body of the [forEach] of [calculatePriorityScore] (lines 183-204).
    With no report [Math.max()] is [-Infinity], the age of the last report
    is infinite and no bonus is given. *)
Definition scoreDocument (now : Z) (score : Q) (hotspot : HotspotDoc) : Q :=
  let score := score + d_calculated_severity hotspot * 10 in
  let score := if critical_waste (d_waste_type hotspot) then score + 20 else score in
  let score :=
    if Level_eqb (water_pollution_risk (d_environmental_metrics hotspot)) critical
    then score + 15 else score in
  let score :=
    if Level_eqb (air_quality_impact (d_environmental_metrics hotspot)) critical
    then score + 15 else score in
  match d_typical_reports hotspot with
  | [] => score
  | r :: rs =>
      let latest := fold_left Z.max (map timestamp rs) (timestamp r) in
      let daysSinceLastReport := inject_Z (now - latest) / (1000 * 60 * 60 * 24) in
      if Qle_bool daysSinceLastReport 1 then score + 10
      else if Qle_bool daysSinceLastReport 7 then score + 5
      else score
  end.

(** [clusterSchema.methods.calculatePriorityScore] (lines 180-207). *)
Definition calculatePriorityScore (now : Z) (hotspots : list HotspotDoc) : Q :=
  let score := fold_left (scoreDocument now) hotspots 0 in
  Math_round score.

(** The statistics object that [updateStatistics] assigns for a non-empty
    list of member documents (lines 156-168). *)
Definition statisticsOf (now : Z) (first : HotspotDoc) (others : list HotspotDoc)
  : ClusterStatistics :=
  let hotspots := first :: others in
  let severities := map d_calculated_severity hotspots in
  let wasteAmounts :=
    map (fun h => estimated_waste_kg (d_environmental_metrics h)) hotspots in
  let co2Amounts :=
    map (fun h => co2_emissions (d_environmental_metrics h)) hotspots in
  mkClusterStatistics
    (length hotspots)
    (fold_left Qplus severities 0 / inject_Z (Z.of_nat (length severities)))
    (max_of (d_calculated_severity first) (map d_calculated_severity others))
    (min_of (d_calculated_severity first) (map d_calculated_severity others))
    (fold_left Qplus wasteAmounts 0)
    (fold_left Qplus co2Amounts 0)
    (calculatePriorityScore now hotspots).

(** The radius loop of [updateBoundaries] (lines 223-235): the largest
    distance from the stored centroid to a member. *)
Definition radiusOf (centroid : Q * Q) (hotspots : list HotspotDoc) : R :=
  fold_left
    (fun maxDistance hotspot =>
       let distance :=
         Distance.Cluster_calculateDistance
           (Q2R (snd centroid)) (Q2R (fst centroid))
           (Q2R (snd (d_coordinates hotspot))) (Q2R (fst (d_coordinates hotspot))) in
       Rmax maxDistance distance)
    hotspots 0%R.

(** [clusterSchema.methods.updateBoundaries] (lines 210-236). *)
Definition updateBoundaries (c : ClusterDoc) (hotspots : list HotspotDoc) : ClusterDoc :=
  match hotspots with
  | [] => c
  | h :: hs =>
      let lat := fun d => snd (d_coordinates d) in
      let lng := fun d => fst (d_coordinates d) in
      let boundaries :=
        mkBoundaries (max_of (lat h) (map lat hs)) (min_of (lat h) (map lat hs))
                     (max_of (lng h) (map lng hs)) (min_of (lng h) (map lng hs)) in
      mkClusterDoc (c_centroid c) (c_statistics c) (Some boundaries)
                   (radiusOf (c_centroid c) hotspots) (c_density c)
  end.

(** [clusterSchema.methods.updateStatistics] (lines 135-177).  [hotspots] is
    what [Hotspot.find] returns for the member ids; the final [save] is not
    modelled.  Dividing the member count by an area of 0 gives [Infinity]. *)
Definition updateStatistics (now : Z) (c : ClusterDoc) (hotspots : list HotspotDoc)
  : ClusterDoc :=
  match hotspots with
  | [] =>
      mkClusterDoc (c_centroid c) (mkClusterStatistics 0 0 0 0 0 0 0)
                   (c_boundaries c) (c_radius c) (c_density c)
  | h :: hs =>
      let c1 := mkClusterDoc (c_centroid c) (statisticsOf now h hs)
                             (c_boundaries c) (c_radius c) (c_density c) in
      let c2 := updateBoundaries c1 hotspots in
      let area := area_km2 (c_radius c2) in
      let density :=
        if Req_dec_T area 0 then Infinite
        else Finite (INR (length hotspots) / area)%R in
      mkClusterDoc (c_centroid c2) (c_statistics c2) (c_boundaries c2)
                   (c_radius c2) density
  end.

End ClusterModel.

(* ================================================================== *)
(** * The hotspot routes: paging and the statistics summary *)

Module HotspotRoutes.

Import Js ClusteringEngine.
Local Open Scope Q_scope.

(** [GET /api/hotspots] (lines 497-591 of the routes file): the number of
    documents to skip and the number of pages reported. *)
Definition skip_of (page limit : Z) : Z := ((page - 1) * limit)%Z.

Definition pages_of (total : nat) (limit : Z) : Q :=
  Math_ceil (of_nat total / inject_Z limit).

(** [find(query).sort(sort).skip(skip).limit(limit)] on the sorted matches:
    what one request returns. *)
Definition page_of {A : Type} (matches : list A) (page limit : Z) : list A :=
  firstn (Z.to_nat limit) (skipn (Z.to_nat (skip_of page limit)) matches).

(** [GET /api/hotspots/statistics/summary]: the severity distribution
    (lines 869-878 of the routes file). *)
Record SeverityRanges : Type := mkRanges {
  range_0_2 : nat;
  range_3_5 : nat;
  range_6_8 : nat;
  range_9_10 : nat
}.

Definition countSeverity (ranges : SeverityRanges) (severity : Q) : SeverityRanges :=
  if Qle_bool severity 2 then
    mkRanges (range_0_2 ranges + 1) (range_3_5 ranges) (range_6_8 ranges) (range_9_10 ranges)
  else if Qle_bool severity 5 then
    mkRanges (range_0_2 ranges) (range_3_5 ranges + 1) (range_6_8 ranges) (range_9_10 ranges)
  else if Qle_bool severity 8 then
    mkRanges (range_0_2 ranges) (range_3_5 ranges) (range_6_8 ranges + 1) (range_9_10 ranges)
  else
    mkRanges (range_0_2 ranges) (range_3_5 ranges) (range_6_8 ranges) (range_9_10 ranges + 1).

Definition severityRanges (bySeverity : list Q) : SeverityRanges :=
  fold_left countSeverity bySeverity (mkRanges 0 0 0 0).

(** A plain object used as a counter: its keys in insertion order. *)
Definition Counter : Type := list (string * nat).

Fixpoint counter_get (acc : Counter) (key : string) : option nat :=
  match acc with
  | [] => None
  | (k, n) :: acc' => if String.eqb k key then Some n else counter_get acc' key
  end.

Fixpoint counter_set (acc : Counter) (key : string) (n : nat) : Counter :=
  match acc with
  | [] => [(key, n)]
  | (k, m) :: acc' =>
      if String.eqb k key then (k, n) :: acc' else (k, m) :: counter_set acc' key n
  end.

(** The reducer [(acc, key) => { acc[key] = (acc[key] || 0) + 1; return acc }]
    (lines 857-866 of the routes file).  The accumulator starts as [{}], so a
    key that is not yet its own is still read through [Object.prototype]:
    for one of the inherited names the value read is a function or an
    object, the sum is a string and no longer a count; that outcome is
    [None]. *)
Definition countKey (acc : Counter) (key : string) : option Counter :=
  match counter_get acc key with
  | Some n => Some (counter_set acc key ((if Nat.eqb n 0 then 0 else n) + 1))
  | None =>
      if existsb (String.eqb key) Object_prototype_names then None
      else Some (counter_set acc key (0 + 1))
  end.

Definition countStep (acc : option Counter) (key : string) : option Counter :=
  match acc with
  | Some counter => countKey counter key
  | None => None
  end.

Definition countAll (keys : list string) : option Counter :=
  fold_left countStep keys (Some []).

(** [Math.round(x * 100) / 100] (lines 883-885 of the routes file). *)
Definition round2 (x : Q) : Q := Math_round (x * 100) / 100.

End HotspotRoutes.

(* ================================================================== *)
(** * Notions about the documents *)

Module DocumentNotions.

Import ClusteringEngine HotspotModel ClusterModel.
Local Open Scope Q_scope.

(** A document whose base severity and report scores are not negative (the
    schema bounds both to [0, 10]). *)
Definition doc_nonneg (d : HotspotDoc) : Prop :=
  0 <= d_base_severity d /\
  Forall (fun r => 0 <= severity_score r) (d_typical_reports d).

(** The distance that [updateBoundaries] measures from the stored centroid
    to a member document. *)
Definition doc_distance (centroid : Q * Q) (d : HotspotDoc) : R :=
  Distance.Cluster_calculateDistance
    (Q2R (snd centroid)) (Q2R (fst centroid))
    (Q2R (snd (d_coordinates d))) (Q2R (fst (d_coordinates d))).

(** A document with a base severity, report scores and stale metrics. *)
Definition sample_doc (base : Q) (scores : list Q) : HotspotDoc :=
  mkHotspotDoc (0, 0) household base (map (mkReport 0) scores)
               (mkMetrics 0 0 low low).

(** A document at a place, with base severity 5 and no reports. *)
Definition doc_at (lng lat : Q) : HotspotDoc :=
  mkHotspotDoc (lng, lat) household 5 [] (mkMetrics 0 0 low low).

Definition empty_cluster_doc : ClusterDoc :=
  mkClusterDoc (0, 0) (mkClusterStatistics 0 0 0 0 0 0 0) None 0%R (Finite 0%R).

End DocumentNotions.

(** ** Notions used to state the facts about the hotspot routes *)

Module RouteNotions.

Import ClusteringEngine HotspotRoutes.
Local Open Scope Q_scope.

(** How many of the severities satisfy a test. *)
Definition how_many (test : Q -> bool) (severities : list Q) : nat :=
  length (filter test severities).

(** [lo < severity <= hi]. *)
Definition between (lo hi : Q) (severity : Q) : bool :=
  Qltb lo severity && Qle_bool severity hi.

(** The count stored under a key, 0 when the key is absent. *)
Definition counted (acc : Counter) (key : string) : nat :=
  match counter_get acc key with
  | Some n => n
  | None => 0
  end.

Definition inherited (key : string) : Prop := In key Object_prototype_names.

(** The [algorithm] key of a request passes its rule. *)
Definition algorithm_accepted (body : Routes.RequestOptions) : Prop :=
  match Routes.q_algorithm body with
  | Some s => In s ["dbscan"; "kmeans"; "hierarchical"]%string
  | None => True
  end.

(** The [eps] key of a [parameters] object passes its rule. *)
Definition eps_accepted (p : Parameters) : Prop :=
  match p_eps p with
  | Some v => 0 < v
  | None => True
  end.

(** A key that is present and whose value passes a test. *)
Definition filled_with {A : Type} (x : option A) (test : A -> Prop) : Prop :=
  match x with
  | Some v => test v
  | None => False
  end.

(** A whole number between two bounds; the upper bound may be absent. *)
Definition whole_within (lo : Q) (hi : option Q) (v : Q) : Prop :=
  Routes.is_integer v = true /\ lo <= v /\
  match hi with
  | Some h => v <= h
  | None => True
  end.

(** Every key of the [parameters] sub-schema present and within its rule. *)
Definition parameters_in_range (p : Parameters) : Prop :=
  filled_with (p_eps p) (fun v => 0 < v) /\
  filled_with (p_minPoints p) (whole_within 2 None) /\
  filled_with (p_k p) (whole_within 2 (Some 20)) /\
  filled_with (p_iterations p) (whole_within 10 (Some 1000)) /\
  filled_with (p_tolerance p) (fun v => 0 < v) /\
  filled_with (p_distance p)
              (fun s => In s ["euclidean"; "manhattan"; "cosine"]%string) /\
  filled_with (p_linkage p)
              (fun s => In s ["ward"; "single"; "complete"; "average"]%string) /\
  filled_with (p_maxClusters p) (whole_within 2 (Some 20)).

End RouteNotions.

(** ** A result with three clusters, as a grouping pass returns it *)

Module Samples.

Import ClusteringEngine Notions.
Local Open Scope Q_scope.

Definition five_reports : list Hotspot :=
  [report_at 0 0 3; report_at 10 10 8; report_at 10 10 4;
   report_at 50 50 2; report_at 50 50 9].

(** A cluster before post-processing: what [clustersOfMap] builds for the
    label [clusterId], the indices [pointIndices] and their hotspots. *)
Definition raw_cluster (clusterId : Z) (pointIndices : list nat)
           (clusterHotspots : list Hotspot) : Cluster :=
  let clusterPoints := prepareCoordinates clusterHotspots in
  let centroid := calculateCentroid clusterPoints in
  mkCluster clusterId centroid pointIndices (map Some clusterHotspots)
            (calculateClusterRadius clusterPoints centroid)
            (length pointIndices) "dbscan" None None None None.

(** One single report, then two pairs: the smallest cluster comes first and
    the two largest have the same size. *)
Definition one_and_two_pairs : ClusteringResult :=
  mkResult "dbscan" no_parameters
           [raw_cluster 0 [0%nat] [report_at 0 0 3];
            raw_cluster 1 [1%nat; 2%nat] [report_at 10 10 8; report_at 10 10 4];
            raw_cluster 2 [3%nat; 4%nat] [report_at 50 50 2; report_at 50 50 9]]
           (Some []) 3 None.

End Samples.

(* ================================================================== *)
(** * The arithmetic of the source in binary64 *)

(** The functions above compute with exact numbers.  The functions of this
    module are the same source lines over IEEE 754 doubles, operation by
    operation and in the order of the source; they show where rounding
    makes the program leave the exact formula. *)

Module Doubles.

Import PrimFloat.
Local Open Scope float_scope.
Local Set Warnings "-inexact-float".

(** [Math.sin], [Math.cos] and [Math.atan2] are left to the JavaScript
    engine by ECMAScript ("implementation-approximated"); they are
    parameters here.  [Math.sqrt] and the four operations are those of
    IEEE 754. *)
Record MathLibrary : Type := mkMath {
  Math_sin : float -> float;
  Math_cos : float -> float;
  Math_atan2 : float -> float -> float
}.

(** [Math.PI], the double nearest to pi. *)
Definition Math_PI : float := 0x1.921fb54442d18p+1.

(** ClusteringEngine.js, [calculateDistance] (lines 361-374); the method of
    Cluster.js (lines 239-252) has the same text. *)
Definition calculateDistance (Math : MathLibrary) (lat1 lon1 lat2 lon2 : float)
  : float :=
  let R_ := 6371000 in
  let phi1 := lat1 * Math_PI / 180 in
  let phi2 := lat2 * Math_PI / 180 in
  let dphi := (lat2 - lat1) * Math_PI / 180 in
  let dlam := (lon2 - lon1) * Math_PI / 180 in
  let a := Math_sin Math (dphi / 2) * Math_sin Math (dphi / 2) +
           Math_cos Math phi1 * Math_cos Math phi2 *
           Math_sin Math (dlam / 2) * Math_sin Math (dlam / 2) in
  let c := 2 * Math_atan2 Math (sqrt a) (sqrt (1 - a)) in
  R_ * c.

(** [array.length] as a number. *)
Definition length_of {A : Type} (l : list A) : float :=
  fold_left (fun n _ => n + 1) l 0.

(** lodash [_.mean]: the elements added from the first one on, divided by
    the length; [NaN] for the empty array. *)
Definition mean (l : list float) : float :=
  match l with
  | [] => nan
  | x :: xs => fold_left add xs x / length_of l
  end.

(** Hotspot.js, the virtual [calculated_severity] (lines 128-138), on the
    base severity and the scores of the reports. *)
Definition calculated_severity (base : float) (scores : list float) : float :=
  match scores with
  | [] => base
  | _ :: _ =>
      let reportSeverity := fold_left add scores 0 in
      let averageReportSeverity := reportSeverity / length_of scores in
      (base * 0.7) + (averageReportSeverity * 0.3)
  end.

(** ClusteringEngine.js, [calculateCentroid] (lines 322-329). *)
Definition calculateCentroid (points : list (float * float)) : float * float :=
  match points with
  | [] => (0, 0)
  | _ :: _ =>
      let sumLng := fold_left (fun sum point => sum + fst point) points 0 in
      let sumLat := fold_left (fun sum point => sum + snd point) points 0 in
      (sumLng / length_of points, sumLat / length_of points)
  end.

(** A Math library given by a table: at 12 degrees and at 90 degrees (in
    radians, as doubles) it answers with the doubles nearest to the sine
    and the cosine, as the correctly rounded libraries and fdlibm both do;
    every other answer is [NaN]. *)
Definition table_math : MathLibrary :=
  mkMath
    (fun x =>
       if x =? 0x1.acee9f37bebd5p-3 then 0x1.a9cd9ac4258f5p-3
       else if x =? 0x1.921fb54442d18p+0 then 1
       else nan)
    (fun x =>
       if abs x =? 0x1.acee9f37bebd5p-3 then 0x1.f4cfc327a0080p-1
       else nan)
    (fun _ _ => nan).

End Doubles.

(** ** Proof steps for the validation chain *)

(** One key of a schema passed: name its value and go on. *)
Ltac validation_step H :=
  match type of H with
  | Routes.andThen ?v _ = inr _ =>
      let E := fresh "E" in
      let e := fresh "e" in
      let a := fresh "a" in
      destruct v as [e | a] eqn:E; cbn [Routes.andThen] in H; [discriminate |]
  end.

(** A default of the schema is itself within the rule of its key. *)
Ltac whole_default :=
  unfold RouteNotions.whole_within; split; [vm_compute; reflexivity |];
  split; [| try exact I]; unfold Qle; simpl; lia.

(* ================================================================== *)
(** * Theorems *)

(** ** The model on small inputs *)

Section Examples.

Import Js ClusteringEngine Routes Notions.
Local Open Scope Q_scope.

Example Math_round_half_up :
  Math_round (5 # 2) == 3 /\ Math_round (- (5 # 2)) == - (2) /\
  Math_round (667 # 100) == 7.
Proof. repeat split. Qed.

Example sort_is_stable :
  sort (descending fst) [(1, "a"); (2, "b"); (1, "c"); (3, "d"); (2, "e")]%nat%string
  = [(3, "d"); (2, "b"); (2, "e"); (1, "a"); (1, "c")]%nat%string.
Proof. reflexivity. Qed.

Example calculated_severity_of_a_document :
  calculated_severity_virtual 8 [mkReport 0 6; mkReport 1 4] == 71 # 10.
Proof. reflexivity. Qed.

Example algorithms_lookup :
  algorithms "kmeans" = Own kmeans /\ algorithms "toString" = Inherited /\
  algorithms "optics" = Undefined.
Proof. repeat split. Qed.

Example groupDBSCAN_insertion_order :
  groupDBSCAN [3; -1; 0; 3; 0; 7]%Z 0 [] =
  [(3%Z, [0; 3]%nat); (0%Z, [2; 4]%nat); (7%Z, [5]%nat)].
Proof. reflexivity. Qed.

Example label_without_point_is_a_TypeError :
  processDBSCANResults [0; 0; 0]%Z (prepareCoordinates two_reports) two_reports []
  = Throw TypeError.
Proof. reflexivity. Qed.

Example kmeans_members :
  indicesLabelled [1; 0; 1; 2]%Z 0 1 = [0; 2]%nat.
Proof. reflexivity. Qed.

Example default_k_values :
  default_k 0 == 0 /\ default_k 3 == 1 /\ default_k 4 == 2 /\ default_k 9 == 3 /\
  default_k 100 == 5.
Proof. repeat split. Qed.

Example priority_of_a_medical_pair :
  let h := mkHotspot (0, 0) medical 9 None [mkReport 0 9]
                     (Some (mkMetrics 45 10 critical critical)) in
  calculateClusterPriorityScore 3600000 [h; h] == 98 /\
  calculatePriorityLevel (calculateClusterStatistics 3600000 [h; h]) = critical /\
  calculateClusterPriorityScore 3600000 [h; h; h] == 100.
Proof. repeat split. Qed.

Example validate_accepts_defaults :
  validate (mkRequest None None None None None None) =
  inr (mkValid "dbscan" no_parameters 2 20 false false).
Proof. reflexivity. Qed.

Example validate_rejects_minPoints_1 :
  validate (mkRequest (Some "dbscan"%string)
                      (Some (mkParameters (Some (1 # 100)) (Some 1) None None None
                                          None None None))
                      None None None None) =
  inl (mkValidationError "parameters.minPoints" (MustBeAtLeast 2)).
Proof. reflexivity. Qed.

Example edge_pairs_of_five :
  RouteOptimizer.edge_pairs 5 = [(0, 2); (0, 3); (1, 3)]%nat.
Proof. reflexivity. Qed.

Example reverse_segment_example :
  RouteOptimizer.reverse_segment four_nodes 0 2 =
  [nth 0 four_nodes (RouteOptimizer.mkNode "" 0 0);
   nth 2 four_nodes (RouteOptimizer.mkNode "" 0 0);
   nth 1 four_nodes (RouteOptimizer.mkNode "" 0 0);
   nth 3 four_nodes (RouteOptimizer.mkNode "" 0 0)].
Proof. reflexivity. Qed.

End Examples.

(** ** Distance utility *)

Section DistanceFacts.

Import Distance.
Local Open Scope R_scope.

Lemma deg_to_rad_range (lat : R) :
  valid_lat lat -> - (PI / 2) <= lat * PI / 180 <= PI / 2.
Proof.
  unfold valid_lat. intros [Hlo Hhi].
  pose proof PI_RGT_0 as Hpi.
  split; nra.
Qed.

Lemma cos_lat_nonneg (lat : R) : valid_lat lat -> 0 <= cos (lat * PI / 180).
Proof.
  intros H. apply deg_to_rad_range in H. apply cos_ge_0; lra.
Qed.

(** [cos p * cos q = cos² ((q-p)/2) - sin² ((p+q)/2)]. *)
Lemma cos_mul_cos (p q : R) :
  cos p * cos q =
  cos ((q - p) / 2) * cos ((q - p) / 2) - sin ((p + q) / 2) * sin ((p + q) / 2).
Proof.
  set (u := (p + q) / 2). set (v := (q - p) / 2).
  replace p with (u - v) by (unfold u, v; lra).
  replace q with (u + v) at 1 by (unfold u, v; lra).
  rewrite cos_minus, cos_plus.
  pose proof (sin2_cos2 u) as Hu. pose proof (sin2_cos2 v) as Hv.
  unfold Rsqr in Hu, Hv. nra.
Qed.

Lemma hav_a_range (lat1 lon1 lat2 lon2 : R) :
  valid_lat lat1 -> valid_lat lat2 -> 0 <= hav_a lat1 lon1 lat2 lon2 <= 1.
Proof.
  intros H1 H2. unfold hav_a. cbv zeta.
  pose proof (cos_lat_nonneg lat1 H1) as C1.
  pose proof (cos_lat_nonneg lat2 H2) as C2.
  set (phi1 := lat1 * PI / 180) in *. set (phi2 := lat2 * PI / 180) in *.
  replace ((lat2 - lat1) * PI / 180) with (phi2 - phi1) by (unfold phi1, phi2; lra).
  set (l := (lon2 - lon1) * PI / 180 / 2).
  pose proof (cos_mul_cos phi1 phi2) as Hc.
  pose proof (sin2_cos2 ((phi2 - phi1) / 2)) as Hv. unfold Rsqr in Hv.
  pose proof (sin2_cos2 l) as Hl. unfold Rsqr in Hl.
  assert (Hs : 0 <= sin l * sin l <= 1) by nra.
  assert (Hcc : 0 <= cos phi1 * cos phi2) by nra.
  assert (Hu : 0 <= sin ((phi1 + phi2) / 2) * sin ((phi1 + phi2) / 2)) by nra.
  rewrite Rmult_assoc.
  split; nra.
Qed.

(** On [0 <= a <= 1] the [atan2] form of the source is the arcsine form. *)
Lemma atan2_sqrt_asin (a : R) :
  0 <= a <= 1 -> atan2 (sqrt a) (sqrt (1 - a)) = asin (sqrt a).
Proof.
  intros [Ha0 Ha1]. unfold atan2.
  destruct (Req_dec a 1) as [-> | Hne].
  - replace (1 - 1) with 0 by lra. rewrite sqrt_0, sqrt_1, asin_1.
    destruct (Rlt_dec 0 0) as [H | _]; [lra |].
    destruct (Rlt_dec 0 1) as [_ | H]; [reflexivity | lra].
  - assert (Hpos : 0 < sqrt (1 - a)) by (apply sqrt_lt_R0; lra).
    destruct (Rlt_dec 0 (sqrt (1 - a))) as [_ | H]; [| lra].
    assert (Hlt : sqrt a < 1).
    { rewrite <- sqrt_1. apply sqrt_lt_1; lra. }
    pose proof (sqrt_pos a) as Hsp.
    rewrite asin_atan by lra.
    unfold Rsqr. rewrite sqrt_sqrt by lra. reflexivity.
Qed.

Lemma calculateDistance_haversine (lat1 lon1 lat2 lon2 : R) :
  valid_lat lat1 -> valid_lat lat2 ->
  calculateDistance lat1 lon1 lat2 lon2 = haversine 6371000 lat1 lon1 lat2 lon2.
Proof.
  intros H1 H2. unfold calculateDistance, haversine. cbv zeta.
  fold (hav_a lat1 lon1 lat2 lon2).
  rewrite atan2_sqrt_asin by (apply hav_a_range; assumption).
  ring.
Qed.

Lemma calculateDistance_same (lat lon : R) : calculateDistance lat lon lat lon = 0.
Proof.
  unfold calculateDistance. cbv zeta.
  replace ((lat - lat) * PI / 180 / 2) with 0 by lra.
  replace ((lon - lon) * PI / 180 / 2) with 0 by lra.
  rewrite sin_0.
  replace (0 * 0 + cos (lat * PI / 180) * cos (lat * PI / 180) * 0 * 0) with 0 by ring.
  replace (1 - 0) with 1 by lra. rewrite sqrt_0, sqrt_1.
  unfold atan2. destruct (Rlt_dec 0 1) as [_ | H]; [| lra].
  replace (0 / 1) with 0 by lra. rewrite atan_0. ring.
Qed.

Lemma calculateDistance_sym (lat1 lon1 lat2 lon2 : R) :
  calculateDistance lat1 lon1 lat2 lon2 = calculateDistance lat2 lon2 lat1 lon1.
Proof.
  unfold calculateDistance. cbv zeta.
  replace ((lat1 - lat2) * PI / 180 / 2) with (- ((lat2 - lat1) * PI / 180 / 2)) by lra.
  replace ((lon1 - lon2) * PI / 180 / 2) with (- ((lon2 - lon1) * PI / 180 / 2)) by lra.
  rewrite !sin_neg.
  set (s := sin ((lat2 - lat1) * PI / 180 / 2)).
  set (t := sin ((lon2 - lon1) * PI / 180 / 2)).
  replace (- s * - s + cos (lat2 * PI / 180) * cos (lat1 * PI / 180) * - t * - t)
    with (s * s + cos (lat1 * PI / 180) * cos (lat2 * PI / 180) * t * t) by ring.
  reflexivity.
Qed.

End DistanceFacts.

(** ** The same arithmetic in binary64 *)

Section DoubleFacts.

Import PrimFloat Doubles.
Local Open Scope float_scope.
Local Set Warnings "-inexact-float".

(** The mean of three severities of 7.6 is 7.599999999999999, below every
    one of them: the rounded sum is 22.799999999999997. *)
Lemma mean_of_equal_doubles :
  mean [7.6; 7.6; 7.6] = 0x1.e666666666665p+2 /\
  (mean [7.6; 7.6; 7.6] <? 7.6) = true.
Proof. split; vm_compute; reflexivity. Qed.

(** A base severity of 6 with one report of 6 has the calculated severity
    5.999999999999999: [0.7] and [0.3] are not the exact weights. *)
Lemma calculated_severity_of_equal_doubles :
  calculated_severity 6 [6] = 0x1.7ffffffffffffp+2 /\
  (calculated_severity 6 [6] <? 6) = true.
Proof. split; vm_compute; reflexivity. Qed.

(** Three points at (0.1, 0.2) have a centroid a little to the north-east
    of them. *)
Lemma centroid_of_equal_doubles :
  let c := calculateCentroid [(0.1, 0.2); (0.1, 0.2); (0.1, 0.2)] in
  (0.1 <? fst c) = true /\ (0.2 <? snd c) = true.
Proof. split; vm_compute; reflexivity. Qed.

(** C5, where the code fails.  The points (12 S, 180 W) and (12 N, 0 E)
    are valid and face each other across the globe; their distance is half
    the circumference, about 20015 km.  With a Math library that returns the
    doubles nearest to the sines and cosines at the four arguments of this
    call, the quantity [a] of the source is 1.0000000000000002, the square
    root of [1 - a] is [NaN], and so is the distance that
    [calculateDistance] returns: the source does not limit [a] to 1. *)
Theorem C5_distance_of_opposite_points_is_NaN (Math : MathLibrary) :
  Math_sin Math 0x1.acee9f37bebd5p-3 = 0x1.a9cd9ac4258f5p-3 ->
  Math_cos Math 0x1.acee9f37bebd5p-3 = 0x1.f4cfc327a0080p-1 ->
  Math_cos Math (-0x1.acee9f37bebd5p-3) = 0x1.f4cfc327a0080p-1 ->
  Math_sin Math 0x1.921fb54442d18p+0 = 1 ->
  (forall y, Math_atan2 Math y nan = nan) ->
  calculateDistance Math (-12) (-180) 12 0 = nan.
Proof.
  intros Hsin Hcos Hcos' Hsin' Hnan. unfold calculateDistance. cbv zeta.
  change ((12 - -12) * Math_PI / 180 / 2) with 0x1.acee9f37bebd5p-3.
  change ((0 - -180) * Math_PI / 180 / 2) with 0x1.921fb54442d18p+0.
  change (-12 * Math_PI / 180) with (-0x1.acee9f37bebd5p-3).
  change (12 * Math_PI / 180) with 0x1.acee9f37bebd5p-3.
  rewrite Hsin, Hcos, Hcos', Hsin'.
  change (sqrt (1 - (0x1.a9cd9ac4258f5p-3 * 0x1.a9cd9ac4258f5p-3 +
                     0x1.f4cfc327a0080p-1 * 0x1.f4cfc327a0080p-1 * 1 * 1)))
    with nan.
  rewrite Hnan. vm_compute. reflexivity.
Qed.

Lemma C5_distance_of_opposite_points_witness :
  calculateDistance table_math (-12) (-180) 12 0 = nan.
Proof.
  apply (C5_distance_of_opposite_points_is_NaN table_math); reflexivity.
Defined.

End DoubleFacts.

(** ** Programs *)

Section ProgFacts.

Lemma lookup_all_Ret {A : Type} (a : list A) (idx : list nat) :
  (forall i, In i idx -> (i < length a)%nat) ->
  exists xs, lookup_all a idx = Ret xs /\ map Some xs = map (nth_error a) idx.
Proof.
  induction idx as [| i idx IH]; intros Hin.
  - exists []. split; reflexivity.
  - simpl. destruct (nth_error a i) as [x |] eqn:Hx.
    + destruct IH as [xs [Hxs Hmap]].
      { intros j Hj. apply Hin. right. exact Hj. }
      exists (x :: xs). rewrite Hxs. simpl. split; [reflexivity |].
      rewrite Hmap. reflexivity.
    + apply nth_error_None in Hx.
      specialize (Hin i (or_introl eq_refl)). lia.
Qed.

Lemma all_defined_map_Some {A : Type} (l : list A) :
  all_defined (map Some l) = Ret l.
Proof.
  induction l as [| x l IH]; simpl; [reflexivity |].
  rewrite IH. reflexivity.
Qed.

End ProgFacts.

(** ** Grouping by label *)

Section GroupingFacts.

Import ClusteringEngine Notions.

Lemma Map_has_set (m : ClusterMap) (k : Z) (v : list nat) :
  Map_has (Map_set m k v) k = true.
Proof.
  induction m as [| [k' w] m IH]; simpl.
  - rewrite Z.eqb_refl. reflexivity.
  - destruct (Z.eqb k' k) eqn:E; simpl; rewrite E; [reflexivity | exact IH].
Qed.

Lemma members_set_new (m : ClusterMap) (k : Z) :
  Map_has m k = false -> members (Map_set m k []) = members m.
Proof.
  unfold members. induction m as [| [k' w] m IH]; simpl; intros H.
  - reflexivity.
  - destruct (Z.eqb k' k) eqn:E; [discriminate |].
    simpl. rewrite IH by exact H. reflexivity.
Qed.

Lemma members_push (m : ClusterMap) (k : Z) (i : nat) :
  Map_has m k = true -> Permutation (members (Map_push m k i)) (members m ++ [i]).
Proof.
  unfold members. induction m as [| [k' w] m IH]; simpl; intros H.
  - discriminate.
  - destruct (Z.eqb k' k) eqn:E; simpl.
    + rewrite <- !app_assoc. apply Permutation_app_head.
      apply Permutation_app_comm.
    + rewrite <- app_assoc. apply Permutation_app_head. apply IH. exact H.
Qed.

(** One step of either grouping loop adds exactly the current index. *)
Lemma members_step (m : ClusterMap) (k : Z) (i : nat) :
  Permutation
    (members (Map_push (if negb (Map_has m k) then Map_set m k [] else m) k i))
    (members m ++ [i]).
Proof.
  destruct (Map_has m k) eqn:E; simpl.
  - apply members_push. exact E.
  - rewrite <- (members_set_new m k E).
    apply members_push. apply Map_has_set.
Qed.

Lemma groupDBSCAN_members (labels : list Z) :
  forall (i : nat) (m : ClusterMap),
    Permutation (members (groupDBSCAN labels i m)) (members m ++ kept labels i).
Proof.
  induction labels as [| c rest IH]; intros i m; simpl.
  - rewrite app_nil_r. apply Permutation_refl.
  - destruct (Z.eqb c (-1)).
    + apply IH.
    + eapply Permutation_trans; [apply IH |].
      eapply Permutation_trans.
      * apply Permutation_app_tail. apply members_step.
      * rewrite <- app_assoc. apply Permutation_refl.
Qed.

Lemma groupHierarchical_members (labels : list Z) :
  forall (i : nat) (m : ClusterMap),
    Permutation (members (groupHierarchical labels i m))
                (members m ++ seq i (length labels)).
Proof.
  induction labels as [| c rest IH]; intros i m; simpl.
  - rewrite app_nil_r. apply Permutation_refl.
  - eapply Permutation_trans; [apply IH |].
    eapply Permutation_trans.
    + apply Permutation_app_tail. apply members_step.
    + rewrite <- app_assoc. apply Permutation_refl.
Qed.

Lemma kept_filter (labels : list Z) :
  forall i prefix,
    length prefix = i ->
    kept labels i =
    filter (fun j => negb (is_noise (prefix ++ labels) j)) (seq i (length labels)).
Proof.
  induction labels as [| c rest IH]; intros i prefix Hlen; simpl.
  - reflexivity.
  - assert (Hc : is_noise (prefix ++ c :: rest) i = Z.eqb c (-1)).
    { unfold is_noise. rewrite nth_error_app2 by lia.
      replace (i - length prefix)%nat with 0%nat by lia. reflexivity. }
    rewrite Hc.
    assert (Hrest : kept rest (S i) =
                    filter (fun j => negb (is_noise (prefix ++ c :: rest) j))
                           (seq (S i) (length rest))).
    { rewrite (IH (S i) (prefix ++ [c])).
      - rewrite <- app_assoc. reflexivity.
      - rewrite length_app. simpl. lia. }
    destruct (Z.eqb c (-1)); simpl; rewrite Hrest; reflexivity.
Qed.

Lemma kept_bound (labels : list Z) (i j : nat) :
  In j (kept labels i) -> (j < i + length labels)%nat.
Proof.
  revert i. induction labels as [| c rest IH]; intros i; simpl; [tauto |].
  destruct (Z.eqb c (-1)); simpl.
  - intros H. apply IH in H. lia.
  - intros [<- | H]; [lia |]. apply IH in H. lia.
Qed.

(** The cluster objects built from a map carry the map's index lists. *)
Lemma clustersOfMap_Ret (alg : string) (coords : list (Q * Q))
      (hotspots : list Hotspot) (m : ClusterMap) :
  (forall i, In i (members m) -> (i < length coords)%nat) ->
  exists cs,
    clustersOfMap alg coords hotspots m = Ret cs /\
    map memberIndices cs = map snd m /\
    map id cs = map fst m /\
    Forall (fun c =>
              memberHotspots c = map (nth_error hotspots) (memberIndices c) /\
              size c = length (memberIndices c) /\
              exists pts, map Some pts = map (nth_error coords) (memberIndices c) /\
                          centroid c = calculateCentroid pts) cs.
Proof.
  unfold members. induction m as [| [k idx] m IH]; intros Hin.
  - exists []. repeat split; constructor.
  - simpl in Hin.
    destruct (lookup_all_Ret coords idx) as [pts [Hpts Hmap]].
    { intros i Hi. apply Hin. apply in_or_app. left. exact Hi. }
    destruct IH as [cs [Hcs [Hidx [Hid Hall]]]].
    { intros i Hi. apply Hin. apply in_or_app. right. exact Hi. }
    simpl. rewrite Hpts. simpl. rewrite Hcs. simpl.
    eexists. split; [reflexivity |]. simpl.
    split; [rewrite Hidx; reflexivity |].
    split; [rewrite Hid; reflexivity |].
    constructor; [| exact Hall]. simpl.
    split; [reflexivity |]. split; [reflexivity |].
    exists pts. split; [exact Hmap |].
    destruct (calculateCentroid pts). reflexivity.
Qed.

End GroupingFacts.

(** ** Coverage of the density path *)

Section CoverageFacts.

Import ClusteringEngine Notions.

Lemma concat_memberHotspots (hotspots : list Hotspot) (cs : list Cluster) :
  Forall (fun c => memberHotspots c = map (nth_error hotspots) (memberIndices c)) cs ->
  concat (map memberHotspots cs) =
  map (nth_error hotspots) (concat (map memberIndices cs)).
Proof.
  induction 1 as [| c cs Hc _ IH]; simpl; [reflexivity |].
  rewrite map_app, Hc, IH. reflexivity.
Qed.

Lemma concat_memberIndices (cs : list Cluster) (m : ClusterMap) :
  map memberIndices cs = map snd m -> concat (map memberIndices cs) = members m.
Proof. intros H. unfold members. rewrite H. reflexivity. Qed.

End CoverageFacts.

(** ** Sums and means *)

Section MeanFacts.

Import Js ClusteringEngine Notions.
Local Open Scope Q_scope.

Lemma fold_left_Qplus (l : list Q) :
  forall a, fold_left Qplus l a == a + Qsum l.
Proof.
  induction l as [| x l IH]; intros a; simpl.
  - ring.
  - rewrite IH. ring.
Qed.

Lemma sum_Qsum (l : list Q) : sum l == Qsum l.
Proof. unfold sum. rewrite fold_left_Qplus. ring. Qed.

Lemma fold_left_proj {A : Type} (f : A -> Q) (l : list A) :
  forall a, fold_left (fun s p => s + f p) l a == a + Qsum (map f l).
Proof.
  induction l as [| x l IH]; intros a; simpl.
  - ring.
  - rewrite IH. ring.
Qed.

Lemma of_nat_pos (n : nat) : (0 < n)%nat -> 0 < of_nat n.
Proof.
  intros H. unfold of_nat, Qlt. simpl. lia.
Qed.

Lemma of_nat_S (n : nat) : of_nat (S n) == of_nat n + 1.
Proof.
  unfold of_nat. rewrite Nat2Z.inj_succ, <- Z.add_1_r, inject_Z_plus. reflexivity.
Qed.

Lemma mean_times_length (l : list Q) :
  l <> [] -> mean l * of_nat (length l) == Qsum l.
Proof.
  intros Hne. unfold mean. rewrite sum_Qsum.
  fold (of_nat (length l)).
  assert (Hpos : 0 < of_nat (length l)).
  { apply of_nat_pos. destruct l; [congruence | simpl; lia]. }
  field. Lqa.lra.
Qed.

Lemma calculateCentroid_mean (pts : list (Q * Q)) :
  fst (calculateCentroid pts) * of_nat (length pts) == Qsum (map fst pts) /\
  snd (calculateCentroid pts) * of_nat (length pts) == Qsum (map snd pts).
Proof.
  unfold calculateCentroid. destruct pts as [| p pts].
  - simpl. split; reflexivity.
  - cbn [length Nat.eqb fst snd].
    rewrite !fold_left_proj.
    assert (Hpos : 0 < of_nat (S (length pts))) by (apply of_nat_pos; lia).
    split; field; Lqa.lra.
Qed.

End MeanFacts.

(** ** Cluster statistics *)

Section StatisticsFacts.

Import Js ClusteringEngine Notions.
Local Open Scope Q_scope.

Lemma max_of_ge (xs : list Q) :
  forall x y, In y (x :: xs) -> y <= max_of x xs.
Proof.
  unfold max_of, Math_max.
  induction xs as [| a xs IH]; intros x y Hin; simpl.
  - destruct Hin as [<- | []]. apply Qle_refl.
  - destruct Hin as [<- | [<- | Hin]].
    + eapply Qle_trans; [apply Q.le_max_l | apply IH; left; reflexivity].
    + eapply Qle_trans; [apply Q.le_max_r | apply IH; left; reflexivity].
    + apply IH. right. exact Hin.
Qed.

Lemma min_of_le (xs : list Q) :
  forall x y, In y (x :: xs) -> min_of x xs <= y.
Proof.
  unfold min_of, Math_min.
  induction xs as [| a xs IH]; intros x y Hin; simpl.
  - destruct Hin as [<- | []]. apply Qle_refl.
  - destruct Hin as [<- | [<- | Hin]].
    + eapply Qle_trans; [apply IH; left; reflexivity | apply Q.le_min_l].
    + eapply Qle_trans; [apply IH; left; reflexivity | apply Q.le_min_r].
    + apply IH. right. exact Hin.
Qed.

(** C2 as stated fails.  For severities 8 and 4 the specification's
    aggregate is [round(80 / 12) = 7]; the code attaches the mean 6 (and the
    extremes 8 and 4).  For severities 8 and 5 the attached mean is 13/2,
    not an integer. *)
Lemma C2_mean_is_not_the_weighted_aggregate :
  let st := calculateClusterStatistics 0 two_reports in
  spec_aggregate_severity (map severity_of two_reports) == 7 /\
  averageSeverity st == 6 /\ maxSeverity st == 8 /\ minSeverity st == 4 /\
  ~ averageSeverity st == spec_aggregate_severity (map severity_of two_reports) /\
  averageSeverity
    (calculateClusterStatistics 0 [report_at 0 0 8; report_at 0 0 5]) == 13 # 2.
Proof.
  cbv zeta. repeat split; try reflexivity.
  vm_compute. discriminate.
Qed.

End StatisticsFacts.

(** ** Centroids *)

Section CentroidFacts.

Import Js ClusteringEngine Notions.
Local Open Scope Q_scope.

Lemma nth_error_seq_all {A : Type} (l : list A) :
  forall prefix,
    map (nth_error (prefix ++ l)) (seq (length prefix) (length l)) = map Some l.
Proof.
  induction l as [| x l IH]; intros prefix; simpl; [reflexivity |].
  rewrite nth_error_app2 by lia.
  replace (length prefix - length prefix)%nat with 0%nat by lia. simpl.
  f_equal.
  specialize (IH (prefix ++ [x])).
  rewrite <- app_assoc, length_app in IH. simpl in IH.
  replace (length prefix + 1)%nat with (S (length prefix)) in IH by lia.
  exact IH.
Qed.

Lemma clustersOfMap_centroids (alg : string) (coords : list (Q * Q))
      (hotspots : list Hotspot) (m : ClusterMap) :
  (forall i, In i (members m) -> (i < length coords)%nat) ->
  exists cs,
    clustersOfMap alg coords hotspots m = Ret cs /\
    Forall (centroid_is_mean coords) cs.
Proof.
  intros Hin.
  destruct (clustersOfMap_Ret alg coords hotspots m Hin) as [cs [Hcs [_ [_ Hall]]]].
  exists cs. split; [exact Hcs |].
  eapply Forall_impl; [| exact Hall].
  intros c [_ [_ [pts [Hpts Hcen]]]].
  exists pts. split; [exact Hpts |].
  rewrite Hcen. apply calculateCentroid_mean.
Qed.

(** C3, as the code has it.  On the DBSCAN path, the hierarchical path and
    the too-few-points path the centroid of a cluster is the plain mean of
    its members' coordinates: the member count times the centroid is the sum
    of the coordinates, whatever the members' severities are. *)
Theorem C3_centroid_is_the_unweighted_mean
        (labels hlabels : list Z) (hotspots : list Hotspot) (noise : list nat) :
  length labels = length hotspots ->
  length hlabels = length hotspots ->
  let coords := prepareCoordinates hotspots in
  (exists cs, processDBSCANResults labels coords hotspots noise = Ret cs /\
              Forall (centroid_is_mean coords) cs) /\
  (exists cs, processHierarchicalResults hlabels coords hotspots = Ret cs /\
              Forall (centroid_is_mean coords) cs) /\
  Forall (centroid_is_mean coords) (r_clusters (createSingleClusterResult hotspots)).
Proof.
  intros Hl Hh coords.
  assert (Hc : length coords = length hotspots).
  { unfold coords, prepareCoordinates. apply length_map. }
  split; [| split].
  - unfold processDBSCANResults. apply clustersOfMap_centroids.
    intros i Hi.
    apply (Permutation_in _ (groupDBSCAN_members labels 0 [])) in Hi.
    simpl in Hi. apply kept_bound in Hi. lia.
  - unfold processHierarchicalResults. apply clustersOfMap_centroids.
    intros i Hi.
    apply (Permutation_in _ (groupHierarchical_members hlabels 0 [])) in Hi.
    simpl in Hi. apply in_seq in Hi. lia.
  - unfold createSingleClusterResult.
    destruct (Nat.eqb (length hotspots) 0); [constructor |].
    cbn [r_clusters]. constructor; [| constructor].
    exists coords. cbn [memberIndices centroid fst snd]. split.
    + rewrite <- Hc. symmetry. apply (nth_error_seq_all coords []).
    + fold coords. apply calculateCentroid_mean.
Qed.

Lemma C3_centroid_witness :
  let coords := prepareCoordinates mild_and_severe in
  (exists cs, processDBSCANResults [0; 0]%Z coords mild_and_severe [] = Ret cs /\
              Forall (centroid_is_mean coords) cs) /\
  (exists cs, processHierarchicalResults [1; 1]%Z coords mild_and_severe = Ret cs /\
              Forall (centroid_is_mean coords) cs) /\
  Forall (centroid_is_mean coords)
         (r_clusters (createSingleClusterResult mild_and_severe)).
Proof.
  apply (C3_centroid_is_the_unweighted_mean [0; 0]%Z [1; 1]%Z mild_and_severe []);
    reflexivity.
Defined.

(** C3 as stated fails.  A report of severity 1 at longitude 0 and one of
    severity 3 at longitude 4 form one cluster; its centroid is at
    longitude 2, the severity-weighted mean is at longitude 3. *)
Lemma C3_centroid_ignores_severity :
  exists c,
    processDBSCANResults [0; 0]%Z (prepareCoordinates mild_and_severe)
                         mild_and_severe [] = Ret [c] /\
    memberHotspots c = map Some mild_and_severe /\
    fst (centroid c) == 2 /\
    fst (spec_weighted_centroid mild_and_severe) == 3 /\
    ~ fst (centroid c) == fst (spec_weighted_centroid mild_and_severe).
Proof.
  eexists. split; [reflexivity |]. split; [reflexivity |].
  split; [reflexivity |]. split; [reflexivity |].
  vm_compute. discriminate.
Qed.

End CentroidFacts.

(** ** Too few points, and the default number of centroids *)

Section SmallInputFacts.

Import Js ClusteringEngine Notions.
Local Open Scope Q_scope.

(** C4, as the code has it.  With fewer points than [minClusterSize] (2
    unless given) [runClustering] calls no clustering library.  The
    algorithm name is looked up first: for a name that [this.algorithms]
    does not have the engine throws "Unsupported clustering algorithm",
    also for the empty input.  For a name it resolves the engine returns at
    once: the empty cluster list for the empty input, and otherwise one
    cluster that holds all the input points. *)
Theorem C4_too_few_points_give_one_cluster
        (now : Z) (hotspots : list Hotspot) (options : Options) :
  of_nat (length hotspots) < default (o_minClusterSize options) 2 ->
  let name := default (o_algorithm options) "dbscan"%string in
  calls_library (runClustering now hotspots options) = false /\
  (algorithms name = Undefined ->
   runClustering now hotspots options = Throw (UnsupportedAlgorithm name)) /\
  (algorithms name <> Undefined ->
   runClustering now hotspots options = Ret (createSingleClusterResult hotspots)) /\
  (hotspots = [] -> r_clusters (createSingleClusterResult hotspots) = []) /\
  (hotspots <> [] ->
   exists c,
     r_clusters (createSingleClusterResult hotspots) = [c] /\
     memberIndices c = seq 0 (length hotspots) /\
     memberHotspots c = map Some hotspots /\
     size c = length hotspots).
Proof.
  intros Hlt name.
  assert (Hb : Qltb (of_nat (length (prepareCoordinates hotspots)))
                    (default (o_minClusterSize options) 2) = true).
  { unfold prepareCoordinates. rewrite length_map. unfold Qltb.
    destruct (Qle_bool (default (o_minClusterSize options) 2)
                       (of_nat (length hotspots))) eqn:E; [| reflexivity].
    apply Qle_bool_iff in E. Lqa.lra. }
  assert (Hrun : runClustering now hotspots options =
                 match algorithms name with
                 | Undefined => Throw (UnsupportedAlgorithm name)
                 | _ => Ret (createSingleClusterResult hotspots)
                 end).
  { unfold runClustering. cbv zeta. rewrite Hb. fold name.
    destruct (algorithms name); reflexivity. }
  split; [| split; [| split; [| split]]].
  - rewrite Hrun. destruct (algorithms name); reflexivity.
  - intros Hund. rewrite Hrun, Hund. reflexivity.
  - intros Hknown. rewrite Hrun. destruct (algorithms name); [reflexivity | reflexivity | congruence].
  - intros ->. reflexivity.
  - intros Hne. unfold createSingleClusterResult.
    destruct hotspots as [| h hs]; [congruence |].
    cbn [length Nat.eqb r_clusters].
    eexists. split; [reflexivity |]. repeat split.
Qed.

Lemma C4_too_few_points_witness :
  let options := mkOptions None None (Some 3) None in
  let name := default (o_algorithm options) "dbscan"%string in
  calls_library (runClustering 0 two_reports options) = false /\
  (algorithms name = Undefined ->
   runClustering 0 two_reports options = Throw (UnsupportedAlgorithm name)) /\
  (algorithms name <> Undefined ->
   runClustering 0 two_reports options = Ret (createSingleClusterResult two_reports)) /\
  (two_reports = [] -> r_clusters (createSingleClusterResult two_reports) = []) /\
  (two_reports <> [] ->
   exists c,
     r_clusters (createSingleClusterResult two_reports) = [c] /\
     memberIndices c = seq 0 (length two_reports) /\
     memberHotspots c = map Some two_reports /\
     size c = length two_reports).
Proof.
  apply (C4_too_few_points_give_one_cluster 0 two_reports (mkOptions None None (Some 3) None)).
  reflexivity.
Defined.

(** C4 as stated fails.  Two reports with [minClusterSize = 3] come back as
    one cluster of two members, not as two singleton clusters. *)
Lemma C4_two_points_one_cluster :
  exists r,
    runClustering 0 two_reports (mkOptions None None (Some 3) None) = Ret r /\
    map size (r_clusters r) = [2%nat] /\
    ~ (length (r_clusters r) = length two_reports /\
       Forall (fun c => size c = 1%nat) (r_clusters r)).
Proof.
  eexists. split; [reflexivity |]. split; [reflexivity |].
  intros [Hlen _]. discriminate Hlen.
Qed.

(** C6, as the code has it.  Without a [k] in the parameters [runKMeans]
    asks the library for [min(5, ceil(n / 3))] centroids, [n] being the
    number of points. *)
Theorem C6_default_k_is_min_5_ceil_third
        (coords : list (Q * Q)) (parameters : Parameters) (hotspots : list Hotspot) :
  p_k parameters = None ->
  let n := length coords in
  (exists iterations tolerance continuation,
      runKMeans coords parameters hotspots =
      Vis (KMEANS coords (default_k n) iterations tolerance 42) continuation) /\
  default_k n = inject_Z (Z.min 5 ((Z.of_nat n + 2) / 3)).
Proof.
  intros Hk n. split.
  - unfold runKMeans. rewrite Hk. cbv zeta.
    eexists. eexists. eexists. reflexivity.
  - unfold default_k, Math_min, Math_ceil.
    assert (Hceil : Qceiling (of_nat n / 3) = ((Z.of_nat n + 2) / 3)%Z).
    { unfold Qceiling, Qfloor, of_nat, Qdiv, Qmult, Qinv, Qopp, inject_Z.
      cbn [Qnum Qden]. rewrite Z.mul_1_r.
      change (Z.pos (1 * 3)) with 3%Z.
      generalize (Z.of_nat n). intros z.
      pose proof (Z.div_mod (- z) 3 ltac:(lia)) as H1.
      pose proof (Z.mod_pos_bound (- z) 3 ltac:(lia)) as H2.
      pose proof (Z.div_mod (z + 2) 3 ltac:(lia)) as H3.
      pose proof (Z.mod_pos_bound (z + 2) 3 ltac:(lia)) as H4.
      lia. }
    rewrite Hceil.
    unfold Qmin, GenericMinMax.gmin.
    destruct (5 ?= inject_Z ((Z.of_nat n + 2) / 3)) eqn:E.
    + apply Qeq_alt in E. unfold Qeq in E. simpl in E.
      rewrite Z.min_l by lia. reflexivity.
    + apply Qlt_alt in E. unfold Qlt in E. simpl in E.
      rewrite Z.min_l by lia. reflexivity.
    + apply Qgt_alt in E. unfold Qlt in E. simpl in E.
      rewrite Z.min_r by lia. reflexivity.
Qed.

Lemma C6_default_k_witness :
  let n := length (prepareCoordinates three_reports) in
  (exists iterations tolerance continuation,
      runKMeans (prepareCoordinates three_reports) no_parameters three_reports =
      Vis (KMEANS (prepareCoordinates three_reports) (default_k n)
                  iterations tolerance 42) continuation) /\
  default_k n = inject_Z (Z.min 5 ((Z.of_nat n + 2) / 3)).
Proof.
  apply (C6_default_k_is_min_5_ceil_third
           (prepareCoordinates three_reports) no_parameters three_reports).
  reflexivity.
Defined.

(** C6 as stated fails.  For three points the code asks for one centroid;
    a value clamped to [2, 5] is never 1. *)
Lemma C6_three_points_one_centroid :
  default_k 3 == 1 /\
  (exists iterations tolerance continuation,
      runKMeans (prepareCoordinates three_reports) no_parameters three_reports =
      Vis (KMEANS (prepareCoordinates three_reports) 1 iterations tolerance 42)
          continuation) /\
  ~ (exists x : Q, default_k 3 == clamp x 2 5).
Proof.
  split; [reflexivity |]. split.
  - eexists. eexists. eexists. reflexivity.
  - intros [x Hx].
    assert (H2 : 2 <= clamp x 2 5) by (unfold clamp; apply Q.le_max_l).
    rewrite <- Hx in H2. vm_compute in H2. apply H2. reflexivity.
Qed.

End SmallInputFacts.

(** ** Priority score *)

Section PriorityFacts.

Import Js ClusteringEngine Notions.
Local Open Scope Q_scope.

Lemma scoreHotspot_grows (now : Z) (score : Q) (h : Hotspot) :
  0 <= severity_of h -> score <= scoreHotspot now score h.
Proof.
  unfold severity_of, scoreHotspot. intros Hs. cbv zeta.
  set (s := or_else (calculated_severity h) (base_severity h)) in *.
  destruct (critical_waste (waste_type h));
    destruct (risk_is_critical (environmental_metrics h) water_pollution_risk);
    destruct (risk_is_critical (environmental_metrics h) air_quality_impact);
    destruct (typical_reports h) as [| r rs];
    try match goal with
        | |- context [Qle_bool ?d 1] =>
            destruct (Qle_bool d 1); [| destruct (Qle_bool d 7)]
        end;
    Lqa.lra.
Qed.

Lemma fold_score_nonneg (now : Z) (members : list Hotspot) :
  Forall (fun h => 0 <= severity_of h) members ->
  forall score, 0 <= score -> 0 <= fold_left (scoreHotspot now) members score.
Proof.
  induction 1 as [| h hs Hh _ IH]; intros score Hscore; simpl.
  - exact Hscore.
  - apply IH. eapply Qle_trans; [exact Hscore |].
    apply scoreHotspot_grows. exact Hh.
Qed.

Lemma Math_round_nonneg (x : Q) : 0 <= x -> (0 <= Qfloor (x + (1 # 2)))%Z.
Proof.
  intros Hx. change 0%Z with (Qfloor 0).
  apply Qfloor_resp_le. Lqa.lra.
Qed.

Lemma Math_min_100_integer (z : Z) :
  Math_min 100 (inject_Z z) = inject_Z (Z.min 100 z).
Proof.
  unfold Math_min, Qmin, GenericMinMax.gmin.
  destruct (100 ?= inject_Z z) eqn:E.
  - apply Qeq_alt in E. unfold Qeq in E. simpl in E.
    rewrite Z.min_l by lia. reflexivity.
  - apply Qlt_alt in E. unfold Qlt in E. simpl in E.
    rewrite Z.min_l by lia. reflexivity.
  - apply Qgt_alt in E. unfold Qlt in E. simpl in E.
    rewrite Z.min_r by lia. reflexivity.
Qed.

Lemma priority_score_integer (now : Z) (members : list Hotspot) :
  Forall (fun h => 0 <= severity_of h) members ->
  exists z : Z,
    calculateClusterPriorityScore now members = inject_Z z /\ (0 <= z <= 100)%Z.
Proof.
  intros Hall. unfold calculateClusterPriorityScore. cbv zeta.
  unfold Math_round. rewrite Math_min_100_integer.
  eexists. split; [reflexivity |].
  pose proof (Math_round_nonneg _ (fold_score_nonneg now members Hall 0 (Qle_refl 0))).
  lia.
Qed.

Lemma priority_level_thresholds (st : Statistics) :
  let score := priorityScore st in
  (80 <= score -> calculatePriorityLevel st = critical) /\
  (60 <= score < 80 -> calculatePriorityLevel st = high) /\
  (40 <= score < 60 -> calculatePriorityLevel st = medium) /\
  (score < 40 -> calculatePriorityLevel st = low).
Proof.
  cbv zeta. unfold calculatePriorityLevel. cbv zeta.
  destruct (Qle_bool 80 (priorityScore st)) eqn:E80;
    destruct (Qle_bool 60 (priorityScore st)) eqn:E60;
    destruct (Qle_bool 40 (priorityScore st)) eqn:E40;
    try (apply Qle_bool_iff in E80);
    try (apply Qle_bool_iff in E60);
    try (apply Qle_bool_iff in E40);
    repeat split; intros; try reflexivity;
    try (exfalso; Lqa.lra);
    try match goal with
        | H : Qle_bool ?a ?b = false |- _ =>
            exfalso; assert (a <= b) as Hle by Lqa.lra;
            apply Qle_bool_iff in Hle; congruence
        end.
Qed.

End PriorityFacts.

(** ** The stable sort *)

Section SortFacts.

Import Js ClusteringEngine Notions.

Variable A : Type.
Variable key : A -> nat.

Lemma insert_perm (cmp : A -> A -> Z) (x : A) (l : list A) :
  Permutation (insert cmp x l) (x :: l).
Proof.
  induction l as [| y l IH]; simpl.
  - apply Permutation_refl.
  - destruct (cmp x y <=? 0)%Z.
    + apply Permutation_refl.
    + eapply Permutation_trans; [apply perm_skip; exact IH | apply perm_swap].
Qed.

Lemma sort_perm (cmp : A -> A -> Z) (l : list A) : Permutation (sort cmp l) l.
Proof.
  induction l as [| x l IH]; simpl.
  - apply Permutation_refl.
  - eapply Permutation_trans; [apply insert_perm | apply perm_skip; exact IH].
Qed.

Lemma insert_descending (x : A) (l : list A) :
  StronglySorted (fun a b => (key b <= key a)%nat) l ->
  StronglySorted (fun a b => (key b <= key a)%nat) (insert (descending key) x l).
Proof.
  induction 1 as [| y l Hs IH Hy]; simpl.
  - constructor; constructor.
  - unfold descending at 1.
    destruct (Z.of_nat (key y) - Z.of_nat (key x) <=? 0)%Z eqn:E.
    + apply Z.leb_le in E. constructor.
      * constructor; assumption.
      * constructor; [lia |].
        eapply Forall_impl; [| exact Hy]. simpl. intros b Hb. lia.
    + apply Z.leb_gt in E. constructor; [exact IH |].
      apply (Permutation_Forall (Permutation_sym (insert_perm (descending key) x l))).
      constructor; [lia | exact Hy].
Qed.

Lemma sort_descending (l : list A) :
  StronglySorted (fun a b => (key b <= key a)%nat) (sort (descending key) l).
Proof.
  induction l as [| x l IH]; simpl.
  - constructor.
  - apply insert_descending. exact IH.
Qed.

(** Stability: an element never overtakes one of the same key. *)
Lemma insert_stable (s : nat) (x : A) (l : list A) :
  filter (fun a => Nat.eqb (key a) s) (insert (descending key) x l) =
  filter (fun a => Nat.eqb (key a) s) (x :: l).
Proof.
  induction l as [| y l IH]; simpl; [reflexivity |].
  unfold descending at 1.
  destruct (Z.of_nat (key y) - Z.of_nat (key x) <=? 0)%Z eqn:E.
  - reflexivity.
  - apply Z.leb_gt in E. simpl. simpl in IH. rewrite IH.
    destruct (Nat.eqb (key x) s) eqn:Ex; [| reflexivity].
    apply Nat.eqb_eq in Ex.
    assert (Ey : Nat.eqb (key y) s = false) by (apply Nat.eqb_neq; lia).
    rewrite Ey. reflexivity.
Qed.

Lemma sort_stable (s : nat) (l : list A) :
  filter (fun a => Nat.eqb (key a) s) (sort (descending key) l) =
  filter (fun a => Nat.eqb (key a) s) l.
Proof.
  induction l as [| x l IH]; simpl; [reflexivity |].
  rewrite insert_stable. simpl. rewrite IH. reflexivity.
Qed.

End SortFacts.

(** ** Post-processing *)

Section PostProcessFacts.

Import Js ClusteringEngine Notions.
Local Open Scope Q_scope.

Lemma statistics_score_integer (now : Z) (ms : list Hotspot) :
  Forall (fun h => 0 <= severity_of h) ms ->
  exists z : Z,
    priorityScore (calculateClusterStatistics now ms) = inject_Z z /\
    (0 <= z <= 100)%Z.
Proof.
  intros Hall. destruct ms as [| h hs].
  - exists 0%Z. split; [reflexivity | lia].
  - cbn [calculateClusterStatistics priorityScore].
    apply priority_score_integer. exact Hall.
Qed.

(** What [annotate] does to one cluster. *)
Lemma annotate_Ret (now : Z) (alg : string) (params : Parameters)
      (cs : list Cluster) :
  Forall members_defined cs ->
  forall index,
  exists cs',
    annotate now alg params cs index = Ret cs' /\
    map bare cs' = map bare cs /\
    Forall (fun c' => algorithm c' = alg /\ parameters c' = Some params /\
                      exists st, statistics c' = Some st /\
                                 priorityLevel c' = Some (calculatePriorityLevel st)) cs' /\
    (Forall members_nonneg cs -> Forall scored cs').
Proof.
  induction 1 as [| c cs [ms Hms] _ IH]; intros index.
  - exists []. repeat split; constructor.
  - destruct (IH (S index)) as [cs' [Hcs' [Hbare [Hann Hscored]]]].
    assert (Hd : all_defined (memberHotspots c) = Ret ms).
    { rewrite Hms. apply all_defined_map_Some. }
    cbn [annotate]. rewrite Hd.
    cbn [bind]. rewrite Hcs'. cbn [bind].
    eexists. split; [reflexivity |].
    split; [| split].
    + cbn [map]. rewrite Hbare. reflexivity.
    + constructor; [| exact Hann]. cbn.
      split; [reflexivity |]. split; [reflexivity |].
      eexists. split; reflexivity.
    + intros Hnn. inversion Hnn as [| c0 cs0 [ms' [Hms' Hpos]] Hrest]; subst.
      constructor; [| apply Hscored; exact Hrest].
      assert (ms' = ms) as ->.
      { rewrite Hms in Hms'.
        clear - Hms'. revert ms' Hms'.
        induction ms as [| h ms IHms]; intros [| h' ms'] H; simpl in H;
          try discriminate; [reflexivity |].
        injection H as -> H. f_equal. apply IHms. exact H. }
      destruct (statistics_score_integer now ms Hpos) as [z [Hz Hrange]].
      exists (calculateClusterStatistics now ms), z. cbn.
      repeat split; try assumption; lia.
Qed.

Lemma Forall_sort {P : Cluster -> Prop} (cs : list Cluster) :
  Forall P cs -> Forall P (sort bySizeDescending cs).
Proof.
  apply Permutation_Forall. apply Permutation_sym. apply sort_perm.
Qed.

Lemma postProcessClusters_Ret (now : Z) (result : ClusteringResult)
      (hotspots : list Hotspot) (alg : string) (params : Parameters) :
  Forall members_defined (r_clusters result) ->
  exists result',
    postProcessClusters now result hotspots alg params = Ret result' /\
    map bare (r_clusters result') =
      map bare (sort bySizeDescending (r_clusters result)) /\
    (Forall members_nonneg (r_clusters result) ->
     Forall scored (r_clusters result')).
Proof.
  intros Hdef. unfold postProcessClusters. cbv zeta.
  destruct (annotate_Ret now alg params _ (Forall_sort _ Hdef) 0%nat)
    as [cs' [Hcs' [Hbare [_ Hscored]]]].
  rewrite Hcs'. cbn [bind]. eexists. split; [reflexivity |].
  cbn [r_clusters]. split; [exact Hbare |].
  intros Hnn. apply Hscored. apply Forall_sort. exact Hnn.
Qed.

(** C10.  For member hotspots of non-negative severity
    [calculateClusterPriorityScore] returns an integer between 0 and 100;
    every cluster that post-processing returns carries such a score in its
    statistics, and its priority level is the one the thresholds 80, 60 and
    40 give to that score. *)
Theorem C10_priority_score_between_0_and_100
        (now : Z) (members : list Hotspot) (result : ClusteringResult)
        (hotspots : list Hotspot) (alg : string) (params : Parameters) :
  Forall (fun h => 0 <= severity_of h) members ->
  Forall members_nonneg (r_clusters result) ->
  (exists z : Z,
      calculateClusterPriorityScore now members = inject_Z z /\ (0 <= z <= 100)%Z) /\
  (exists result',
      postProcessClusters now result hotspots alg params = Ret result' /\
      Forall scored (r_clusters result')) /\
  (forall st : Statistics,
      (80 <= priorityScore st -> calculatePriorityLevel st = critical) /\
      (60 <= priorityScore st < 80 -> calculatePriorityLevel st = high) /\
      (40 <= priorityScore st < 60 -> calculatePriorityLevel st = medium) /\
      (priorityScore st < 40 -> calculatePriorityLevel st = low)).
Proof.
  intros Hm Hr. split; [| split].
  - apply priority_score_integer. exact Hm.
  - destruct (postProcessClusters_Ret now result hotspots alg params)
      as [result' [Hres [_ Hscored]]].
    + eapply Forall_impl; [| exact Hr].
      intros c [ms [Hms _]]. exists ms. exact Hms.
    + exists result'. split; [exact Hres | apply Hscored; exact Hr].
  - intros st. apply (priority_level_thresholds st).
Qed.

End PostProcessFacts.

Section OrderFacts.

Import Js ClusteringEngine Notions Samples.
Local Open Scope Q_scope.

Lemma bare_size (a b : Cluster) : bare a = bare b -> size a = size b.
Proof. unfold bare. intros H. injection H. auto. Qed.

Lemma map_cons_eq {X Y : Type} (f : X -> Y) (a b : X) (l l' : list X) :
  map f (a :: l) = map f (b :: l') -> f a = f b /\ map f l = map f l'.
Proof. simpl. intros H. injection H. auto. Qed.

Lemma map_bare_sorted (cs cs' : list Cluster) :
  map bare cs' = map bare cs ->
  StronglySorted (fun a b => (size b <= size a)%nat) cs ->
  StronglySorted (fun a b => (size b <= size a)%nat) cs'.
Proof.
  revert cs'. induction cs as [| c cs IH]; intros [| c' cs'] Hmap Hs;
    try discriminate; [constructor |].
  apply map_cons_eq in Hmap. destruct Hmap as [Hc Hrest].
  inversion Hs as [| x l Hs' Hall]; subst.
  constructor; [apply IH; assumption |].
  apply bare_size in Hc.
  clear - Hc Hrest Hall. revert cs' Hrest.
  induction Hall as [| b cs Hb _ IHall]; intros [| b' cs'] Hrest;
    try discriminate; constructor;
    apply map_cons_eq in Hrest; destruct Hrest as [Hb' Hrest].
  - apply bare_size in Hb'. lia.
  - apply IHall. exact Hrest.
Qed.

Lemma map_bare_filter (s : nat) (cs cs' : list Cluster) :
  map bare cs' = map bare cs ->
  map bare (filter (fun c => Nat.eqb (size c) s) cs') =
  map bare (filter (fun c => Nat.eqb (size c) s) cs).
Proof.
  revert cs'. induction cs as [| c cs IH]; intros [| c' cs'] Hmap;
    try discriminate; [reflexivity |].
  apply map_cons_eq in Hmap. destruct Hmap as [Hc Hrest]. simpl.
  rewrite (bare_size c' c Hc).
  destruct (Nat.eqb (size c) s); simpl; rewrite (IH cs' Hrest); [rewrite Hc |];
    reflexivity.
Qed.

(** C7, as the code has it.  Post-processing returns the clusters it was
    given, sorted by descending member count; clusters of equal member
    count stay in the order in which the algorithm produced them, so equal
    inputs give equally ordered outputs.  Neither severity nor latitude
    takes part in the order. *)
Theorem C7_sorted_by_size_ties_in_production_order
        (now : Z) (result : ClusteringResult) (hotspots : list Hotspot)
        (alg : string) (params : Parameters) :
  Forall members_defined (r_clusters result) ->
  exists result',
    postProcessClusters now result hotspots alg params = Ret result' /\
    StronglySorted (fun a b => (size b <= size a)%nat) (r_clusters result') /\
    Permutation (map bare (r_clusters result')) (map bare (r_clusters result)) /\
    (forall s : nat,
        map bare (filter (fun c => Nat.eqb (size c) s) (r_clusters result')) =
        map bare (filter (fun c => Nat.eqb (size c) s) (r_clusters result))).
Proof.
  intros Hdef.
  destruct (postProcessClusters_Ret now result hotspots alg params Hdef)
    as [result' [Hres [Hbare _]]].
  exists result'. split; [exact Hres |]. split; [| split].
  - apply (map_bare_sorted _ _ Hbare).
    apply (sort_descending Cluster size).
  - rewrite Hbare. apply Permutation_map. apply sort_perm.
  - intros s. rewrite (map_bare_filter s _ _ Hbare).
    f_equal. apply (sort_stable Cluster size).
Qed.

Lemma C7_sorted_witness :
  exists result',
    postProcessClusters 0 one_and_two_pairs five_reports "dbscan" no_parameters
    = Ret result' /\
    StronglySorted (fun a b => (size b <= size a)%nat) (r_clusters result') /\
    Permutation (map bare (r_clusters result'))
                (map bare (r_clusters one_and_two_pairs)) /\
    (forall s : nat,
        map bare (filter (fun c => Nat.eqb (size c) s) (r_clusters result')) =
        map bare (filter (fun c => Nat.eqb (size c) s)
                         (r_clusters one_and_two_pairs))).
Proof.
  apply (C7_sorted_by_size_ties_in_production_order
           0 one_and_two_pairs five_reports "dbscan" no_parameters).
  repeat constructor; eexists; reflexivity.
Defined.

(** C7 as stated fails.  The library groups two mild reports as cluster 0
    and two severe reports as cluster 1.  Both clusters have two members;
    the engine returns the mild cluster (mean severity 2) before the severe
    one (mean severity 9), where the order of the specification wants the
    severe one first. *)
Lemma C7_equal_sizes_keep_production_order :
  exists result mild severe,
    run (density_library [0; 0; 1; 1]%Z [])
        (runClustering 0 mild_pair_severe_pair no_options) = inr result /\
    r_clusters result = [mild; severe] /\
    (id mild = 0%Z /\ size mild = 2%nat /\ average_of mild == 2) /\
    (id severe = 1%Z /\ size severe = 2%nat /\ average_of severe == 9) /\
    ~ spec_order mild severe.
Proof.
  eexists. eexists. eexists.
  split; [lazy -[calculateClusterRadius]; reflexivity |].
  split; [reflexivity |].
  split; [repeat split |]. split; [repeat split |].
  unfold spec_order. cbn [size average_of statistics averageSeverity centroid snd].
  intros [H | [[_ H] | [_ [H _]]]].
  - lia.
  - vm_compute in H. discriminate H.
  - vm_compute in H. discriminate H.
Qed.

Lemma C10_priority_score_witness :
  (exists z : Z,
      calculateClusterPriorityScore 0 two_reports = inject_Z z /\ (0 <= z <= 100)%Z) /\
  (exists result',
      postProcessClusters 0 (createSingleClusterResult two_reports) two_reports
                          "dbscan" no_parameters = Ret result' /\
      Forall scored (r_clusters result')) /\
  (forall st : Statistics,
      (80 <= priorityScore st -> calculatePriorityLevel st = critical) /\
      (60 <= priorityScore st < 80 -> calculatePriorityLevel st = high) /\
      (40 <= priorityScore st < 60 -> calculatePriorityLevel st = medium) /\
      (priorityScore st < 40 -> calculatePriorityLevel st = low)).
Proof.
  assert (Hnn : Forall (fun h => 0 <= severity_of h) two_reports).
  { repeat constructor; vm_compute; discriminate. }
  apply (C10_priority_score_between_0_and_100
           0 two_reports (createSingleClusterResult two_reports) two_reports
           "dbscan" no_parameters).
  - exact Hnn.
  - constructor; [| constructor]. exists two_reports. split; [reflexivity | exact Hnn].
Defined.

End OrderFacts.

(** ** Configuration errors *)

Section ValidationFacts.

Import Js ClusteringEngine Routes Notions RouteNotions.
Local Open Scope Q_scope.

Lemma Qltb_false_iff (x y : Q) : y <= x -> Qltb x y = false.
Proof.
  intros H. unfold Qltb. apply Qle_bool_iff in H. rewrite H. reflexivity.
Qed.

Lemma Qltb_true_iff (x y : Q) : x < y -> Qltb x y = true.
Proof.
  intros H. unfold Qltb.
  destruct (Qle_bool y x) eqn:E; [| reflexivity].
  apply Qle_bool_iff in E. Lqa.lra.
Qed.

Lemma number_integer_rejects_at (path : string) (lo d m : Q) (hi : option Q) :
  m < lo ->
  exists r, number_integer path lo hi d (Some m) = inl (mkValidationError path r).
Proof.
  intros H. unfold number_integer.
  destruct (negb (is_integer m)); [eexists; reflexivity |].
  rewrite (Qltb_true_iff m lo H). eexists. reflexivity.
Qed.

(** The first key that fails, in the order of the schema: [algorithm], then
    [parameters.eps], then [parameters.minPoints]. *)
Lemma validate_first_failure (body : RequestOptions) (p : Parameters) (e m : Q) :
  q_parameters body = Some p ->
  (p_eps p = Some e /\ e <= 0) \/ (p_minPoints p = Some m /\ m < 2) ->
  exists details,
    validate body = inl details /\
    (~ algorithm_accepted body -> path details = "algorithm"%string) /\
    (algorithm_accepted body -> ~ eps_accepted p ->
     details = mkValidationError "parameters.eps" MustBePositive) /\
    (algorithm_accepted body -> eps_accepted p ->
     path details = "parameters.minPoints"%string).
Proof.
  intros Hp Hbad. unfold validate, algorithm_accepted, string_valid.
  assert (Hparams :
            exists details,
              validateParameters p = inl details /\
              (~ eps_accepted p ->
               details = mkValidationError "parameters.eps" MustBePositive) /\
              (eps_accepted p -> path details = "parameters.minPoints"%string)).
  { unfold validateParameters, eps_accepted, number_positive.
    destruct (p_eps p) as [v |] eqn:Ev.
    - destruct (Qltb 0 v) eqn:Epos.
      + assert (Hv : 0 < v).
        { unfold Qltb in Epos. destruct (Qle_bool v 0) eqn:E'; [discriminate |].
          apply Qnot_le_lt. intros Hle. apply Qle_bool_iff in Hle. congruence. }
        destruct Hbad as [[He Hneg] | [Hm Hlow]].
        * injection He as <-. Lqa.lra.
        * cbn [andThen]. rewrite Hm.
          destruct (number_integer_rejects_at "parameters.minPoints" 2 2 m None Hlow)
            as [r Hr].
          rewrite Hr. cbn [andThen]. eexists. split; [reflexivity |].
          split; [intros Hno; contradiction | intros _; reflexivity].
      + cbn [andThen]. eexists. split; [reflexivity |].
        split; [intros _; reflexivity |].
        intros Hv. exfalso. apply Qltb_true_iff in Hv. congruence.
    - destruct Hbad as [[He _] | [Hm Hlow]]; [discriminate |].
      cbn [andThen]. rewrite Hm.
      destruct (number_integer_rejects_at "parameters.minPoints" 2 2 m None Hlow)
        as [r Hr].
      rewrite Hr. cbn [andThen]. eexists. split; [reflexivity |].
      split; [intros Hno; exfalso; apply Hno; exact I | intros _; reflexivity]. }
  destruct Hparams as (d & Hd & Hno & Hyes).
  destruct (q_algorithm body) as [s |] eqn:Ea.
  - destruct (existsb (String.eqb s) ["dbscan"; "kmeans"; "hierarchical"]%string) eqn:Ex.
    + assert (Hin : In s ["dbscan"; "kmeans"; "hierarchical"]%string).
      { apply existsb_exists in Ex. destruct Ex as (a & Hin & Ha).
        apply String.eqb_eq in Ha. subst a. exact Hin. }
      cbn [andThen]. rewrite Hp, Hd. cbn [andThen].
      exists d. split; [reflexivity |].
      split; [intros Hn; contradiction |]. split; intros _; assumption.
    + assert (Hout : ~ In s ["dbscan"; "kmeans"; "hierarchical"]%string).
      { intros Hin.
        assert (Ht : existsb (String.eqb s) ["dbscan"; "kmeans"; "hierarchical"]%string
                     = true).
        { apply existsb_exists. exists s. split; [exact Hin | apply String.eqb_refl]. }
        congruence. }
      cbn [andThen]. eexists. split; [reflexivity |].
      split; [intros _; reflexivity |]. split; intros Hin; contradiction.
  - cbn [andThen]. rewrite Hp, Hd. cbn [andThen].
    exists d. split; [reflexivity |].
    split; [intros Hn; exfalso; apply Hn; exact I |]. split; intros _; assumption.
Qed.

Lemma call_is_a_library_call (a : Algorithm) (coordinates : list (Q * Q))
      (parameters : Parameters) (hotspots : list Hotspot) :
  calls_library (call a coordinates parameters hotspots) = true.
Proof. destruct a; reflexivity. Qed.

(** C8, as the code has it.  Configuration is validated by the route, not
    by the engine.  A request whose parameters carry an [eps] that is not
    positive or a [minPoints] below 2 is answered with "Invalid clustering
    parameters" and the first key that fails in the order of the schema
    ([algorithm], then [parameters.eps], then [parameters.minPoints]),
    whatever the stored hotspots and the libraries are: nothing is
    computed.  The engine itself throws "Unsupported clustering algorithm"
    exactly for an algorithm name that [this.algorithms] does not have; on
    the density path with enough points it hands whatever [eps] and
    [minPoints] it is given to the library. *)
Theorem C8_configuration_is_validated_by_the_route
        (body : RequestOptions) (p : Parameters) (e m : Q) :
  q_parameters body = Some p ->
  (p_eps p = Some e /\ e <= 0) \/ (p_minPoints p = Some m /\ m < 2) ->
  (exists details,
      (forall (lib : Library) (now : Z) (stored : list Hotspot),
          postClusters lib now stored body =
          BadRequest "Invalid clustering parameters" details) /\
      (~ algorithm_accepted body -> path details = "algorithm"%string) /\
      (algorithm_accepted body -> ~ eps_accepted p ->
       details = mkValidationError "parameters.eps" MustBePositive) /\
      (algorithm_accepted body -> eps_accepted p ->
       path details = "parameters.minPoints"%string)) /\
  (forall (now : Z) (hotspots : list Hotspot) (options : Options),
      let name := default (o_algorithm options) "dbscan"%string in
      let parameters := default (o_parameters options) no_parameters in
      (runClustering now hotspots options = Throw (UnsupportedAlgorithm name) <->
       algorithms name = Undefined) /\
      (name = "dbscan"%string ->
       default (o_minClusterSize options) 2 <= of_nat (length hotspots) ->
       exists continuation,
         runClustering now hotspots options =
         Vis (DBSCAN (prepareCoordinates hotspots)
                     (default (p_eps parameters) (1 # 100))
                     (default (p_minPoints parameters) 2)) continuation)).
Proof.
  intros Hp Hbad. split.
  - destruct (validate_first_failure body p e m Hp Hbad) as (details & Hd & Hkeys).
    exists details. split; [| exact Hkeys].
    intros lib now stored. unfold postClusters. rewrite Hd. reflexivity.
  - intros now hotspots options name parameters. split.
    + unfold runClustering. cbv zeta. fold name. split.
      * destruct (algorithms name) as [a | |]; [| | reflexivity].
        -- destruct (Qltb (of_nat (length (prepareCoordinates hotspots)))
                          (default (o_minClusterSize options) 2));
             [discriminate |].
           intros H. exfalso.
           pose proof (call_is_a_library_call
                         a (prepareCoordinates hotspots)
                         (default (o_parameters options) no_parameters) hotspots) as Hc.
           destruct (call a (prepareCoordinates hotspots)
                          (default (o_parameters options) no_parameters) hotspots);
             simpl in Hc, H; discriminate.
        -- destruct (Qltb (of_nat (length (prepareCoordinates hotspots)))
                          (default (o_minClusterSize options) 2)); discriminate.
      * intros ->. reflexivity.
    + intros Hname Hsize. unfold runClustering. cbv zeta. fold name. rewrite Hname.
      change (algorithms "dbscan") with (Own dbscan). cbv iota.
      rewrite Qltb_false_iff
        by (unfold prepareCoordinates; rewrite length_map; exact Hsize).
      cbn [call runDBSCAN bind]. unfold runDBSCAN. cbn [bind].
      eexists. reflexivity.
Qed.

Lemma C8_route_validation_witness :
  let body := mkRequest None (Some bad_parameters) None None None None in
  (exists details,
      (forall (lib : Library) (now : Z) (stored : list Hotspot),
          postClusters lib now stored body =
          BadRequest "Invalid clustering parameters" details) /\
      (~ algorithm_accepted body -> path details = "algorithm"%string) /\
      (algorithm_accepted body -> ~ eps_accepted bad_parameters ->
       details = mkValidationError "parameters.eps" MustBePositive) /\
      (algorithm_accepted body -> eps_accepted bad_parameters ->
       path details = "parameters.minPoints"%string)) /\
  (forall (now : Z) (hotspots : list Hotspot) (options : Options),
      let name := default (o_algorithm options) "dbscan"%string in
      let parameters := default (o_parameters options) no_parameters in
      (runClustering now hotspots options = Throw (UnsupportedAlgorithm name) <->
       algorithms name = Undefined) /\
      (name = "dbscan"%string ->
       default (o_minClusterSize options) 2 <= of_nat (length hotspots) ->
       exists continuation,
         runClustering now hotspots options =
         Vis (DBSCAN (prepareCoordinates hotspots)
                     (default (p_eps parameters) (1 # 100))
                     (default (p_minPoints parameters) 2)) continuation)).
Proof.
  apply (C8_configuration_is_validated_by_the_route
           (mkRequest None (Some bad_parameters) None None None None)
           bad_parameters (-1) 0).
  - reflexivity.
  - left. split; [reflexivity |]. vm_compute. discriminate.
Defined.

(** C8 as stated fails for the engine.  Given [eps = -1] and
    [minPoints = 0], [runClustering] raises no error: it hands both values
    to the density library, and when the library answers, the engine
    returns clusters computed under that configuration. *)
Lemma C8_engine_runs_bad_configuration :
  (exists continuation,
      runClustering 0 three_reports (mkOptions None (Some bad_parameters) None None) =
      Vis (DBSCAN (prepareCoordinates three_reports) (-1) 0) continuation) /\
  (exists result,
      run (density_library [0; 0; -1]%Z [2%nat])
          (runClustering 0 three_reports (mkOptions None (Some bad_parameters) None None))
      = inr result /\
      r_parameters result =
        mkParameters (Some (-1)) (Some 0) None None None None None None /\
      map memberIndices (r_clusters result) = [[0; 1]]%nat).
Proof.
  split.
  - eexists. reflexivity.
  - eexists. split; [lazy -[calculateClusterRadius]; reflexivity |]. split; reflexivity.
Qed.

End ValidationFacts.

(** ** Coverage of the engine on the density path *)

Section EngineCoverageFacts.

Import Js ClusteringEngine Notions.

(** The density path on labels that cover the points: the clusters hold the
    points that are not labelled noise, once each. *)
Lemma processDBSCANResults_members
      (labels : list Z) (coords : list (Q * Q)) (hotspots : list Hotspot)
      (noise : list nat) :
  length coords = length labels ->
  length hotspots = length labels ->
  exists cs,
    processDBSCANResults labels coords hotspots noise = Ret cs /\
    Permutation (concat (map memberIndices cs))
                (filter (fun i => negb (is_noise labels i)) (seq 0 (length labels))) /\
    Forall (fun c => memberHotspots c = map (nth_error hotspots) (memberIndices c)) cs /\
    Forall members_defined cs.
Proof.
  intros Hlen Hhs. unfold processDBSCANResults.
  pose proof (groupDBSCAN_members labels 0 []) as Hperm.
  rewrite (kept_filter labels 0 [] eq_refl) in Hperm.
  simpl in Hperm.
  set (m := groupDBSCAN labels 0 []) in *.
  destruct (clustersOfMap_Ret "dbscan" coords hotspots m) as [cs [Hcs [Hidx [_ Hall]]]].
  { intros i Hi. apply (Permutation_in _ Hperm) in Hi.
    apply filter_In in Hi. destruct Hi as [Hi _].
    apply in_seq in Hi. lia. }
  assert (Hmem : Permutation (concat (map memberIndices cs))
                   (filter (fun i => negb (is_noise labels i))
                           (seq 0 (length labels)))).
  { rewrite (concat_memberIndices cs m Hidx). exact Hperm. }
  assert (Hhot : Forall (fun c => memberHotspots c =
                                  map (nth_error hotspots) (memberIndices c)) cs).
  { eapply Forall_impl; [| exact Hall]. intros c Hc. apply Hc. }
  exists cs. split; [exact Hcs |]. split; [exact Hmem |]. split; [exact Hhot |].
  apply Forall_forall. intros c Hc.
  pose proof (proj1 (Forall_forall _ _) Hhot c Hc) as Hmh.
  destruct (lookup_all_Ret hotspots (memberIndices c)) as [ms [_ Hms]].
  { intros i Hi.
    assert (Hin : In i (concat (map memberIndices cs))).
    { apply in_concat. exists (memberIndices c). split; [| exact Hi].
      apply in_map. exact Hc. }
    apply (Permutation_in _ Hmem) in Hin. apply filter_In in Hin.
    destruct Hin as [Hin _]. apply in_seq in Hin. lia. }
  exists ms. rewrite Hmh, Hms. reflexivity.
Qed.

Lemma Permutation_concat_map {X Y : Type} (f : X -> list Y) (l l' : list X) :
  Permutation l l' -> Permutation (concat (map f l)) (concat (map f l')).
Proof.
  induction 1 as [| x l l' _ IH | x y l | l l' l'' _ IH1 _ IH2]; simpl.
  - apply Permutation_refl.
  - apply Permutation_app_head. exact IH.
  - rewrite !app_assoc. apply Permutation_app_tail. apply Permutation_app_comm.
  - eapply Permutation_trans; eassumption.
Qed.

(** On the hierarchical path no label is skipped: every point is in exactly
    one cluster. *)
Lemma processHierarchicalResults_members
      (labels : list Z) (coords : list (Q * Q)) (hotspots : list Hotspot) :
  length coords = length labels ->
  exists cs,
    processHierarchicalResults labels coords hotspots = Ret cs /\
    Permutation (concat (map memberIndices cs)) (seq 0 (length labels)).
Proof.
  intros Hlen. unfold processHierarchicalResults.
  pose proof (groupHierarchical_members labels 0 []) as Hperm.
  simpl in Hperm.
  set (m := groupHierarchical labels 0 []) in *.
  destruct (clustersOfMap_Ret "hierarchical" coords hotspots m)
    as [cs [Hcs [Hidx _]]].
  { intros i Hi. apply (Permutation_in _ Hperm) in Hi.
    apply in_seq in Hi. lia. }
  exists cs. split; [exact Hcs |].
  rewrite (concat_memberIndices cs m Hidx). exact Hperm.
Qed.

Lemma run_bind {A B : Type} (lib : Library) (p : Prog A) (f : A -> Prog B) :
  run lib (bind p f) =
  match run lib p with
  | inl e => inl e
  | inr a => run lib (f a)
  end.
Proof.
  induction p as [a | e | T c k IH]; simpl; try reflexivity.
  destruct (lib T c) as [e | t]; [reflexivity | apply IH].
Qed.

Lemma map_bare_memberIndices (cs cs' : list Cluster) :
  map bare cs' = map bare cs ->
  map memberIndices cs' = map memberIndices cs /\
  map memberHotspots cs' = map memberHotspots cs.
Proof.
  revert cs'. induction cs as [| c cs IH]; intros [| c' cs'] H;
    try discriminate; [split; reflexivity |].
  simpl in H. injection H as Hid Hcen Hidx Hhot Hsize Hrest.
  destruct (IH cs' Hrest) as [H1 H2].
  simpl. rewrite Hidx, Hhot, H1, H2. split; reflexivity.
Qed.

Lemma postProcessClusters_header (now : Z) (result result' : ClusteringResult)
      (hotspots : list Hotspot) (alg : string) (params : Parameters) :
  postProcessClusters now result hotspots alg params = Ret result' ->
  r_algorithm result' = r_algorithm result /\
  r_parameters result' = r_parameters result /\
  r_noise result' = r_noise result /\
  r_totalClusters result' = r_totalClusters result /\
  r_converged result' = r_converged result.
Proof.
  unfold postProcessClusters. cbv zeta.
  destruct (annotate now alg params (sort bySizeDescending (r_clusters result)) 0)
    as [cs | e | T c k]; cbn [bind]; intros H; try discriminate.
  injection H as <-. repeat split.
Qed.

(** C1, as the code has it.  When the density library labels exactly the
    points it was given, the engine returns, and the member lists of the
    clusters it returns hold every point whose label is not [-1] exactly
    once and no point labelled [-1]: a noise point is in no cluster and
    gets no cluster of its own.  The noise list of the result is the noise
    list the library answered with, unchanged. *)
Theorem C1_engine_members_are_the_labelled_points
        (lib : Library) (now : Z) (hotspots : list Hotspot) (options : Options)
        (answer : DbscanAnswer) :
  let parameters := default (o_parameters options) no_parameters in
  let labels := db_clusters answer in
  default (o_algorithm options) "dbscan"%string = "dbscan"%string ->
  (default (o_minClusterSize options) 2 <= of_nat (length hotspots))%Q ->
  lib _ (DBSCAN (prepareCoordinates hotspots)
                (default (p_eps parameters) (1 # 100))
                (default (p_minPoints parameters) 2)) = inr answer ->
  length labels = length hotspots ->
  exists result,
    run lib (runClustering now hotspots options) = inr result /\
    Permutation (concat (map memberIndices (r_clusters result)))
                (filter (fun i => negb (is_noise labels i)) (seq 0 (length hotspots))) /\
    Permutation (concat (map memberHotspots (r_clusters result)))
                (map (nth_error hotspots)
                     (filter (fun i => negb (is_noise labels i))
                             (seq 0 (length hotspots)))) /\
    (forall i c, is_noise labels i = true -> In c (r_clusters result) ->
                 ~ In i (memberIndices c)) /\
    r_noise result = Some (db_noise answer).
Proof.
  intros parameters labels Halg Hsize Hlib Hlen.
  destruct (processDBSCANResults_members
              labels (prepareCoordinates hotspots) hotspots (db_noise answer))
    as [cs [Hcs [Hmem [Hhot Hdef]]]].
  { unfold prepareCoordinates. rewrite length_map. symmetry. exact Hlen. }
  { symmetry. exact Hlen. }
  rewrite Hlen in Hmem.
  set (raw := mkResult "dbscan"
                (mkParameters (Some (default (p_eps parameters) (1 # 100)))
                              (Some (default (p_minPoints parameters) 2))
                              None None None None None None)
                cs (Some (db_noise answer)) (length cs) None).
  destruct (postProcessClusters_Ret now raw hotspots "dbscan" parameters Hdef)
    as [result [Hres [Hbare _]]].
  destruct (map_bare_memberIndices _ _ Hbare) as [Hidx Hmh].
  assert (Hperm : Permutation (concat (map memberIndices (r_clusters result)))
                              (concat (map memberIndices cs))).
  { rewrite Hidx. apply Permutation_concat_map. apply sort_perm. }
  exists result. split; [| split; [| split; [| split]]].
  - unfold runClustering. cbv zeta. rewrite Halg.
    change (algorithms "dbscan") with (Own dbscan). cbv iota.
    rewrite Qltb_false_iff
      by (unfold prepareCoordinates; rewrite length_map; exact Hsize).
    rewrite run_bind. cbn [call runDBSCAN run].
    fold parameters. rewrite Hlib. rewrite run_bind. fold labels.
    rewrite Hcs. cbn [run]. fold raw. rewrite Hres. reflexivity.
  - eapply Permutation_trans; [exact Hperm | exact Hmem].
  - eapply Permutation_trans.
    + rewrite Hmh. apply Permutation_concat_map. apply sort_perm.
    + change (r_clusters raw) with cs.
      rewrite (concat_memberHotspots hotspots cs Hhot).
      apply Permutation_map. exact Hmem.
  - intros i c Hnoise Hc Hi.
    assert (Hin : In i (concat (map memberIndices (r_clusters result)))).
    { apply in_concat. exists (memberIndices c). split; [| exact Hi].
      apply in_map. exact Hc. }
    apply (Permutation_in _ (Permutation_trans Hperm Hmem)) in Hin.
    apply filter_In in Hin.
    destruct Hin as [_ Hneg]. rewrite Hnoise in Hneg. discriminate.
  - destruct (postProcessClusters_header _ _ _ _ _ _ Hres) as (_ & _ & Hnoise & _).
    exact Hnoise.
Qed.

Lemma C1_engine_witness :
  exists result,
    run (density_library [0; 0; -1]%Z [2%nat])
        (runClustering 0 three_reports no_options) = inr result /\
    Permutation (concat (map memberIndices (r_clusters result)))
                (filter (fun i => negb (is_noise [0; 0; -1]%Z i))
                        (seq 0 (length three_reports))) /\
    Permutation (concat (map memberHotspots (r_clusters result)))
                (map (nth_error three_reports)
                     (filter (fun i => negb (is_noise [0; 0; -1]%Z i))
                             (seq 0 (length three_reports)))) /\
    (forall i c, is_noise [0; 0; -1]%Z i = true -> In c (r_clusters result) ->
                 ~ In i (memberIndices c)) /\
    r_noise result = Some [2%nat].
Proof.
  apply (C1_engine_members_are_the_labelled_points
           (density_library [0; 0; -1]%Z [2%nat]) 0 three_reports no_options
           (mkDbscanAnswer [0; 0; -1]%Z [2%nat])).
  - reflexivity.
  - vm_compute. discriminate.
  - reflexivity.
  - reflexivity.
Defined.

(** C1 as stated fails.  The library labels the third report noise; the
    engine returns one cluster that holds the first two reports, so the
    third report is lost: it is in no cluster, and no singleton cluster
    stands for it. *)
Lemma C1_noise_point_is_lost :
  exists result,
    run (density_library [0; 0; -1]%Z [2%nat])
        (runClustering 0 three_reports no_options) = inr result /\
    map memberIndices (r_clusters result) = [[0; 1]]%nat /\
    r_noise result = Some [2%nat] /\
    ~ Permutation (concat (map memberIndices (r_clusters result)))
                  (seq 0 (length three_reports)).
Proof.
  eexists. split; [lazy -[calculateClusterRadius]; reflexivity |].
  split; [reflexivity |]. split; [reflexivity |].
  intros H. apply Permutation_length in H. discriminate H.
Qed.

End EngineCoverageFacts.

(** ** Route optimizer *)

Section RouteFacts.

Import Distance RouteOptimizer Notions.
Local Open Scope R_scope.

Lemma improve_not_longer (start : option Coordinate) (route : list Node)
      (pair : nat * nat) :
  total_distance start (improve start route pair) <= total_distance start route.
Proof.
  unfold improve. cbv zeta.
  destruct (Rlt_dec _ 0) as [Hlt | _]; Lra.lra.
Qed.

Lemma fold_improve_not_longer (start : option Coordinate) (pairs : list (nat * nat)) :
  forall route,
    total_distance start (fold_left (improve start) pairs route)
    <= total_distance start route.
Proof.
  induction pairs as [| pair pairs IH]; intros route; simpl.
  - apply Rle_refl.
  - eapply Rle_trans; [apply IH | apply improve_not_longer].
Qed.

Lemma two_opt_pass_not_longer (start : option Coordinate) (route : list Node) :
  total_distance start (two_opt_pass start route) <= total_distance start route.
Proof. unfold two_opt_pass. apply fold_improve_not_longer. Qed.

(** The construction visits every node exactly once. *)
Lemma nearest_index_spec (from : Coordinate) (l : list Node) (rest : list Node) :
  forall best best_index index,
    nth_error l best_index = Some best ->
    (forall k, nth_error rest k = nth_error l (index + k)) ->
    nth_error l (nearest_index from best best_index rest index) =
    Some (nearest from best rest).
Proof.
  induction rest as [| n rest IH]; intros best bi index Hbest Hrest; simpl.
  - exact Hbest.
  - assert (Hn : nth_error l index = Some n).
    { rewrite <- (Nat.add_0_r index). rewrite <- Hrest. reflexivity. }
    assert (Hshift : forall k, nth_error rest k = nth_error l (S index + k)).
    { intros k. replace (S index + k)%nat with (index + S k)%nat by lia.
      rewrite <- Hrest. reflexivity. }
    destruct (Rlt_dec _ _).
    + apply IH; assumption.
    + apply IH; assumption.
Qed.

Lemma remove_at_perm {X : Type} (l : list X) :
  forall i x, nth_error l i = Some x -> Permutation l (x :: remove_at i l).
Proof.
  induction l as [| y l IH]; intros [| i] x H; simpl in *; try discriminate.
  - injection H as ->. apply Permutation_refl.
  - eapply Permutation_trans; [apply perm_skip, (IH i x H) | apply perm_swap].
Qed.

Lemma visit_perm (fuel : nat) :
  forall current unvisited,
    length unvisited = fuel -> Permutation (visit fuel current unvisited) unvisited.
Proof.
  induction fuel as [| fuel IH]; intros current unvisited Hlen.
  - destruct unvisited; [apply Permutation_refl | discriminate].
  - destruct unvisited as [| first rest]; [discriminate |].
    cbn [visit]. cbv zeta.
    assert (Hnth : nth_error (first :: rest)
                             (nearest_index current first 0 rest 1) =
                   Some (nearest current first rest)).
    { apply nearest_index_spec; [reflexivity | intros k; reflexivity]. }
    pose proof (remove_at_perm _ _ _ Hnth) as Hperm.
    eapply Permutation_trans; [| apply Permutation_sym; exact Hperm].
    apply perm_skip. apply IH.
    apply Permutation_length in Hperm. simpl in Hperm, Hlen. lia.
Qed.

Lemma nearest_neighbor_perm (nodes : list Node) (start : option Coordinate) :
  Permutation (nearest_neighbor nodes start) nodes.
Proof.
  unfold nearest_neighbor. destruct start as [s |].
  - apply visit_perm. reflexivity.
  - destruct nodes as [| first rest]; [apply Permutation_refl |].
    apply perm_skip. apply visit_perm. reflexivity.
Qed.

(** A reversal between two edges rearranges the route. *)
Lemma reverse_segment_perm (route : list Node) (i j : nat) :
  (i <= j)%nat -> Permutation (reverse_segment route i j) route.
Proof.
  intros Hij. unfold reverse_segment.
  apply Permutation_trans with (firstn (i + 1) route ++ skipn (i + 1) route);
    [| rewrite firstn_skipn; apply Permutation_refl].
  apply Permutation_app_head.
  set (tail := skipn (i + 1) route).
  apply Permutation_trans with (firstn (j - i) tail ++ skipn (j - i) tail);
    [| rewrite firstn_skipn; apply Permutation_refl].
  assert (Hskip : skipn (j + 1) route = skipn (j - i) tail).
  { unfold tail. rewrite skipn_skipn. f_equal. lia. }
  rewrite Hskip.
  apply Permutation_app_tail. apply Permutation_sym. apply Permutation_rev.
Qed.

Lemma edge_pairs_ordered (n : nat) (pair : nat * nat) :
  In pair (edge_pairs n) -> (fst pair + 2 <= snd pair)%nat /\ (snd pair + 1 < n)%nat.
Proof.
  unfold edge_pairs. intros H. apply in_flat_map in H.
  destruct H as [i [Hi Hp]]. apply in_map_iff in Hp.
  destruct Hp as [j [<- Hj]]. apply in_seq in Hi. apply in_seq in Hj.
  simpl. lia.
Qed.

Lemma two_opt_pass_perm (start : option Coordinate) (route : list Node) :
  Permutation (two_opt_pass start route) route.
Proof.
  unfold two_opt_pass.
  generalize (edge_pairs_ordered (length route)).
  generalize (edge_pairs (length route)) as pairs.
  intros pairs. revert route.
  induction pairs as [| pair pairs IH]; intros route Hord; simpl.
  - apply Permutation_refl.
  - eapply Permutation_trans.
    + apply IH. intros p Hp.
      pose proof (Hord p (or_intror Hp)) as [H1 H2].
      split; [exact H1 |].
      assert (Hlen : length (improve start route pair) = length route).
      { unfold improve. cbv zeta. destruct (Rlt_dec _ 0); [| reflexivity].
        apply Permutation_length. apply reverse_segment_perm.
        pose proof (Hord pair (or_introl eq_refl)). lia. }
      rewrite Hlen. exact H2.
    + unfold improve. cbv zeta. destruct (Rlt_dec _ 0); [| apply Permutation_refl].
      apply reverse_segment_perm.
      pose proof (Hord pair (or_introl eq_refl)). lia.
Qed.

Lemma combine_projections {X Y : Type} (l : list X) :
  forall l' : list Y,
    length l = length l' ->
    map fst (combine l l') = l /\ map snd (combine l l') = l'.
Proof.
  induction l as [| x l IH]; intros [| y l'] H; simpl in *; try discriminate.
  - split; reflexivity.
  - destruct (IH l') as [H1 H2]; [lia |]. rewrite H1, H2. split; reflexivity.
Qed.

(** The optimized route visits the nodes of the input, each once, numbered
    from 0 in traversal order. *)
Lemma optimize_route_complete (nodes : list Node) (start : option Coordinate) :
  Permutation (map fst (route_nodes (optimize_route nodes start))) nodes /\
  map snd (route_nodes (optimize_route nodes start)) = seq 0 (length nodes).
Proof.
  unfold optimize_route. cbv zeta. cbn [route_nodes].
  set (route := if (4 <=? length (nearest_neighbor nodes start))%nat
                then two_opt_pass start (nearest_neighbor nodes start)
                else nearest_neighbor nodes start).
  assert (Hperm : Permutation route nodes).
  { unfold route. destruct (4 <=? _)%nat.
    - eapply Permutation_trans; [apply two_opt_pass_perm | apply nearest_neighbor_perm].
    - apply nearest_neighbor_perm. }
  unfold numbered.
  destruct (combine_projections route (seq 0 (length route))) as [H1 H2].
  { rewrite length_seq. reflexivity. }
  rewrite H1, H2. split; [exact Hperm |].
  rewrite (Permutation_length Hperm). reflexivity.
Qed.

(** The delta of a reversal is local: only the two edges at the ends of the
    reversed segment change, because the distance utility is symmetric. *)
Lemma distance_sym (a b : Coordinate) : distance a b = distance b a.
Proof. unfold distance. apply calculateDistance_sym. Qed.

Lemma path_length_app (l1 : list Node) (x : Node) (l2 : list Node) :
  path_length (l1 ++ x :: l2) = path_length (l1 ++ [x]) + path_length (x :: l2).
Proof.
  induction l1 as [| a l1 IH].
  - simpl. Lra.lra.
  - destruct l1 as [| b l1].
    + simpl. Lra.lra.
    + change (path_length ((a :: b :: l1) ++ x :: l2))
        with (distance (position a) (position b) + path_length ((b :: l1) ++ x :: l2)).
      change (path_length ((a :: b :: l1) ++ [x]))
        with (distance (position a) (position b) + path_length ((b :: l1) ++ [x])).
      rewrite IH. Lra.lra.
Qed.

Lemma path_length_rev (l : list Node) : path_length (rev l) = path_length l.
Proof.
  induction l as [| a l IH]; [reflexivity |].
  destruct l as [| b l]; [reflexivity |].
  change (rev (a :: b :: l)) with ((rev l ++ [b]) ++ [a]).
  rewrite <- app_assoc. cbn [app].
  rewrite path_length_app.
  change (rev l ++ [b]) with (rev (b :: l)). rewrite IH.
  change (path_length (a :: b :: l))
    with (distance (position a) (position b) + path_length (b :: l)).
  cbn [path_length]. rewrite (distance_sym (position b)). Lra.lra.
Qed.

Lemma reversal_delta_local (start : option Coordinate) (before : list Node)
      (a b : Node) (middle : list Node) (c d : Node) (after : list Node) :
  total_distance start (before ++ a :: rev (b :: middle ++ [c]) ++ d :: after)
  - total_distance start (before ++ a :: (b :: middle ++ [c]) ++ d :: after)
  = distance (position a) (position c) + distance (position b) (position d)
    - distance (position a) (position b) - distance (position c) (position d).
Proof.
  assert (Hpath :
    path_length (before ++ a :: rev (b :: middle ++ [c]) ++ d :: after)
    - path_length (before ++ a :: (b :: middle ++ [c]) ++ d :: after)
    = distance (position a) (position c) + distance (position b) (position d)
      - distance (position a) (position b) - distance (position c) (position d)).
  { rewrite (path_length_app before a (rev (b :: middle ++ [c]) ++ d :: after)).
    rewrite (path_length_app before a ((b :: middle ++ [c]) ++ d :: after)).
    assert (Hrev : rev (b :: middle ++ [c]) = c :: rev middle ++ [b]).
    { cbn [rev]. rewrite rev_app_distr. reflexivity. }
    pose proof (path_length_rev (b :: middle ++ [c])) as Hpl.
    rewrite Hrev in Hpl. rewrite Hrev.
    assert (H1 : path_length (a :: (c :: rev middle ++ [b]) ++ d :: after) =
                 distance (position a) (position c)
                 + (path_length (c :: rev middle ++ [b])
                    + (distance (position b) (position d) + path_length (d :: after)))).
    { change (a :: (c :: rev middle ++ [b]) ++ d :: after)
        with (a :: c :: ((rev middle ++ [b]) ++ d :: after)).
      change (path_length (a :: c :: ((rev middle ++ [b]) ++ d :: after)))
        with (distance (position a) (position c)
              + path_length (c :: (rev middle ++ [b]) ++ d :: after)).
      rewrite <- app_assoc.
      change (c :: rev middle ++ [b] ++ d :: after)
        with ((c :: rev middle) ++ b :: d :: after).
      rewrite (path_length_app (c :: rev middle) b (d :: after)).
      reflexivity. }
    assert (H2 : path_length (a :: (b :: middle ++ [c]) ++ d :: after) =
                 distance (position a) (position b)
                 + (path_length (b :: middle ++ [c])
                    + (distance (position c) (position d) + path_length (d :: after)))).
    { change (a :: (b :: middle ++ [c]) ++ d :: after)
        with (a :: b :: ((middle ++ [c]) ++ d :: after)).
      change (path_length (a :: b :: ((middle ++ [c]) ++ d :: after)))
        with (distance (position a) (position b)
              + path_length (b :: (middle ++ [c]) ++ d :: after)).
      rewrite <- app_assoc.
      change (b :: middle ++ [c] ++ d :: after)
        with ((b :: middle) ++ c :: d :: after).
      rewrite (path_length_app (b :: middle) c (d :: after)).
      reflexivity. }
    rewrite H1, H2, Hpl. Lra.lra. }
  unfold total_distance. destruct start as [s |]; [| exact Hpath].
  destruct before as [| first before]; cbn [app]; cbn [app] in Hpath; Lra.lra.
Qed.

Lemma firstn_prefix {X : Type} (l1 l2 : list X) : firstn (length l1) (l1 ++ l2) = l1.
Proof. induction l1 as [| x l1 IH]; simpl; [destruct l2 |]; congruence. Qed.

Lemma skipn_prefix {X : Type} (l1 l2 : list X) : skipn (length l1) (l1 ++ l2) = l2.
Proof. induction l1 as [| x l1 IH]; simpl; congruence. Qed.

Lemma reverse_segment_split (before : list Node) (a : Node) (segment : list Node)
      (after : list Node) :
  reverse_segment (before ++ a :: segment ++ after)
                  (length before) (length before + length segment)
  = before ++ a :: rev segment ++ after.
Proof.
  unfold reverse_segment.
  assert (Hroute : before ++ a :: segment ++ after =
                   (before ++ [a]) ++ segment ++ after).
  { rewrite <- app_assoc. reflexivity. }
  assert (Hlen : (length before + 1)%nat = length (before ++ [a])).
  { rewrite length_app. reflexivity. }
  assert (Hroute' : before ++ a :: segment ++ after =
                    ((before ++ [a]) ++ segment) ++ after).
  { rewrite <- !app_assoc. reflexivity. }
  assert (Hlen' : (length before + length segment + 1)%nat =
                  length ((before ++ [a]) ++ segment)).
  { rewrite !length_app. simpl. lia. }
  rewrite Hlen' at 1. rewrite Hroute' at 3. rewrite skipn_prefix.
  rewrite Hlen, Hroute. rewrite firstn_prefix, skipn_prefix.
  replace (length before + length segment - length before)%nat
    with (length segment) by lia.
  rewrite firstn_prefix. rewrite <- app_assoc. reflexivity.
Qed.

(** C9.  For every node list and optional start point the total distance of
    the optimized route, after the single 2-opt pass, is at most the total
    distance of the nearest-neighbour route for the same input. *)
Theorem C9_two_opt_never_worse (nodes : list Node) (start : option Coordinate) :
  total_distance_m (optimize_route nodes start)
  <= total_distance_m (nearest_neighbor_route nodes start).
Proof.
  unfold optimize_route, nearest_neighbor_route. cbv zeta.
  cbn [total_distance_m].
  destruct (4 <=? length (nearest_neighbor nodes start))%nat.
  - apply two_opt_pass_not_longer.
  - apply Rle_refl.
Qed.

End RouteFacts.

(* ================================================================== *)
(** * Further properties of the code *)

(** ** Distances and radii *)

Section RadiusFacts.

Import Distance Js ClusteringEngine Notions MoreNotions.
Local Open Scope R_scope.

Lemma atan2_quadrant (y x : R) : 0 <= y -> 0 <= x -> 0 <= atan2 y x <= PI / 2.
Proof.
  intros Hy Hx. unfold atan2. pose proof PI_RGT_0 as Hpi.
  destruct (Rlt_dec 0 x) as [Hpos | Hnpos].
  - assert (Hq : 0 <= y / x).
    { unfold Rdiv. apply Rmult_le_pos; [exact Hy |].
      left. apply Rinv_0_lt_compat. exact Hpos. }
    pose proof (atan_bound (y / x)) as [_ Hub].
    split; [| Lra.lra].
    destruct Hq as [Hq | <-]; [| rewrite atan_0; Lra.lra].
    pose proof (atan_increasing 0 (y / x) Hq) as Hinc.
    rewrite atan_0 in Hinc. Lra.lra.
  - destruct (Rlt_dec x 0) as [Hneg | _]; [Lra.lra |].
    destruct (Rlt_dec 0 y) as [_ | _]; [Lra.lra |].
    destruct (Rlt_dec y 0) as [Hyneg | _]; Lra.lra.
Qed.

Lemma calculateDistance_range (lat1 lon1 lat2 lon2 : R) :
  0 <= calculateDistance lat1 lon1 lat2 lon2 <= PI * 6371000.
Proof.
  unfold calculateDistance. cbv zeta.
  match goal with
  | |- context [atan2 (sqrt ?a) (sqrt ?b)] =>
      pose proof (atan2_quadrant (sqrt a) (sqrt b) (sqrt_pos a) (sqrt_pos b)) as [H0 H1]
  end.
  split; Lra.nra.
Qed.

(** X1.  Whatever the four arguments are, the distance utility returns a
    value between 0 and half the circumference of the Earth sphere,
    [PI * 6371000] metres, and it does not depend on the direction of
    travel. *)
Theorem X1_distance_range_and_symmetry (lat1 lon1 lat2 lon2 : R) :
  0 <= calculateDistance lat1 lon1 lat2 lon2 <= PI * 6371000 /\
  calculateDistance lat1 lon1 lat2 lon2 = calculateDistance lat2 lon2 lat1 lon1.
Proof.
  split; [apply calculateDistance_range | apply calculateDistance_sym].
Qed.

Lemma distance_from_nonneg (c p : Q * Q) : 0 <= distance_from c p.
Proof. unfold distance_from. apply calculateDistance_range. Qed.

Lemma fold_radius_lower (c : Q * Q) (points : list (Q * Q)) :
  forall start,
    start <= fold_left (fun maxDistance point => Rmax maxDistance (distance_from c point))
                       points start.
Proof.
  induction points as [| p points IH]; intros start; simpl.
  - apply Rle_refl.
  - eapply Rle_trans; [apply Rmax_l | apply IH].
Qed.

Lemma fold_radius_upper (c : Q * Q) (points : list (Q * Q)) :
  forall start p,
    In p points ->
    distance_from c p
    <= fold_left (fun maxDistance point => Rmax maxDistance (distance_from c point))
                 points start.
Proof.
  induction points as [| q points IH]; intros start p Hin; simpl.
  - destruct Hin.
  - destruct Hin as [-> | Hin].
    + eapply Rle_trans; [apply Rmax_r | apply fold_radius_lower].
    + apply IH. exact Hin.
Qed.

Lemma fold_radius_attained (c : Q * Q) (points : list (Q * Q)) :
  forall start,
    let r := fold_left (fun maxDistance point => Rmax maxDistance (distance_from c point))
                       points start in
    r = start \/ exists p, In p points /\ r = distance_from c p.
Proof.
  induction points as [| q points IH]; intros start; simpl.
  - left. reflexivity.
  - destruct (IH (Rmax start (distance_from c q))) as [H | [p [Hp H]]].
    + rewrite H. unfold Rmax. destruct (Rle_dec start (distance_from c q)).
      * right. exists q. split; [left; reflexivity | reflexivity].
      * left. reflexivity.
    + right. exists p. split; [right; exact Hp | exact H].
Qed.

Lemma calculateClusterRadius_fold (points : list (Q * Q)) (c : Q * Q) :
  calculateClusterRadius points c =
  fold_left (fun maxDistance point => Rmax maxDistance (distance_from c point)) points 0.
Proof.
  unfold calculateClusterRadius. destruct points; reflexivity.
Qed.

Lemma radius_attained (points : list (Q * Q)) (centroid : Q * Q) :
  points <> [] ->
  exists p, In p points /\
            calculateClusterRadius points centroid = distance_from centroid p.
Proof.
  intros Hne. rewrite calculateClusterRadius_fold.
  destruct (fold_radius_attained centroid points 0) as [H0 | H]; [| exact H].
  destruct points as [| q points]; [congruence |].
  exists q. split; [left; reflexivity |].
  apply Rle_antisym.
  - rewrite H0. apply distance_from_nonneg.
  - apply fold_radius_upper. left. reflexivity.
Qed.

(** X2.  With numbers idealised as reals, the radius of a cluster is the
    largest distance from the centroid to a member: it is not negative, no
    member lies farther from the centroid than the radius, and when there
    is a member, some member lies exactly that far.  (In binary64 a
    distance can be [NaN], see [Doubles.calculateDistance], and [Math.max]
    then makes the radius [NaN].) *)
Theorem X2_radius_is_the_largest_member_distance
        (points : list (Q * Q)) (centroid : Q * Q) :
  0 <= calculateClusterRadius points centroid /\
  (forall p, In p points ->
             distance_from centroid p <= calculateClusterRadius points centroid) /\
  (points <> [] ->
   exists p, In p points /\
             calculateClusterRadius points centroid = distance_from centroid p).
Proof.
  rewrite calculateClusterRadius_fold. split; [| split].
  - apply fold_radius_lower.
  - intros p Hp. apply fold_radius_upper. exact Hp.
  - intros Hne.
    destruct (fold_radius_attained centroid points 0) as [H0 | H]; [| exact H].
    destruct points as [| q points]; [congruence |].
    exists q. split; [left; reflexivity |].
    apply Rle_antisym.
    + rewrite H0. apply distance_from_nonneg.
    + apply fold_radius_upper. left. reflexivity.
Qed.

Lemma Qsum_constant (x : Q) (l : list Q) :
  Forall (fun y => y == x)%Q l -> (Qsum l == x * of_nat (length l))%Q.
Proof.
  induction 1 as [| y l Hy _ IH].
  - cbn [Qsum fold_right length]. change (of_nat 0) with 0%Q. ring.
  - cbn [Qsum fold_right length]. fold (Qsum l).
    rewrite of_nat_S, IH, Hy. ring.
Qed.

Lemma distance_from_same (c p : Q * Q) :
  (fst c == fst p)%Q -> (snd c == snd p)%Q -> distance_from c p = 0.
Proof.
  intros Hf Hs. unfold distance_from.
  rewrite (Qeq_eqR _ _ Hf), (Qeq_eqR _ _ Hs). apply calculateDistance_same.
Qed.

(** X3.  With numbers idealised as exact rationals and reals, points that
    all sit at one place form a degenerate cluster: the centroid is that
    place and the radius is 0.  (In binary64 the sums of the centroid round,
    see [centroid_of_equal_doubles]; the centroid then lies next to the
    place and the radius is a tiny positive number.) *)
Theorem X3_coincident_points_have_radius_0 (place : Q * Q) (points : list (Q * Q)) :
  points <> [] ->
  Forall (fun p => p = place) points ->
  (fst (calculateCentroid points) == fst place)%Q /\
  (snd (calculateCentroid points) == snd place)%Q /\
  calculateClusterRadius points (calculateCentroid points) = 0.
Proof.
  intros Hne Hall.
  assert (Hpos : (0 < of_nat (length points))%Q).
  { apply of_nat_pos. destruct points; [congruence | simpl; lia]. }
  destruct (calculateCentroid_mean points) as [Hlng Hlat].
  assert (Hf : (fst (calculateCentroid points) == fst place)%Q).
  { rewrite (Qsum_constant (fst place)) in Hlng.
    - rewrite length_map in Hlng.
      apply (Qmult_inj_r _ _ (of_nat (length points))); [Lqa.lra | exact Hlng].
    - apply Forall_map. eapply Forall_impl; [| exact Hall].
      intros p ->. reflexivity. }
  assert (Hs : (snd (calculateCentroid points) == snd place)%Q).
  { rewrite (Qsum_constant (snd place)) in Hlat.
    - rewrite length_map in Hlat.
      apply (Qmult_inj_r _ _ (of_nat (length points))); [Lqa.lra | exact Hlat].
    - apply Forall_map. eapply Forall_impl; [| exact Hall].
      intros p ->. reflexivity. }
  split; [exact Hf |]. split; [exact Hs |].
  destruct (radius_attained points (calculateCentroid points)) as [p [Hp ->]];
    [exact Hne |].
  apply distance_from_same.
  - rewrite (proj1 (Forall_forall _ _) Hall p Hp). exact Hf.
  - rewrite (proj1 (Forall_forall _ _) Hall p Hp). exact Hs.
Qed.

Lemma X3_coincident_witness :
  (fst (calculateCentroid [(3 # 1, 4 # 1); (3 # 1, 4 # 1)]) == 3)%Q /\
  (snd (calculateCentroid [(3 # 1, 4 # 1); (3 # 1, 4 # 1)]) == 4)%Q /\
  calculateClusterRadius [(3 # 1, 4 # 1); (3 # 1, 4 # 1)]
                         (calculateCentroid [(3 # 1, 4 # 1); (3 # 1, 4 # 1)]) = 0.
Proof.
  apply (X3_coincident_points_have_radius_0 (3 # 1, 4 # 1)%Q).
  - discriminate.
  - repeat constructor.
Defined.

End RadiusFacts.

(** ** Grouping by label, cluster by cluster *)

Section LabelFacts.

Import Js ClusteringEngine Notions MoreNotions.

Lemma Map_get_absent (m : ClusterMap) (k : Z) : Map_has m k = false -> Map_get m k = [].
Proof.
  induction m as [| [k' v] m IH]; simpl; [reflexivity |].
  destruct (Z.eqb k' k); [discriminate | exact IH].
Qed.

Lemma Map_has_keys (m : ClusterMap) (k : Z) : Map_has m k = true <-> In k (map fst m).
Proof.
  induction m as [| [k' v] m IH]; simpl.
  - split; [discriminate | tauto].
  - destruct (Z.eqb k' k) eqn:E.
    + apply Z.eqb_eq in E. split; auto.
    + apply Z.eqb_neq in E. rewrite IH. split; [auto | intros [H | H]; congruence].
Qed.

(** One step of the grouping loops, seen key by key. *)
Lemma step_keys (m : ClusterMap) (k : Z) (i : nat) :
  map fst (Map_push (if negb (Map_has m k) then Map_set m k [] else m) k i) =
  if Map_has m k then map fst m else map fst m ++ [k].
Proof.
  induction m as [| [k' v] m IH]; simpl.
  - rewrite Z.eqb_refl. reflexivity.
  - destruct (Z.eqb k' k) eqn:E; simpl.
    + rewrite E. reflexivity.
    + destruct (Map_has m k) eqn:Eh; simpl in *; rewrite E; simpl; rewrite IH;
        reflexivity.
Qed.

Lemma step_get (m : ClusterMap) (k k' : Z) (i : nat) :
  Map_get (Map_push (if negb (Map_has m k) then Map_set m k [] else m) k i) k' =
  if Z.eqb k k' then Map_get m k' ++ [i] else Map_get m k'.
Proof.
  induction m as [| [k0 v] m IH]; simpl.
  - rewrite Z.eqb_refl. simpl. destruct (Z.eqb k k'); reflexivity.
  - destruct (Z.eqb k0 k) eqn:E; simpl.
    + rewrite E. simpl. apply Z.eqb_eq in E. subst k0.
      destruct (Z.eqb k k'); reflexivity.
    + destruct (Map_has m k) eqn:Eh; simpl in *; rewrite E; simpl;
        destruct (Z.eqb k0 k') eqn:E'.
      * destruct (Z.eqb k k') eqn:E2; [| reflexivity].
        apply Z.eqb_eq in E', E2. apply Z.eqb_neq in E. congruence.
      * exact IH.
      * destruct (Z.eqb k k') eqn:E2; [| reflexivity].
        apply Z.eqb_eq in E', E2. apply Z.eqb_neq in E. congruence.
      * exact IH.
Qed.

Lemma indicesLabelled_bound (labels : list Z) (k : Z) :
  forall i j, In j (indicesLabelled labels i k) -> (i <= j < i + length labels)%nat.
Proof.
  induction labels as [| c rest IH]; intros i j; simpl; [tauto |].
  destruct (Z.eqb c k); simpl.
  - intros [<- | H]; [lia |]. apply IH in H. lia.
  - intros H. apply IH in H. lia.
Qed.

Lemma indicesLabelled_nonempty (labels : list Z) (k : Z) :
  forall i, In k labels <-> indicesLabelled labels i k <> [].
Proof.
  induction labels as [| c rest IH]; intros i; simpl.
  - split; [tauto | congruence].
  - destruct (Z.eqb c k) eqn:E.
    + apply Z.eqb_eq in E. split; [discriminate | auto].
    + apply Z.eqb_neq in E. rewrite <- (IH (S i)).
      split; [intros [H | H]; [congruence | exact H] | auto].
Qed.

(** The grouping loop of the density path, key by key: it adds to every key
    but [-1] the indices carrying that label, in ascending order, and a new
    key enters the map when its first index is met. *)
Lemma groupDBSCAN_get (labels : list Z) :
  forall i m k,
    k <> (-1)%Z ->
    Map_get (groupDBSCAN labels i m) k = Map_get m k ++ indicesLabelled labels i k.
Proof.
  induction labels as [| c rest IH]; intros i m k Hk; simpl.
  - rewrite app_nil_r. reflexivity.
  - destruct (Z.eqb c (-1)) eqn:Ec.
    + apply Z.eqb_eq in Ec. subst c.
      assert (E : Z.eqb (-1) k = false) by (apply Z.eqb_neq; congruence).
      rewrite E. apply IH. exact Hk.
    + rewrite IH by exact Hk. rewrite step_get.
      destruct (Z.eqb c k); [rewrite <- app_assoc |]; reflexivity.
Qed.

Lemma groupDBSCAN_keys (labels : list Z) :
  forall i m,
    NoDup (map fst m) -> ~ In (-1)%Z (map fst m) ->
    NoDup (map fst (groupDBSCAN labels i m)) /\
    ~ In (-1)%Z (map fst (groupDBSCAN labels i m)) /\
    (forall k, In k (map fst (groupDBSCAN labels i m)) <->
               In k (map fst m) \/ (In k labels /\ k <> (-1)%Z)).
Proof.
  induction labels as [| c rest IH]; intros i m Hnd Hno; simpl.
  - split; [exact Hnd |]. split; [exact Hno |]. intros k. tauto.
  - destruct (Z.eqb c (-1)) eqn:Ec.
    + apply Z.eqb_eq in Ec. subst c.
      destruct (IH (S i) m Hnd Hno) as [H1 [H2 H3]].
      split; [exact H1 |]. split; [exact H2 |].
      intros k. rewrite H3. split.
      * intros [H | [H Hk]]; [left; exact H | right; split; [right; exact H | exact Hk]].
      * intros [H | [[H | H] Hk]]; [left; exact H | congruence | right; split; assumption].
    + apply Z.eqb_neq in Ec.
      set (m1 := Map_push (if negb (Map_has m c) then Map_set m c [] else m) c i).
      assert (Hkeys : map fst m1 = if Map_has m c then map fst m else map fst m ++ [c])
        by apply step_keys.
      assert (Hin1 : forall k, In k (map fst m1) <-> In k (map fst m) \/ k = c).
      { intros k. rewrite Hkeys. destruct (Map_has m c) eqn:Eh.
        - apply Map_has_keys in Eh. split; [auto | intros [H | ->]; assumption].
        - rewrite in_app_iff. simpl. split; [intros [H | [H | []]]; auto |
                                          intros [H | H]; auto]. }
      assert (Hnd1 : NoDup (map fst m1)).
      { rewrite Hkeys. destruct (Map_has m c) eqn:Eh; [exact Hnd |].
        apply NoDup_app; [exact Hnd | constructor; [tauto | constructor] |].
        intros k Hk [<- | []]. apply Map_has_keys in Hk. congruence. }
      assert (Hno1 : ~ In (-1)%Z (map fst m1)).
      { rewrite Hin1. intros [H | H]; [tauto | congruence]. }
      destruct (IH (S i) m1 Hnd1 Hno1) as [H1 [H2 H3]].
      split; [exact H1 |]. split; [exact H2 |].
      intros k. rewrite H3, Hin1. split.
      * intros [[H | ->] | [H Hk]]; [left; exact H | right; split; [left; reflexivity | exact Ec] |
                                      right; split; [right; exact H | exact Hk]].
      * intros [H | [[<- | H] Hk]]; [left; left; exact H | left; right; reflexivity |
                                      right; split; assumption].
Qed.

Lemma Map_get_entry (m : ClusterMap) (k : Z) (v : list nat) :
  NoDup (map fst m) -> In (k, v) m -> Map_get m k = v.
Proof.
  induction m as [| [k' w] m IH]; simpl; intros Hnd Hin; [destruct Hin |].
  inversion Hnd as [| x l Hnotin Hnd']; subst.
  destruct Hin as [H | H].
  - injection H as -> ->. rewrite Z.eqb_refl. reflexivity.
  - destruct (Z.eqb k' k) eqn:E.
    + apply Z.eqb_eq in E. subst k'. exfalso. apply Hnotin.
      apply (in_map fst) in H. exact H.
    + apply IH; assumption.
Qed.

End LabelFacts.

Section ClusterByLabelFacts.

Import Js ClusteringEngine Notions MoreNotions.

Lemma entries_of_clusters (cs : list Cluster) (m : ClusterMap) :
  map id cs = map fst m -> map memberIndices cs = map snd m ->
  map (fun c => (id c, memberIndices c)) cs = m.
Proof.
  revert m. induction cs as [| c cs IH]; intros [| [k v] m] Hid Hidx;
    try discriminate; [reflexivity |].
  simpl in *. injection Hid as Hk Hid. injection Hidx as Hv Hidx.
  rewrite Hk, Hv, (IH m Hid Hidx). reflexivity.
Qed.

(** X4.  On the density path the clusters are the labels other than [-1]:
    there is exactly one cluster per such label, its id is the label, and
    its members are the points that carry the label, in ascending order of
    index; no cluster is empty. *)
Theorem X4_dbscan_one_cluster_per_label
        (labels : list Z) (coords : list (Q * Q)) (hotspots : list Hotspot)
        (noise : list nat) :
  length coords = length labels ->
  exists cs,
    processDBSCANResults labels coords hotspots noise = Ret cs /\
    NoDup (map id cs) /\
    (forall k, In k (map id cs) <-> In k labels /\ k <> (-1)%Z) /\
    Forall (fun c => memberIndices c = indicesLabelled labels 0 (id c) /\
                     memberIndices c <> [] /\
                     size c = length (memberIndices c)) cs.
Proof.
  intros Hlen. unfold processDBSCANResults.
  set (m := groupDBSCAN labels 0 []).
  destruct (groupDBSCAN_keys labels 0 [] (NoDup_nil _) (fun H => H))
    as [Hnd [Hno Hkeys]].
  fold m in Hnd, Hno, Hkeys.
  destruct (clustersOfMap_Ret "dbscan" coords hotspots m) as [cs [Hcs [Hidx [Hid Hall]]]].
  { intros i Hi.
    apply (Permutation_in _ (groupDBSCAN_members labels 0 [])) in Hi.
    simpl in Hi. apply kept_bound in Hi. lia. }
  exists cs. split; [exact Hcs |]. rewrite Hid.
  split; [exact Hnd |]. split.
  - intros k. rewrite Hkeys. simpl. tauto.
  - apply Forall_forall. intros c Hc.
    assert (Hentry : In (id c, memberIndices c) m).
    { rewrite <- (entries_of_clusters cs m Hid Hidx).
      apply (in_map (fun c => (id c, memberIndices c))). exact Hc. }
    assert (Hkey : In (id c) (map fst m)).
    { apply (in_map fst) in Hentry. exact Hentry. }
    assert (Hne : id c <> (-1)%Z) by (intros E; rewrite E in Hkey; tauto).
    pose proof (Map_get_entry m _ _ Hnd Hentry) as Hget.
    unfold m in Hget. rewrite (groupDBSCAN_get labels 0 [] (id c) Hne) in Hget.
    simpl in Hget. split; [symmetry; exact Hget |]. split.
    + rewrite <- Hget. apply indicesLabelled_nonempty.
      apply Hkeys in Hkey. simpl in Hkey. tauto.
    + apply (proj1 (Forall_forall _ _) Hall c Hc).
Qed.

Lemma X4_dbscan_witness :
  exists cs,
    processDBSCANResults [0; 0; -1]%Z (prepareCoordinates three_reports)
                         three_reports [2%nat] = Ret cs /\
    NoDup (map id cs) /\
    (forall k, In k (map id cs) <-> In k [0; 0; -1]%Z /\ k <> (-1)%Z) /\
    Forall (fun c => memberIndices c = indicesLabelled [0; 0; -1]%Z 0 (id c) /\
                     memberIndices c <> [] /\
                     size c = length (memberIndices c)) cs.
Proof.
  apply (X4_dbscan_one_cluster_per_label
           [0; 0; -1]%Z (prepareCoordinates three_reports) three_reports [2%nat]).
  reflexivity.
Defined.

(** The indices of several labels together. *)
Lemma concat_labelled_step (c : Z) (i : nat) (g : Z -> list nat) (ids : list Z) :
  NoDup ids ->
  Permutation
    (concat (map (fun k => if Z.eqb c k then i :: g k else g k) ids))
    ((if existsb (Z.eqb c) ids then [i] else []) ++ concat (map g ids)).
Proof.
  induction 1 as [| a ids Hnotin _ IH]; simpl.
  - apply Permutation_refl.
  - destruct (Z.eqb c a) eqn:E.
    + apply Z.eqb_eq in E. subst a.
      assert (Hex : existsb (Z.eqb c) ids = false).
      { destruct (existsb (Z.eqb c) ids) eqn:Ex; [| reflexivity].
        apply existsb_exists in Ex. destruct Ex as [x [Hx Ex]].
        apply Z.eqb_eq in Ex. subst x. contradiction. }
      rewrite Hex in IH. simpl in IH. simpl.
      apply perm_skip. apply Permutation_app_head. exact IH.
    + simpl. eapply Permutation_trans; [apply Permutation_app_head; exact IH |].
      rewrite !app_assoc. apply Permutation_app_tail. apply Permutation_app_comm.
Qed.

Lemma concat_labelled (ids : list Z) (labels : list Z) :
  NoDup ids ->
  forall i,
    Permutation (concat (map (indicesLabelled labels i) ids)) (labelled_in ids labels i).
Proof.
  intros Hnd. induction labels as [| c rest IH]; intros i.
  - simpl. clear Hnd. induction ids as [| a ids IHids]; simpl;
      [apply Permutation_refl | exact IHids].
  - cbn [labelled_in].
    eapply Permutation_trans.
    + apply (concat_labelled_step c i (indicesLabelled rest (S i)) ids Hnd).
    + destruct (existsb (Z.eqb c) ids); simpl; [apply perm_skip |]; apply IH.
Qed.

Lemma labelled_in_bound (ids labels : list Z) :
  forall i j, In j (labelled_in ids labels i) -> (i <= j < i + length labels)%nat.
Proof.
  induction labels as [| c rest IH]; intros i j; simpl; [tauto |].
  destruct (existsb (Z.eqb c) ids); simpl.
  - intros [<- | H]; [lia |]. apply IH in H. lia.
  - intros H. apply IH in H. lia.
Qed.

Lemma labelled_in_NoDup (ids labels : list Z) : forall i, NoDup (labelled_in ids labels i).
Proof.
  induction labels as [| c rest IH]; intros i; simpl; [constructor |].
  destruct (existsb (Z.eqb c) ids); [| apply IH].
  constructor; [| apply IH].
  intros H. apply labelled_in_bound in H. lia.
Qed.

Lemma labelled_in_all (ids labels : list Z) :
  Forall (fun c => In c ids) labels ->
  forall i, labelled_in ids labels i = seq i (length labels).
Proof.
  induction 1 as [| c rest Hc _ IH]; intros i; simpl; [reflexivity |].
  assert (Hex : existsb (Z.eqb c) ids = true).
  { apply existsb_exists. exists c. split; [exact Hc | apply Z.eqb_refl]. }
  rewrite Hex, IH. reflexivity.
Qed.

End ClusterByLabelFacts.

Section KMeansFacts.

Import Js ClusteringEngine Notions MoreNotions.

Lemma kmeansClusters_Ret (labels : list Z) (coords : list (Q * Q))
      (hotspots : list Hotspot) (centroids : list (Q * Q)) :
  (length labels <= length coords)%nat ->
  forall first,
  exists cs,
    kmeansClusters labels coords hotspots centroids first = Ret cs /\
    concat (map memberIndices cs) =
      concat (map (fun j => indicesLabelled labels 0 (Z.of_nat j))
                  (seq first (length centroids))) /\
    Forall (kmeans_cluster_ok labels hotspots centroids first) cs.
Proof.
  intros Hlen. induction centroids as [| cen rest IH]; intros first.
  - exists []. split; [reflexivity |]. split; [reflexivity | constructor].
  - destruct (IH (S first)) as [cs [Hcs [Hcat Hall]]].
    assert (Hshift : Forall (kmeans_cluster_ok labels hotspots (cen :: rest) first) cs).
    { eapply Forall_impl; [| exact Hall].
      intros c [Hid [Hcen Hrest]]. split; [| split; [| exact Hrest]].
      - cbn [length]. lia.
      - replace (Z.to_nat (id c) - first)%nat
          with (S (Z.to_nat (id c) - S first)) by lia.
        exact Hcen. }
    cbn [kmeansClusters]. cbv zeta.
    destruct (indicesLabelled labels 0 (Z.of_nat first)) as [| i idx] eqn:Eidx.
    + cbn [length Nat.eqb]. exists cs. split; [exact Hcs |]. split; [| exact Hshift].
      cbn [length seq map concat]. rewrite Eidx. exact Hcat.
    + cbn [length Nat.eqb].
      destruct (lookup_all_Ret coords (i :: idx)) as [pts [Hpts _]].
      { intros j Hj. rewrite <- Eidx in Hj.
        apply indicesLabelled_bound in Hj. lia. }
      rewrite Hpts. cbn [bind]. rewrite Hcs. cbn [bind].
      eexists. split; [reflexivity |]. split.
      * cbn [map concat memberIndices length seq]. rewrite Eidx, Hcat. reflexivity.
      * constructor; [| exact Hshift].
        unfold kmeans_cluster_ok.
        cbn [id centroid memberIndices size memberHotspots length].
        rewrite Nat2Z.id, Nat.sub_diag, Eidx.
        repeat split; try lia; try discriminate.
        cbn [nth_error]. destruct cen. reflexivity.
Qed.

Lemma kmeans_ids_increasing (labels : list Z) (hotspots : list Hotspot)
      (coords : list (Q * Q)) (centroids : list (Q * Q)) :
  forall first cs,
    kmeansClusters labels coords hotspots centroids first = Ret cs ->
    Forall (fun c => (Z.of_nat first <= id c)%Z) cs /\
    StronglySorted Z.lt (map id cs).
Proof.
  induction centroids as [| cen rest IH]; intros first cs H.
  - simpl in H. injection H as <-. split; constructor.
  - cbn [kmeansClusters] in H. cbv zeta in H.
    destruct (Nat.eqb (length (indicesLabelled labels 0 (Z.of_nat first))) 0).
    + destruct (IH (S first) cs H) as [Hlow Hs]. split; [| exact Hs].
      eapply Forall_impl; [| exact Hlow]. simpl. intros c Hc. lia.
    + destruct (lookup_all coords (indicesLabelled labels 0 (Z.of_nat first)));
        try discriminate.
      cbn [bind] in H.
      destruct (kmeansClusters labels coords hotspots rest (S first)) as [cs' | |] eqn:E;
        try discriminate.
      cbn [bind] in H. injection H as <-.
      destruct (IH (S first) cs' E) as [Hlow Hs]. split.
      * constructor; [cbn; lia |].
        eapply Forall_impl; [| exact Hlow]. simpl. intros c Hc. lia.
      * cbn [map id]. constructor; [exact Hs |].
        apply Forall_map. eapply Forall_impl; [| exact Hlow].
        simpl. intros c Hc. lia.
Qed.

Lemma seq_of_nat_NoDup (first n : nat) : NoDup (map Z.of_nat (seq first n)).
Proof.
  pose proof (seq_NoDup n first) as H.
  induction H as [| a l Hnotin _ IH]; simpl; constructor; [| exact IH].
  intros Hin. apply in_map_iff in Hin. destruct Hin as [b [Hb Hin]].
  apply Nat2Z.inj in Hb. subst b. contradiction.
Qed.

(** X5.  When the centroid library labels no more points than it was given,
    [processKMeansResults] returns one cluster for each centroid that has
    members and none for a centroid without members: ids ascend, the
    cluster of centroid [j] holds exactly the points labelled [j] at that
    centroid, and no point is in two clusters.  When moreover every label
    names a centroid, every point is in exactly one cluster. *)
Theorem X5_kmeans_clusters_by_centroid
        (answer : KMeansAnswer) (coords : list (Q * Q)) (hotspots : list Hotspot) :
  (length (km_clusters answer) <= length coords)%nat ->
  let labels := km_clusters answer in
  let centroids := km_centroids answer in
  exists cs,
    processKMeansResults answer coords hotspots = Ret cs /\
    StronglySorted Z.lt (map id cs) /\
    Forall (kmeans_cluster_ok labels hotspots centroids 0) cs /\
    NoDup (concat (map memberIndices cs)) /\
    (Forall (fun l => (0 <= l < Z.of_nat (length centroids))%Z) labels ->
     Permutation (concat (map memberIndices cs)) (seq 0 (length labels))).
Proof.
  intros Hlen labels centroids. unfold processKMeansResults.
  fold labels centroids.
  destruct (kmeansClusters_Ret labels coords hotspots centroids Hlen 0)
    as [cs [Hcs [Hcat Hall]]].
  assert (Hperm : Permutation (concat (map memberIndices cs))
                    (labelled_in (map Z.of_nat (seq 0 (length centroids))) labels 0)).
  { rewrite Hcat. rewrite <- (map_map Z.of_nat (indicesLabelled labels 0)).
    apply concat_labelled. apply seq_of_nat_NoDup. }
  exists cs. split; [exact Hcs |]. split.
  { apply (kmeans_ids_increasing labels hotspots coords centroids 0 cs Hcs). }
  split; [exact Hall |]. split.
  - apply (Permutation_NoDup (Permutation_sym Hperm)). apply labelled_in_NoDup.
  - intros Hrange. rewrite <- (labelled_in_all (map Z.of_nat (seq 0 (length centroids)))).
    + exact Hperm.
    + eapply Forall_impl; [| exact Hrange]. simpl. intros l Hl.
      apply in_map_iff. exists (Z.to_nat l). split; [lia |].
      apply in_seq. lia.
Qed.

Lemma X5_kmeans_witness :
  exists cs,
    processKMeansResults (mkKMeansAnswer [1; 0; 1]%Z [(0, 0); (50, 50)]%Q true)
                         (prepareCoordinates three_reports) three_reports = Ret cs /\
    Permutation (concat (map memberIndices cs)) (seq 0 3).
Proof.
  destruct (X5_kmeans_clusters_by_centroid
              (mkKMeansAnswer [1; 0; 1]%Z [(0, 0); (50, 50)]%Q true)
              (prepareCoordinates three_reports) three_reports)
    as [cs [Hcs [_ [_ [_ Hcover]]]]].
  - simpl. lia.
  - exists cs. split; [exact Hcs |]. apply Hcover.
    repeat constructor; simpl; lia.
Defined.

End KMeansFacts.

(** ** What every result of the engine satisfies *)

Section ResultFacts.

Import Js ClusteringEngine Notions MoreNotions.

Lemma calls_library_bind {A B : Type} (p : Prog A) (f : A -> Prog B) :
  calls_library p = false -> (forall a, calls_library (f a) = false) ->
  calls_library (bind p f) = false.
Proof.
  destruct p as [a | e | T c k]; simpl; intros Hp Hf;
    [apply Hf | reflexivity | discriminate].
Qed.

Lemma run_without_library {A : Type} (lib : Library) (p : Prog A) (a : A) :
  calls_library p = false -> run lib p = inr a -> p = Ret a.
Proof.
  destruct p as [a' | e | T c k]; simpl; intros Hp H; try discriminate.
  injection H as ->. reflexivity.
Qed.

Lemma lookup_all_quiet {A : Type} (a : list A) (idx : list nat) :
  calls_library (lookup_all a idx) = false.
Proof.
  induction idx as [| i idx IH]; simpl; [reflexivity |].
  destruct (nth_error a i); [| reflexivity].
  apply calls_library_bind; [exact IH | reflexivity].
Qed.

Lemma all_defined_quiet {A : Type} (l : list (option A)) :
  calls_library (all_defined l) = false.
Proof.
  induction l as [| [x |] l IH]; simpl; try reflexivity.
  apply calls_library_bind; [exact IH | reflexivity].
Qed.

Lemma clustersOfMap_quiet (alg : string) (coords : list (Q * Q))
      (hotspots : list Hotspot) (m : ClusterMap) :
  calls_library (clustersOfMap alg coords hotspots m) = false.
Proof.
  induction m as [| [k idx] m IH]; simpl; [reflexivity |].
  apply calls_library_bind; [apply lookup_all_quiet |].
  intros pts. apply calls_library_bind; [exact IH | reflexivity].
Qed.

Lemma kmeansClusters_quiet (labels : list Z) (coords : list (Q * Q))
      (hotspots : list Hotspot) (centroids : list (Q * Q)) :
  forall first, calls_library (kmeansClusters labels coords hotspots centroids first) = false.
Proof.
  induction centroids as [| cen rest IH]; intros first; simpl; [reflexivity |].
  destruct (Nat.eqb _ 0); [apply IH |].
  apply calls_library_bind; [apply lookup_all_quiet |].
  intros pts. apply calls_library_bind; [apply IH | reflexivity].
Qed.

Lemma annotate_quiet (now : Z) (alg : string) (params : Parameters) (cs : list Cluster) :
  forall index, calls_library (annotate now alg params cs index) = false.
Proof.
  induction cs as [| c cs IH]; intros index; simpl; [reflexivity |].
  apply calls_library_bind; [apply all_defined_quiet |].
  intros ms. apply calls_library_bind; [apply IH | reflexivity].
Qed.

Lemma lookup_all_inv {A : Type} (a : list A) (idx : list nat) (xs : list A) :
  lookup_all a idx = Ret xs -> forall i, In i idx -> (i < length a)%nat.
Proof.
  revert xs. induction idx as [| j idx IH]; intros xs H i Hi; [destruct Hi |].
  simpl in H. destruct (nth_error a j) as [x |] eqn:Hx; [| discriminate].
  destruct (lookup_all a idx) as [xs' | |] eqn:E; try discriminate.
  destruct Hi as [<- | Hi].
  - apply nth_error_Some. congruence.
  - apply (IH xs' eq_refl). exact Hi.
Qed.

Lemma all_defined_inv {A : Type} (l : list (option A)) (xs : list A) :
  all_defined l = Ret xs -> l = map Some xs.
Proof.
  revert xs. induction l as [| [x |] l IH]; intros xs H; simpl in H.
  - injection H as <-. reflexivity.
  - destruct (all_defined l) as [xs' | |] eqn:E; try discriminate.
    simpl in H. injection H as <-. simpl. rewrite (IH xs' eq_refl). reflexivity.
  - discriminate.
Qed.

Lemma clustersOfMap_inv (alg : string) (coords : list (Q * Q))
      (hotspots : list Hotspot) (m : ClusterMap) (cs : list Cluster) :
  clustersOfMap alg coords hotspots m = Ret cs ->
  map memberIndices cs = map snd m /\
  Forall (fun c => size c = length (memberIndices c) /\
                   memberHotspots c = map (nth_error hotspots) (memberIndices c)) cs.
Proof.
  intros H.
  assert (Hrange : forall i, In i (members m) -> (i < length coords)%nat).
  { revert cs H. unfold members.
    induction m as [| [k idx] m IH]; intros cs H i Hi; [destruct Hi |].
    simpl in H, Hi.
    destruct (lookup_all coords idx) as [pts | |] eqn:Epts; try discriminate.
    cbn [bind] in H.
    destruct (clustersOfMap alg coords hotspots m) as [cs' | |] eqn:Ecs;
      try discriminate.
    apply in_app_or in Hi. destruct Hi as [Hi | Hi].
    - apply (lookup_all_inv coords idx pts Epts). exact Hi.
    - apply (IH cs' eq_refl). exact Hi. }
  destruct (clustersOfMap_Ret alg coords hotspots m Hrange) as [cs' [Hcs' [Hidx [_ Hall]]]].
  rewrite H in Hcs'. injection Hcs' as <-.
  split; [exact Hidx |].
  eapply Forall_impl; [| exact Hall]. intros c [H1 [H2 _]]. split; assumption.
Qed.

Lemma kmeansClusters_inv (labels : list Z) (coords : list (Q * Q))
      (hotspots : list Hotspot) (centroids : list (Q * Q)) :
  forall first cs,
    kmeansClusters labels coords hotspots centroids first = Ret cs ->
    concat (map memberIndices cs) =
      concat (map (fun j => indicesLabelled labels 0 (Z.of_nat j))
                  (seq first (length centroids))) /\
    Forall (fun c => memberIndices c <> [] /\
                     size c = length (memberIndices c) /\
                     memberHotspots c = map (nth_error hotspots) (memberIndices c)) cs.
Proof.
  induction centroids as [| cen rest IH]; intros first cs H.
  - simpl in H. injection H as <-. split; [reflexivity | constructor].
  - cbn [kmeansClusters] in H. cbv zeta in H.
    destruct (indicesLabelled labels 0 (Z.of_nat first)) as [| i idx] eqn:Eidx.
    + cbn [length Nat.eqb] in H. destruct (IH (S first) cs H) as [Hcat Hall].
      split; [| exact Hall].
      cbn [length seq map concat]. rewrite Eidx. exact Hcat.
    + cbn [length Nat.eqb] in H.
      destruct (lookup_all coords (i :: idx)) as [pts | |]; try discriminate.
      cbn [bind] in H.
      destruct (kmeansClusters labels coords hotspots rest (S first)) as [cs' | |] eqn:E;
        try discriminate.
      cbn [bind] in H. injection H as <-.
      destruct (IH (S first) cs' E) as [Hcat Hall]. split.
      * cbn [map concat memberIndices length seq]. rewrite Eidx, Hcat. reflexivity.
      * constructor; [| exact Hall].
        cbn [memberIndices size memberHotspots length].
        repeat split. discriminate.
Qed.

Lemma annotate_inv (now : Z) (alg : string) (params : Parameters) (cs : list Cluster) :
  forall index cs',
    annotate now alg params cs index = Ret cs' ->
    map bare cs' = map bare cs /\ Forall members_defined cs.
Proof.
  induction cs as [| c cs IH]; intros index cs' H.
  - simpl in H. injection H as <-. split; [reflexivity | constructor].
  - cbn [annotate] in H.
    destruct (all_defined (memberHotspots c)) as [ms | |] eqn:Ems; try discriminate.
    cbn [bind] in H.
    destruct (annotate now alg params cs (S index)) as [rest | |] eqn:E;
      try discriminate.
    cbn [bind] in H. injection H as <-.
    destruct (IH (S index) rest E) as [Hbare Hdef]. split.
    + cbn [map]. rewrite Hbare. reflexivity.
    + constructor; [| exact Hdef]. exists ms. apply all_defined_inv. exact Ems.
Qed.

End ResultFacts.

(** ** The statistics that post-processing attaches *)

Section AttachedStatisticsFacts.

Import Js ClusteringEngine Notions Samples.
Local Open Scope Q_scope.

Lemma annotate_statistics (now : Z) (alg : string) (params : Parameters)
      (cs : list Cluster) :
  forall index cs',
    annotate now alg params cs index = Ret cs' ->
    Forall (fun c' => exists ms,
                memberHotspots c' = map Some ms /\
                statistics c' = Some (calculateClusterStatistics now ms)) cs'.
Proof.
  induction cs as [| c cs IH]; intros index cs' H.
  - simpl in H. injection H as <-. constructor.
  - cbn [annotate] in H.
    destruct (all_defined (memberHotspots c)) as [ms | |] eqn:Ems; try discriminate.
    cbn [bind] in H.
    destruct (annotate now alg params cs (S index)) as [rest | |] eqn:E;
      try discriminate.
    cbn [bind] in H. injection H as <-.
    constructor; [| apply (IH (S index) rest E)].
    exists ms. cbn [memberHotspots statistics].
    split; [apply all_defined_inv; exact Ems | reflexivity].
Qed.

(** C2, as the code has it.  Post-processing attaches to every cluster the
    statistics of its members, and the severity in them, [averageSeverity],
    is the plain mean of the members' severities: the sum of the severities
    divided by the member count, every member counting once.  It is not
    weighted, not rounded to an integer and not clamped. *)
Theorem C2_average_severity_is_the_plain_mean
        (now : Z) (result : ClusteringResult) (hotspots : list Hotspot)
        (alg : string) (params : Parameters) :
  Forall members_defined (r_clusters result) ->
  exists result',
    postProcessClusters now result hotspots alg params = Ret result' /\
    Forall (fun c =>
              exists members st,
                memberHotspots c = map Some members /\
                statistics c = Some st /\
                (members <> [] ->
                 averageSeverity st * of_nat (length members)
                 == Qsum (map severity_of members)))
           (r_clusters result').
Proof.
  intros Hdef.
  destruct (postProcessClusters_Ret now result hotspots alg params Hdef)
    as [result' [Hres _]].
  exists result'. split; [exact Hres |].
  unfold postProcessClusters in Hres. cbv zeta in Hres.
  destruct (annotate now alg params (sort bySizeDescending (r_clusters result)) 0)
    as [cs' | |] eqn:E; cbn [bind] in Hres; try discriminate.
  injection Hres as <-. cbn [r_clusters].
  apply annotate_statistics in E.
  eapply Forall_impl; [| exact E].
  intros c (ms & Hms & Hst).
  exists ms, (calculateClusterStatistics now ms).
  split; [exact Hms |]. split; [exact Hst |].
  intros Hne. destruct ms as [| h hs]; [congruence |].
  unfold calculateClusterStatistics. cbn [averageSeverity].
  set (sevs := map severity_of (h :: hs)).
  assert (Hlen : length (h :: hs) = length sevs)
    by (unfold sevs; rewrite length_map; reflexivity).
  rewrite Hlen. apply mean_times_length. unfold sevs. simpl. congruence.
Qed.

Lemma C2_average_witness :
  exists result',
    postProcessClusters 0 one_and_two_pairs five_reports "dbscan" no_parameters
    = Ret result' /\
    Forall (fun c =>
              exists members st,
                memberHotspots c = map Some members /\
                statistics c = Some st /\
                (members <> [] ->
                 averageSeverity st * of_nat (length members)
                 == Qsum (map severity_of members)))
           (r_clusters result').
Proof.
  apply (C2_average_severity_is_the_plain_mean
           0 one_and_two_pairs five_reports "dbscan" no_parameters).
  repeat constructor; eexists; reflexivity.
Defined.

End AttachedStatisticsFacts.

Section EngineInvariant.

Import Js ClusteringEngine Notions MoreNotions.

Lemma step_nonempty (m : ClusterMap) (k : Z) (i : nat) :
  Forall (fun e => snd e <> []) m ->
  Forall (fun e => snd e <> [])
         (Map_push (if negb (Map_has m k) then Map_set m k [] else m) k i).
Proof.
  induction 1 as [| [k' v] m Hv Hm IH].
  - simpl. rewrite Z.eqb_refl. constructor; [simpl; discriminate | constructor].
  - cbn [Map_has]. destruct (Z.eqb k' k) eqn:E.
    + cbn [negb Map_push]. rewrite E. constructor; [| exact Hm].
      simpl. intros H'. apply app_eq_nil in H'. destruct H' as [_ H']. discriminate.
    + destruct (Map_has m k) eqn:Eh; cbn [negb] in *.
      * cbn [Map_push]. rewrite E. constructor; [exact Hv | exact IH].
      * cbn [Map_set]. rewrite E. cbn [Map_push]. rewrite E.
        constructor; [exact Hv | exact IH].
Qed.

Lemma groupDBSCAN_nonempty (labels : list Z) :
  forall i m, Forall (fun e => snd e <> []) m ->
              Forall (fun e => snd e <> []) (groupDBSCAN labels i m).
Proof.
  induction labels as [| c rest IH]; intros i m Hm; simpl; [exact Hm |].
  destruct (Z.eqb c (-1)); [apply IH; exact Hm |].
  apply IH. apply step_nonempty. exact Hm.
Qed.

Lemma groupHierarchical_nonempty (labels : list Z) :
  forall i m, Forall (fun e => snd e <> []) m ->
              Forall (fun e => snd e <> []) (groupHierarchical labels i m).
Proof.
  induction labels as [| c rest IH]; intros i m Hm; simpl; [exact Hm |].
  apply IH. apply step_nonempty. exact Hm.
Qed.

Lemma kept_lower (labels : list Z) : forall i j, In j (kept labels i) -> (i <= j)%nat.
Proof.
  induction labels as [| c rest IH]; intros i j; simpl; [tauto |].
  destruct (Z.eqb c (-1)); simpl.
  - intros H. apply IH in H. lia.
  - intros [<- | H]; [lia |]. apply IH in H. lia.
Qed.

Lemma kept_NoDup (labels : list Z) : forall i, NoDup (kept labels i).
Proof.
  induction labels as [| c rest IH]; intros i; simpl; [constructor |].
  destruct (Z.eqb c (-1)); [apply IH |].
  constructor; [| apply IH]. intros H. apply kept_lower in H. lia.
Qed.

(** What the clusters of an algorithm satisfy before post-processing. *)
Lemma clusters_of_map_ok (alg : string) (coords : list (Q * Q))
      (hotspots : list Hotspot) (m : ClusterMap) (cs : list Cluster) :
  clustersOfMap alg coords hotspots m = Ret cs ->
  Forall (fun e => snd e <> []) m ->
  NoDup (members m) ->
  Forall (fun c => memberIndices c <> [] /\
                   size c = length (memberIndices c) /\
                   memberHotspots c = map (nth_error hotspots) (memberIndices c)) cs /\
  NoDup (concat (map memberIndices cs)).
Proof.
  intros Hcs Hne Hnd.
  destruct (clustersOfMap_inv alg coords hotspots m cs Hcs) as [Hidx Hall].
  split.
  - apply Forall_forall. intros c Hc.
    pose proof (proj1 (Forall_forall _ _) Hall c Hc) as [H1 H2].
    split; [| split; assumption].
    assert (Hin : In (memberIndices c) (map snd m)).
    { rewrite <- Hidx. apply in_map. exact Hc. }
    apply in_map_iff in Hin. destruct Hin as [e [He Hin]].
    rewrite <- He. apply (proj1 (Forall_forall _ _) Hne e Hin).
  - rewrite (concat_memberIndices cs m Hidx). exact Hnd.
Qed.

Lemma run_call_ok (lib : Library) (a : Algorithm) (coords : list (Q * Q))
      (parameters : Parameters) (hotspots : list Hotspot) (raw : ClusteringResult) :
  run lib (call a coords parameters hotspots) = inr raw ->
  r_totalClusters raw = length (r_clusters raw) /\
  Forall (fun c => memberIndices c <> [] /\
                   size c = length (memberIndices c) /\
                   memberHotspots c = map (nth_error hotspots) (memberIndices c))
         (r_clusters raw) /\
  NoDup (concat (map memberIndices (r_clusters raw))).
Proof.
  destruct a; cbn [call]; intros H.
  - unfold runDBSCAN in H. cbv zeta in H. cbn [run] in H.
    destruct (lib _ _) as [e | answer]; [discriminate |].
    rewrite run_bind in H.
    destruct (run lib (processDBSCANResults _ _ _ _)) as [e | cs] eqn:E;
      [discriminate |].
    cbn [run] in H. injection H as <-. cbn [r_totalClusters r_clusters].
    apply run_without_library in E; [| apply clustersOfMap_quiet].
    split; [reflexivity |].
    apply (clusters_of_map_ok _ _ _ _ _ E).
    + apply groupDBSCAN_nonempty. constructor.
    + apply (Permutation_NoDup
               (Permutation_sym (groupDBSCAN_members (db_clusters answer) 0 []))).
      simpl. apply kept_NoDup.
  - unfold runKMeans in H. cbv zeta in H. cbn [run] in H.
    destruct (lib _ _) as [e | answer]; [discriminate |].
    rewrite run_bind in H.
    destruct (run lib (processKMeansResults _ _ _)) as [e | cs] eqn:E;
      [discriminate |].
    cbn [run] in H. injection H as <-. cbn [r_totalClusters r_clusters].
    apply run_without_library in E; [| apply kmeansClusters_quiet].
    destruct (kmeansClusters_inv _ _ _ _ _ _ E) as [Hcat Hall].
    split; [reflexivity |]. split; [exact Hall |].
    rewrite Hcat. rewrite <- (map_map Z.of_nat (indicesLabelled _ 0)).
    apply (Permutation_NoDup
             (Permutation_sym
                (concat_labelled _ (km_clusters answer) (seq_of_nat_NoDup _ _) 0))).
    apply labelled_in_NoDup.
  - unfold runHierarchicalClustering in H. cbv zeta in H. cbn [run] in H.
    destruct (lib _ _) as [e | labels]; [discriminate |].
    rewrite run_bind in H.
    destruct (run lib (processHierarchicalResults _ _ _)) as [e | cs] eqn:E;
      [discriminate |].
    cbn [run] in H. injection H as <-. cbn [r_totalClusters r_clusters].
    apply run_without_library in E; [| apply clustersOfMap_quiet].
    split; [reflexivity |].
    apply (clusters_of_map_ok _ _ _ _ _ E).
    + apply groupHierarchical_nonempty. constructor.
    + apply (Permutation_NoDup
               (Permutation_sym (groupHierarchical_members labels 0 []))).
      simpl. apply seq_NoDup.
Qed.

Lemma defined_in_range (hotspots : list Hotspot) (idx : list nat) (ms : list Hotspot) :
  map (nth_error hotspots) idx = map Some ms ->
  Forall (fun i => (i < length hotspots)%nat) idx.
Proof.
  revert ms. induction idx as [| i idx IH]; intros [| h ms] H; try discriminate;
    [constructor |].
  simpl in H. injection H as Hi Hrest. constructor; [| apply (IH ms Hrest)].
  apply nth_error_Some. congruence.
Qed.

(** X6.  Whatever the clustering library answers, a result that the engine
    returns is consistent: [totalClusters] is the number of clusters; every
    cluster has at least one member, its [size] counts its members, its
    member indices point into the input and [memberHotspots] holds the input
    hotspots at these indices; and no input point is in two clusters. *)
Theorem X6_engine_results_are_consistent
        (lib : Library) (now : Z) (hotspots : list Hotspot) (options : Options)
        (result : ClusteringResult) :
  run lib (runClustering now hotspots options) = inr result ->
  r_totalClusters result = length (r_clusters result) /\
  Forall (cluster_wf hotspots) (r_clusters result) /\
  NoDup (concat (map memberIndices (r_clusters result))).
Proof.
  unfold runClustering. cbv zeta.
  set (alg := default (o_algorithm options) "dbscan"%string).
  set (params := default (o_parameters options) no_parameters).
  intros H.
  assert (Hsingle :
            r_totalClusters (createSingleClusterResult hotspots) =
              length (r_clusters (createSingleClusterResult hotspots)) /\
            Forall (cluster_wf hotspots) (r_clusters (createSingleClusterResult hotspots)) /\
            NoDup (concat (map memberIndices
                               (r_clusters (createSingleClusterResult hotspots))))).
  { unfold createSingleClusterResult. destruct hotspots as [| h hs].
    - cbn. split; [reflexivity |]. split; constructor.
    - cbn [length Nat.eqb r_totalClusters r_clusters map concat memberIndices].
      split; [reflexivity |]. split.
      + constructor; [| constructor]. unfold cluster_wf.
        cbn [memberIndices size memberHotspots].
        split; [simpl; discriminate |]. split; [rewrite length_seq; reflexivity |].
        split.
        * apply Forall_forall. intros i Hi. apply in_seq in Hi. simpl. lia.
        * symmetry. apply (nth_error_seq_all (h :: hs) []).
      + rewrite app_nil_r. apply seq_NoDup. }
  destruct (algorithms alg) as [a | |].
  - destruct (Qltb _ _).
    + cbn [run] in H. injection H as <-. exact Hsingle.
    + rewrite run_bind in H.
      destruct (run lib (call a _ params hotspots)) as [e | raw] eqn:Eraw;
        [discriminate |].
      destruct (run_call_ok lib a _ params hotspots raw Eraw) as [Htotal [Hall Hnd]].
      unfold postProcessClusters in H. cbv zeta in H. rewrite run_bind in H.
      destruct (run lib (annotate now alg params _ 0)) as [e | cs'] eqn:Eann;
        [discriminate |].
      cbn [run] in H. injection H as <-. cbn [r_totalClusters r_clusters].
      apply run_without_library in Eann; [| apply annotate_quiet].
      destruct (annotate_inv now alg params _ 0 cs' Eann) as [Hbare Hdef].
      destruct (map_bare_memberIndices _ _ Hbare) as [Hidx Hmh].
      pose proof (sort_perm _ bySizeDescending (r_clusters raw)) as Hsort.
      split; [| split].
      * rewrite Htotal, <- (Permutation_length Hsort).
        rewrite <- (length_map bare cs'), Hbare, length_map. reflexivity.
      * assert (Hsorted : Forall (fun c => (memberIndices c <> [] /\
                                            size c = length (memberIndices c) /\
                                            memberHotspots c =
                                              map (nth_error hotspots) (memberIndices c)) /\
                                           members_defined c)
                                 (sort bySizeDescending (r_clusters raw))).
        { apply Forall_forall. intros c Hc. split.
          - apply (proj1 (Forall_forall _ _) Hall c).
            apply (Permutation_in _ Hsort). exact Hc.
          - apply (proj1 (Forall_forall _ _) Hdef c Hc). }
        clear - Hbare Hsorted.
        revert cs' Hbare.
        induction Hsorted as [| c cs [[Hne [Hsz Hmh]] [ms Hms]] _ IH];
          intros [| c' cs'] Hbare; try discriminate; constructor.
        -- apply map_cons_eq in Hbare. destruct Hbare as [Hc _].
           unfold bare in Hc. injection Hc as _ _ Hi Hh Hs.
           unfold cluster_wf. rewrite Hi, Hh, Hs.
           split; [exact Hne |]. split; [exact Hsz |]. split; [| exact Hmh].
           apply (defined_in_range hotspots _ ms). rewrite <- Hmh. exact Hms.
        -- apply IH. apply map_cons_eq in Hbare. apply Hbare.
      * rewrite Hidx.
        apply (Permutation_NoDup
                 (Permutation_sym (Permutation_concat_map memberIndices _ _ Hsort))).
        exact Hnd.
  - destruct (Qltb _ _).
    + cbn [run] in H. injection H as <-. exact Hsingle.
    + discriminate H.
  - discriminate H.
Qed.

Lemma X6_engine_results_witness :
  exists result,
    run (density_library [0; 0; -1]%Z [2%nat])
        (runClustering 0 three_reports no_options) = inr result /\
    r_totalClusters result = length (r_clusters result) /\
    Forall (cluster_wf three_reports) (r_clusters result) /\
    NoDup (concat (map memberIndices (r_clusters result))).
Proof.
  eexists. split.
  - lazy -[calculateClusterRadius]. reflexivity.
  - apply (X6_engine_results_are_consistent
             (density_library [0; 0; -1]%Z [2%nat]) 0 three_reports no_options).
    lazy -[calculateClusterRadius]. reflexivity.
Defined.

End EngineInvariant.

(** ** Names, extremes and the growth of the priority score *)

Section AnnotationFacts.

Import Js ClusteringEngine Notions MoreNotions Samples.
Local Open Scope Q_scope.

Lemma string_of_nat_inj (n m : nat) : string_of_nat n = string_of_nat m -> n = m.
Proof.
  unfold string_of_nat. intros H.
  apply DecimalNat.Unsigned.to_uint_inj.
  pose proof (NilEmpty.usu (Nat.to_uint n)) as Hn.
  pose proof (NilEmpty.usu (Nat.to_uint m)) as Hm.
  rewrite H in Hn. congruence.
Qed.

Lemma annotate_names (now : Z) (alg : string) (params : Parameters) (cs : list Cluster) :
  forall index cs',
    annotate now alg params cs index = Ret cs' ->
    map name cs' =
      map (fun i => Some ("Cluster " ++ string_of_nat (i + 1))%string)
          (seq index (length cs)) /\
    Forall (fun c => algorithm c = alg /\ parameters c = Some params) cs'.
Proof.
  induction cs as [| c cs IH]; intros index cs' H.
  - simpl in H. injection H as <-. split; [reflexivity | constructor].
  - cbn [annotate] in H.
    destruct (all_defined (memberHotspots c)) as [ms | |]; try discriminate.
    cbn [bind] in H.
    destruct (annotate now alg params cs (S index)) as [rest | |] eqn:E;
      try discriminate.
    cbn [bind] in H. injection H as <-.
    destruct (IH (S index) rest E) as [Hnames Hall]. split.
    + cbn [map name length seq]. rewrite Hnames. reflexivity.
    + constructor; [split; reflexivity | exact Hall].
Qed.

Lemma names_NoDup (index n : nat) :
  NoDup (map (fun i => Some ("Cluster " ++ string_of_nat (i + 1))%string)
             (seq index n)).
Proof.
  pose proof (seq_NoDup n index) as H.
  induction H as [| a l Hnotin _ IH]; simpl; constructor; [| exact IH].
  intros Hin. apply in_map_iff in Hin. destruct Hin as [b [Hb Hin]].
  injection Hb as Hb. apply string_of_nat_inj in Hb.
  assert (b = a) by lia. subst b. contradiction.
Qed.

(** X7.  Post-processing names the clusters "Cluster 1", "Cluster 2", ... in
    the order in which it returns them, so no two clusters of a result share
    a name; it stamps every cluster with the algorithm name and the
    caller's parameters, and passes the result's own algorithm, parameters,
    noise list and cluster count through unchanged. *)
Theorem X7_clusters_are_named_by_rank
        (now : Z) (result : ClusteringResult) (hotspots : list Hotspot)
        (alg : string) (params : Parameters) :
  Forall members_defined (r_clusters result) ->
  exists result',
    postProcessClusters now result hotspots alg params = Ret result' /\
    map name (r_clusters result') =
      map (fun i => Some ("Cluster " ++ string_of_nat (i + 1))%string)
          (seq 0 (length (r_clusters result))) /\
    NoDup (map name (r_clusters result')) /\
    Forall (fun c => algorithm c = alg /\ parameters c = Some params)
           (r_clusters result') /\
    (r_algorithm result', r_parameters result', r_noise result',
     r_totalClusters result', r_converged result') =
    (r_algorithm result, r_parameters result, r_noise result,
     r_totalClusters result, r_converged result).
Proof.
  intros Hdef.
  destruct (postProcessClusters_Ret now result hotspots alg params Hdef)
    as [result' [Hres _]].
  exists result'. split; [exact Hres |].
  unfold postProcessClusters in Hres. cbv zeta in Hres.
  destruct (annotate now alg params (sort bySizeDescending (r_clusters result)) 0)
    as [cs' | |] eqn:E; try discriminate.
  cbn [bind] in Hres. injection Hres as <-. cbn.
  destruct (annotate_names now alg params _ 0 cs' E) as [Hnames Hall].
  rewrite (Permutation_length (sort_perm _ bySizeDescending (r_clusters result)))
    in Hnames.
  split; [exact Hnames |]. split; [| split; [exact Hall | reflexivity]].
  rewrite Hnames. apply names_NoDup.
Qed.

Lemma X7_names_witness :
  exists result',
    postProcessClusters 0 one_and_two_pairs five_reports "dbscan" no_parameters
    = Ret result' /\
    map name (r_clusters result') =
      [Some "Cluster 1"%string; Some "Cluster 2"%string; Some "Cluster 3"%string] /\
    NoDup (map name (r_clusters result')) /\
    map id (r_clusters result') = [1; 2; 0]%Z.
Proof.
  destruct (X7_clusters_are_named_by_rank
              0 one_and_two_pairs five_reports "dbscan" no_parameters)
    as [result' (Hres & Hnames & Hnd & _)].
  - repeat constructor; eexists; reflexivity.
  - exists result'. split; [exact Hres |]. split; [exact Hnames |].
    split; [exact Hnd |].
    assert (Hrun : postProcessClusters 0 one_and_two_pairs five_reports
                                       "dbscan" no_parameters
                   = Ret result') by exact Hres.
    lazy -[calculateClusterRadius] in Hrun.
    injection Hrun as <-. reflexivity.
Defined.

Lemma max_of_member (xs : list Q) : forall x, In (max_of x xs) (x :: xs).
Proof.
  unfold max_of, Math_max.
  induction xs as [| a xs IH]; intros x; simpl; [left; reflexivity |].
  destruct (IH (Qmax x a)) as [H | H]; [| right; right; exact H].
  rewrite <- H. unfold Qmax, GenericMinMax.gmax.
  destruct (x ?= a); [left | right; left | left]; reflexivity.
Qed.

Lemma min_of_member (xs : list Q) : forall x, In (min_of x xs) (x :: xs).
Proof.
  unfold min_of, Math_min.
  induction xs as [| a xs IH]; intros x; simpl; [left; reflexivity |].
  destruct (IH (Qmin x a)) as [H | H]; [| right; right; exact H].
  rewrite <- H. unfold Qmin, GenericMinMax.gmin.
  destruct (x ?= a); [left | left | right; left]; reflexivity.
Qed.

(** X8.  In the statistics of a non-empty cluster [maxSeverity] is the
    severity of some member and no member is more severe, [minSeverity] is
    the severity of some member and no member is less severe, and
    [totalHotspots] counts the members. *)
Theorem X8_extremes_are_member_severities (now : Z) (members : list Hotspot) :
  members <> [] ->
  let st := calculateClusterStatistics now members in
  totalHotspots st = length members /\
  (exists h, In h members /\ maxSeverity st = severity_of h) /\
  (exists h, In h members /\ minSeverity st = severity_of h) /\
  (forall h, In h members -> minSeverity st <= severity_of h <= maxSeverity st).
Proof.
  intros Hne. destruct members as [| h hs]; [congruence |].
  cbv zeta. cbn [calculateClusterStatistics totalHotspots maxSeverity minSeverity].
  split; [reflexivity |]. split; [| split].
  - pose proof (max_of_member (map severity_of hs) (severity_of h)) as Hin.
    change (severity_of h :: map severity_of hs) with (map severity_of (h :: hs)) in Hin.
    apply in_map_iff in Hin. destruct Hin as [m [Hm Hin]].
    exists m. split; [exact Hin | symmetry; exact Hm].
  - pose proof (min_of_member (map severity_of hs) (severity_of h)) as Hin.
    change (severity_of h :: map severity_of hs) with (map severity_of (h :: hs)) in Hin.
    apply in_map_iff in Hin. destruct Hin as [m [Hm Hin]].
    exists m. split; [exact Hin | symmetry; exact Hm].
  - intros m Hm.
    assert (Hin : In (severity_of m) (severity_of h :: map severity_of hs)).
    { change (severity_of h :: map severity_of hs) with (map severity_of (h :: hs)).
      apply in_map. exact Hm. }
    split; [apply min_of_le | apply max_of_ge]; exact Hin.
Qed.

Lemma X8_extremes_witness :
  exists h, In h two_reports /\
            maxSeverity (calculateClusterStatistics 0 two_reports) = severity_of h.
Proof.
  apply (X8_extremes_are_member_severities 0 two_reports).
  unfold two_reports. discriminate.
Defined.

Lemma fold_score_grows (now : Z) (extra : list Hotspot) :
  Forall (fun h => 0 <= severity_of h) extra ->
  forall score, score <= fold_left (scoreHotspot now) extra score.
Proof.
  induction 1 as [| h hs Hh _ IH]; intros score; simpl.
  - apply Qle_refl.
  - eapply Qle_trans; [apply scoreHotspot_grows; exact Hh | apply IH].
Qed.

Lemma priority_level_monotone (st1 st2 : Statistics) :
  priorityScore st1 <= priorityScore st2 ->
  (Level_rank (calculatePriorityLevel st1) <= Level_rank (calculatePriorityLevel st2))%nat.
Proof.
  intros Hle. unfold calculatePriorityLevel. cbv zeta.
  destruct (Qle_bool 80 (priorityScore st1)) eqn:A1;
    destruct (Qle_bool 60 (priorityScore st1)) eqn:B1;
    destruct (Qle_bool 40 (priorityScore st1)) eqn:C1;
    destruct (Qle_bool 80 (priorityScore st2)) eqn:A2;
    destruct (Qle_bool 60 (priorityScore st2)) eqn:B2;
    destruct (Qle_bool 40 (priorityScore st2)) eqn:C2;
    simpl; try lia;
    repeat match goal with
           | H : Qle_bool _ _ = true |- _ => apply Qle_bool_iff in H
           end;
    exfalso;
    match goal with
    | H : Qle_bool ?a (priorityScore st2) = false |- _ =>
        assert (a <= priorityScore st2) as Hc by Lqa.lra;
        apply Qle_bool_iff in Hc; congruence
    end.
Qed.

(** X9.  More members never lower the urgency of a cluster: adding hotspots
    of non-negative severity to a cluster lowers neither its priority score
    nor its priority level. *)
Theorem X9_priority_grows_with_members (now : Z) (members extra : list Hotspot) :
  Forall (fun h => 0 <= severity_of h) extra ->
  calculateClusterPriorityScore now members
  <= calculateClusterPriorityScore now (members ++ extra) /\
  (Level_rank (calculatePriorityLevel (calculateClusterStatistics now members))
   <= Level_rank (calculatePriorityLevel
                    (calculateClusterStatistics now (members ++ extra))))%nat.
Proof.
  intros Hextra.
  assert (Hscore : calculateClusterPriorityScore now members
                   <= calculateClusterPriorityScore now (members ++ extra)).
  { unfold calculateClusterPriorityScore. cbv zeta. rewrite fold_left_app.
    unfold Math_min, Math_round. apply Q.min_le_compat_l.
    rewrite <- Zle_Qle. apply Qfloor_resp_le.
    pose proof (fold_score_grows now extra Hextra
                  (fold_left (scoreHotspot now) members 0)).
    Lqa.lra. }
  split; [exact Hscore |].
  apply priority_level_monotone.
  assert (Hstat : forall ms, priorityScore (calculateClusterStatistics now ms) ==
                             calculateClusterPriorityScore now ms).
  { intros [| m ms]; reflexivity. }
  rewrite !Hstat. exact Hscore.
Qed.

Lemma X9_priority_witness :
  calculateClusterPriorityScore 0 [report_at 0 0 8]
  <= calculateClusterPriorityScore 0 ([report_at 0 0 8] ++ [report_at 0 0 4]).
Proof.
  apply (X9_priority_grows_with_members 0 [report_at 0 0 8] [report_at 0 0 4]).
  repeat constructor. vm_compute. discriminate.
Defined.

End AnnotationFacts.

(** ** The hotspot document *)

Section HotspotDocFacts.

Import Js ClusteringEngine Notions MoreNotions HotspotModel DocumentNotions.
Local Open Scope Q_scope.

Lemma report_sum (reports : list Report) :
  fold_left (fun s r => s + severity_score r) reports 0 ==
  Qsum (map severity_score reports).
Proof. rewrite (fold_left_proj severity_score). ring. Qed.

Lemma Qsum_lower (lo : Q) (l : list Q) :
  Forall (fun x => lo <= x) l -> lo * of_nat (length l) <= Qsum l.
Proof.
  induction 1 as [| x l Hx _ IH].
  - cbn [length Qsum fold_right]. change (of_nat 0) with 0. Lqa.lra.
  - cbn [length Qsum fold_right]. fold (Qsum l). rewrite of_nat_S. Lqa.lra.
Qed.

Lemma Qsum_upper (hi : Q) (l : list Q) :
  Forall (fun x => x <= hi) l -> Qsum l <= hi * of_nat (length l).
Proof.
  induction 1 as [| x l Hx _ IH].
  - cbn [length Qsum fold_right]. change (of_nat 0) with 0. Lqa.lra.
  - cbn [length Qsum fold_right]. fold (Qsum l). rewrite of_nat_S. Lqa.lra.
Qed.

(** The blend of the virtual, bound by bound. *)
Lemma calculated_severity_lower (d : HotspotDoc) (lo : Q) :
  lo <= d_base_severity d ->
  Forall (fun r => lo <= severity_score r) (d_typical_reports d) ->
  lo <= d_calculated_severity d /\
  (d_base_severity d - lo) * (7 # 10) <= d_calculated_severity d - lo.
Proof.
  intros Hbase Hall. unfold d_calculated_severity, calculated_severity_virtual.
  destruct (d_typical_reports d) as [| r rs] eqn:E; [split; Lqa.lra |].
  cbv zeta. rewrite report_sum.
  set (scores := map severity_score (r :: rs)).
  assert (Hlen : length (r :: rs) = length scores)
    by (unfold scores; rewrite length_map; reflexivity).
  rewrite Hlen. fold (of_nat (length scores)).
  assert (Hpos : 0 < of_nat (length scores)).
  { apply of_nat_pos. unfold scores. simpl. lia. }
  assert (Hsum : lo * of_nat (length scores) <= Qsum scores).
  { apply Qsum_lower. unfold scores. apply Forall_map. exact Hall. }
  assert (Hmean : lo <= Qsum scores / of_nat (length scores)).
  { apply Qle_shift_div_l; assumption. }
  split; Lqa.lra.
Qed.

Lemma calculated_severity_upper (d : HotspotDoc) (hi : Q) :
  d_base_severity d <= hi ->
  Forall (fun r => severity_score r <= hi) (d_typical_reports d) ->
  d_calculated_severity d <= hi.
Proof.
  intros Hbase Hall. unfold d_calculated_severity, calculated_severity_virtual.
  destruct (d_typical_reports d) as [| r rs] eqn:E; [exact Hbase |].
  cbv zeta. rewrite report_sum.
  set (scores := map severity_score (r :: rs)).
  assert (Hlen : length (r :: rs) = length scores)
    by (unfold scores; rewrite length_map; reflexivity).
  rewrite Hlen. fold (of_nat (length scores)).
  assert (Hpos : 0 < of_nat (length scores)).
  { apply of_nat_pos. unfold scores. simpl. lia. }
  assert (Hsum : Qsum scores <= hi * of_nat (length scores)).
  { apply Qsum_upper. unfold scores. apply Forall_map. exact Hall. }
  assert (Hmean : Qsum scores / of_nat (length scores) <= hi).
  { apply Qle_shift_div_r; assumption. }
  Lqa.lra.
Qed.

(** X10.  With numbers idealised as exact rationals (weights 7/10 and
    3/10), the calculated severity of a hotspot is a blend of its base
    severity and the mean of its report scores, so it never leaves a range
    that holds all of them: with base and scores in [0, 10] it is in
    [0, 10].  (In binary64 the blend can miss the range by one unit in the
    last place, see [calculated_severity_of_equal_doubles].) *)
Theorem X10_calculated_severity_stays_in_range (d : HotspotDoc) (lo hi : Q) :
  lo <= d_base_severity d <= hi ->
  Forall (fun r => lo <= severity_score r <= hi) (d_typical_reports d) ->
  lo <= d_calculated_severity d <= hi.
Proof.
  intros [Hlo Hhi] Hall. split.
  - apply calculated_severity_lower; [exact Hlo |].
    eapply Forall_impl; [| exact Hall]. simpl. intros r Hr. apply Hr.
  - apply calculated_severity_upper; [exact Hhi |].
    eapply Forall_impl; [| exact Hall]. simpl. intros r Hr. apply Hr.
Qed.

Lemma X10_calculated_severity_witness :
  0 <= d_calculated_severity (sample_doc 8 [6; 4]) <= 10.
Proof.
  apply (X10_calculated_severity_stays_in_range (sample_doc 8 [6; 4]) 0 10).
  - split; vm_compute; discriminate.
  - repeat constructor; vm_compute; discriminate.
Defined.

Lemma risk_rank_monotone (s1 s2 : Q) :
  s1 <= s2 ->
  (Level_rank (if Qle_bool 8 s1 then critical else if Qle_bool 6 s1 then high
               else if Qle_bool 4 s1 then medium else low)
   <= Level_rank (if Qle_bool 8 s2 then critical else if Qle_bool 6 s2 then high
                  else if Qle_bool 4 s2 then medium else low))%nat.
Proof.
  intros Hle.
  destruct (Qle_bool 8 s1) eqn:A1; destruct (Qle_bool 6 s1) eqn:B1;
    destruct (Qle_bool 4 s1) eqn:C1; destruct (Qle_bool 8 s2) eqn:A2;
    destruct (Qle_bool 6 s2) eqn:B2; destruct (Qle_bool 4 s2) eqn:C2;
    simpl; try lia;
    repeat match goal with
           | H : Qle_bool _ _ = true |- _ => apply Qle_bool_iff in H
           end;
    exfalso;
    match goal with
    | H : Qle_bool ?a s2 = false |- _ =>
        assert (a <= s2) as Hc by Lqa.lra;
        apply Qle_bool_iff in Hc; congruence
    end.
Qed.

Lemma Qle_bool_false (a b : Q) : Qle_bool a b = false <-> b < a.
Proof.
  split.
  - intros H. apply Qnot_le_lt. intros Hle. apply Qle_bool_iff in Hle. congruence.
  - intros H. destruct (Qle_bool a b) eqn:E; [| reflexivity].
    apply Qle_bool_iff in E. Lqa.lra.
Qed.


End HotspotDocFacts.

(** ** The cluster document *)

Section ClusterDocFacts.

Import Distance Js Notions MoreNotions HotspotModel DocumentNotions.
Local Open Scope Q_scope.

Lemma severity_of_doc (d : HotspotDoc) :
  doc_nonneg d ->
  ClusteringEngine.severity_of (as_hotspot d) == d_calculated_severity d /\
  0 <= d_calculated_severity d.
Proof.
  intros [Hbase Hall].
  destruct (calculated_severity_lower d 0 Hbase Hall) as [Hv Hblend].
  split; [| exact Hv].
  unfold ClusteringEngine.severity_of, as_hotspot, or_else.
  cbn [calculated_severity base_severity].
  destruct (Qeq_bool (d_calculated_severity d) 0) eqn:E; [| reflexivity].
  apply Qeq_bool_iff in E. Lqa.lra.
Qed.

Lemma score_step_dominated (now : Z) (d : HotspotDoc) (acc acc' : Q) :
  doc_nonneg d -> acc <= acc' ->
  ClusteringEngine.scoreHotspot now acc (as_hotspot d)
  <= ClusterModel.scoreDocument now acc' d.
Proof.
  intros Hd Hacc. destruct (severity_of_doc d Hd) as [He Hv].
  unfold ClusteringEngine.severity_of in He.
  unfold ClusteringEngine.scoreHotspot, ClusterModel.scoreDocument. cbv zeta.
  set (e := or_else (calculated_severity (as_hotspot d)) (base_severity (as_hotspot d))) in *.
  set (v := d_calculated_severity d) in *.
  clearbody e v.
  cbn [waste_type environmental_metrics typical_reports as_hotspot
       ClusteringEngine.risk_is_critical].
  unfold ClusteringEngine.ms_per_day.
  change (ClusteringEngine.critical_waste (d_waste_type d))
    with (ClusterModel.critical_waste (d_waste_type d)).
  destruct (ClusterModel.critical_waste (d_waste_type d));
    destruct (Level_eqb (water_pollution_risk (d_environmental_metrics d)) critical);
    destruct (Level_eqb (air_quality_impact (d_environmental_metrics d)) critical);
    destruct (d_typical_reports d) as [| r rs];
    try match goal with
        | |- context [Qle_bool ?x 1] =>
            destruct (Qle_bool x 1); [| destruct (Qle_bool x 7)]
        end;
    Lqa.lra.
Qed.

Lemma score_fold_dominated (now : Z) (docs : list HotspotDoc) :
  Forall doc_nonneg docs ->
  forall acc acc',
    acc <= acc' ->
    fold_left (ClusteringEngine.scoreHotspot now) (map as_hotspot docs) acc
    <= fold_left (ClusterModel.scoreDocument now) docs acc'.
Proof.
  induction 1 as [| d docs Hd _ IH]; intros acc acc' Hacc; simpl.
  - exact Hacc.
  - apply IH. apply score_step_dominated; assumption.
Qed.

Lemma score_document_lower (now : Z) (d : HotspotDoc) (acc : Q) :
  acc + 10 * d_calculated_severity d <= ClusterModel.scoreDocument now acc d.
Proof.
  unfold ClusterModel.scoreDocument. cbv zeta.
  destruct (ClusterModel.critical_waste (d_waste_type d));
    destruct (Level_eqb (water_pollution_risk (d_environmental_metrics d)) critical);
    destruct (Level_eqb (air_quality_impact (d_environmental_metrics d)) critical);
    destruct (d_typical_reports d) as [| r rs];
    try match goal with
        | |- context [Qle_bool ?x 1] =>
            destruct (Qle_bool x 1); [| destruct (Qle_bool x 7)]
        end;
    Lqa.lra.
Qed.

Lemma score_fold_lower (now : Z) (docs : list HotspotDoc) :
  forall acc,
    acc + 10 * Qsum (map d_calculated_severity docs)
    <= fold_left (ClusterModel.scoreDocument now) docs acc.
Proof.
  induction docs as [| d docs IH]; intros acc; simpl.
  - Lqa.lra.
  - eapply Qle_trans; [| apply IH].
    pose proof (score_document_lower now d acc). Lqa.lra.
Qed.

Lemma Math_round_close (x : Q) : x - (1 # 2) < Math_round x <= x + (1 # 2).
Proof.
  unfold Math_round. split.
  - pose proof (Qlt_floor (x + (1 # 2))) as H.
    rewrite inject_Z_plus in H. change (inject_Z 1) with 1 in H. Lqa.lra.
  - apply Qfloor_le.
Qed.

(** X12.  The priority score that the cluster document stores is computed
    by another formula than the engine's: for member documents without
    negative severities it is a non-negative integer, it is never below the
    engine's score for the same members, and it has no upper limit: it
    exceeds ten times the sum of the members' severities less one half. *)
Theorem X12_stored_priority_dominates_engine_priority
        (now : Z) (docs : list HotspotDoc) :
  Forall doc_nonneg docs ->
  ClusteringEngine.calculateClusterPriorityScore now (map as_hotspot docs)
  <= ClusterModel.calculatePriorityScore now docs /\
  (exists z : Z, ClusterModel.calculatePriorityScore now docs = inject_Z z /\ (0 <= z)%Z) /\
  10 * Qsum (map d_calculated_severity docs) - (1 # 2)
  < ClusterModel.calculatePriorityScore now docs.
Proof.
  intros Hall.
  unfold ClusteringEngine.calculateClusterPriorityScore,
         ClusterModel.calculatePriorityScore. cbv zeta.
  pose proof (score_fold_dominated now docs Hall 0 0 (Qle_refl 0)) as Hdom.
  pose proof (score_fold_lower now docs 0) as Hlow.
  set (engine := fold_left (ClusteringEngine.scoreHotspot now) (map as_hotspot docs) 0) in *.
  set (stored := fold_left (ClusterModel.scoreDocument now) docs 0) in *.
  split; [| split].
  - eapply Qle_trans; [apply Q.le_min_r |].
    unfold Math_round. rewrite <- Zle_Qle. apply Qfloor_resp_le. Lqa.lra.
  - unfold Math_round. eexists. split; [reflexivity |].
    apply Math_round_nonneg.
    assert (Hsum : 0 * ClusteringEngine.of_nat (length (map d_calculated_severity docs))
                   <= Qsum (map d_calculated_severity docs)).
    { apply Qsum_lower. apply Forall_map.
      eapply Forall_impl; [| exact Hall]. intros d Hd.
      apply (severity_of_doc d Hd). }
    Lqa.lra.
  - pose proof (Math_round_close stored) as [Hc _]. Lqa.lra.
Qed.

Lemma X12_stored_priority_witness :
  ClusteringEngine.calculateClusterPriorityScore 0 (map as_hotspot [sample_doc 8 [6; 4]])
  <= ClusterModel.calculatePriorityScore 0 [sample_doc 8 [6; 4]].
Proof.
  apply (X12_stored_priority_dominates_engine_priority 0 [sample_doc 8 [6; 4]]).
  repeat constructor; vm_compute; discriminate.
Defined.

End ClusterDocFacts.

Section ClusterStatisticsFacts.

Import Distance Js Notions MoreNotions HotspotModel ClusterModel DocumentNotions.
Local Open Scope Q_scope.

Lemma fold_Rmax_lower {A : Type} (f : A -> R) (l : list A) :
  forall start, (start <= fold_left (fun m a => Rmax m (f a)) l start)%R.
Proof.
  induction l as [| a l IH]; intros start; simpl.
  - apply Rle_refl.
  - eapply Rle_trans; [apply Rmax_l | apply IH].
Qed.

Lemma fold_Rmax_upper {A : Type} (f : A -> R) (l : list A) :
  forall start x, In x l -> (f x <= fold_left (fun m a => Rmax m (f a)) l start)%R.
Proof.
  induction l as [| a l IH]; intros start x Hin; simpl; [destruct Hin |].
  destruct Hin as [-> | Hin].
  - eapply Rle_trans; [apply Rmax_r | apply fold_Rmax_lower].
  - apply IH. exact Hin.
Qed.

Lemma in_map_member {A : Type} (f : A -> Q) (x : A) (xs : list A) (q : Q) :
  In q (f x :: map f xs) -> exists y, In y (x :: xs) /\ q = f y.
Proof.
  change (f x :: map f xs) with (map f (x :: xs)).
  intros H. apply in_map_iff in H. destruct H as [y [Hy Hin]].
  exists y. split; [exact Hin | symmetry; exact Hy].
Qed.



Lemma Qsum_Forall2 (l l' : list Q) : Forall2 Qeq l l' -> Qsum l == Qsum l'.
Proof.
  induction 1 as [| x y l l' Hxy _ IH]; simpl; [reflexivity |].
  fold (Qsum l) (Qsum l'). rewrite Hxy, IH. reflexivity.
Qed.

Lemma max_of_Forall2 (xs xs' : list Q) :
  Forall2 Qeq xs xs' -> forall x x', x == x' -> max_of x xs == max_of x' xs'.
Proof.
  unfold max_of, Math_max.
  induction 1 as [| a b xs xs' Hab _ IH]; intros x x' Hx; simpl; [exact Hx |].
  apply IH. apply Q.max_compat; assumption.
Qed.

Lemma min_of_Forall2 (xs xs' : list Q) :
  Forall2 Qeq xs xs' -> forall x x', x == x' -> min_of x xs == min_of x' xs'.
Proof.
  unfold min_of, Math_min.
  induction 1 as [| a b xs xs' Hab _ IH]; intros x x' Hx; simpl; [exact Hx |].
  apply IH. apply Q.min_compat; assumption.
Qed.

Lemma Forall2_map_docs (f : Hotspot -> Q) (g : HotspotDoc -> Q) (docs : list HotspotDoc) :
  Forall (fun d => f (as_hotspot d) == g d) docs ->
  Forall2 Qeq (map f (map as_hotspot docs)) (map g docs).
Proof.
  induction 1 as [| d docs Hd _ IH]; simpl; constructor; assumption.
Qed.

Lemma waste_of_doc (d : HotspotDoc) :
  ClusteringEngine.waste_of (as_hotspot d) == estimated_waste_kg (d_environmental_metrics d).
Proof.
  unfold ClusteringEngine.waste_of, as_hotspot, or_else. cbn.
  destruct (Qeq_bool (estimated_waste_kg (d_environmental_metrics d)) 0) eqn:E;
    [| reflexivity].
  apply Qeq_bool_iff in E. symmetry. exact E.
Qed.

Lemma co2_of_doc (d : HotspotDoc) :
  ClusteringEngine.co2_of (as_hotspot d) == co2_emissions (d_environmental_metrics d).
Proof.
  unfold ClusteringEngine.co2_of, as_hotspot, or_else. cbn.
  destruct (Qeq_bool (co2_emissions (d_environmental_metrics d)) 0) eqn:E;
    [| reflexivity].
  apply Qeq_bool_iff in E. symmetry. exact E.
Qed.

(** X14.  For member documents without negative severities the statistics
    that the cluster document stores agree with the statistics that the
    engine attaches to the same members: the same member count, mean,
    largest and smallest severity, total waste and total CO2.  The priority
    score is not part of the agreement. *)
Theorem X14_stored_statistics_agree_with_the_engine
        (now : Z) (first : HotspotDoc) (others : list HotspotDoc) :
  Forall doc_nonneg (first :: others) ->
  let engine :=
    ClusteringEngine.calculateClusterStatistics now (map as_hotspot (first :: others)) in
  let stored := statisticsOf now first others in
  totalHotspots engine = total_hotspots stored /\
  averageSeverity engine == average_severity stored /\
  maxSeverity engine == max_severity stored /\
  minSeverity engine == min_severity stored /\
  totalWasteKg engine == total_waste_kg stored /\
  totalCO2Emissions engine == total_co2_emissions stored.
Proof.
  intros Hall. cbv zeta.
  assert (Hsev : Forall (fun d => ClusteringEngine.severity_of (as_hotspot d) ==
                                  d_calculated_severity d) (first :: others)).
  { eapply Forall_impl; [| exact Hall]. intros d Hd. apply (severity_of_doc d Hd). }
  pose proof (Forall2_map_docs _ _ _ Hsev) as Hsev2.
  inversion Hsev as [| x l Hfirst Hothers]; subst.
  pose proof (Forall2_map_docs _ _ _ Hothers) as Hothers2.
  unfold statisticsOf. cbv zeta.
  cbn [map ClusteringEngine.calculateClusterStatistics totalHotspots averageSeverity
       maxSeverity minSeverity totalWasteKg totalCO2Emissions
       total_hotspots average_severity max_severity min_severity total_waste_kg
       total_co2_emissions].
  split; [| split; [| split; [| split; [| split]]]].
  - cbn [length]. rewrite length_map. reflexivity.
  - unfold mean. rewrite sum_Qsum, fold_left_Qplus.
    cbn [length]. rewrite !length_map.
    change (ClusteringEngine.severity_of (as_hotspot first)
              :: map ClusteringEngine.severity_of (map as_hotspot others))
      with (map ClusteringEngine.severity_of (map as_hotspot (first :: others))).
    change (d_calculated_severity first :: map d_calculated_severity others)
      with (map d_calculated_severity (first :: others)).
    rewrite (Qsum_Forall2 _ _ Hsev2). field.
    unfold Qeq. simpl. lia.
  - apply max_of_Forall2; assumption.
  - apply min_of_Forall2; assumption.
  - rewrite sum_Qsum, fold_left_Qplus.
    change (ClusteringEngine.waste_of (as_hotspot first)
              :: map ClusteringEngine.waste_of (map as_hotspot others))
      with (map ClusteringEngine.waste_of (map as_hotspot (first :: others))).
    rewrite (Qsum_Forall2 _ (map (fun h => estimated_waste_kg (d_environmental_metrics h))
                                 (first :: others))).
    + cbn [map]. ring.
    + apply Forall2_map_docs. apply Forall_forall. intros d _. apply waste_of_doc.
  - rewrite sum_Qsum, fold_left_Qplus.
    change (ClusteringEngine.co2_of (as_hotspot first)
              :: map ClusteringEngine.co2_of (map as_hotspot others))
      with (map ClusteringEngine.co2_of (map as_hotspot (first :: others))).
    rewrite (Qsum_Forall2 _ (map (fun h => co2_emissions (d_environmental_metrics h))
                                 (first :: others))).
    + cbn [map]. ring.
    + apply Forall2_map_docs. apply Forall_forall. intros d _. apply co2_of_doc.
Qed.

Lemma X14_stored_statistics_witness :
  averageSeverity
    (ClusteringEngine.calculateClusterStatistics 0 (map as_hotspot [sample_doc 8 [6; 4]]))
  == average_severity (statisticsOf 0 (sample_doc 8 [6; 4]) []).
Proof.
  apply (X14_stored_statistics_agree_with_the_engine 0 (sample_doc 8 [6; 4]) []).
  repeat constructor; vm_compute; discriminate.
Defined.

End ClusterStatisticsFacts.

Section ClusterDensityFacts.

Import Distance Js Notions MoreNotions HotspotModel ClusterModel DocumentNotions.
Local Open Scope R_scope.

Lemma area_zero_iff (radius : R) : area_km2 radius = 0 <-> radius = 0.
Proof.
  unfold area_km2. destruct (Req_dec_T radius 0) as [E | E]; [tauto |].
  split; [| tauto]. intros H. exfalso.
  pose proof PI_RGT_0 as Hpi.
  assert (Hsq : 0 < (radius / 1000) * (radius / 1000)).
  { assert (Hr : radius / 1000 <> 0) by (intros Hz; apply E; Lra.lra).
    destruct (Rtotal_order (radius / 1000) 0) as [Hn | [Hz | Hp]]; [| tauto |]; Lra.nra. }
  rewrite Rmult_assoc in H. Lra.nra.
Qed.

Lemma fold_Rmax_zero {A : Type} (f : A -> R) (l : list A) :
  Forall (fun a => f a = 0) l -> fold_left (fun m a => Rmax m (f a)) l 0 = 0.
Proof.
  induction 1 as [| a l Ha _ IH]; simpl; [reflexivity |].
  rewrite Ha. unfold Rmax. destruct (Rle_dec 0 0); exact IH.
Qed.



End ClusterDensityFacts.

Section PagingFacts.

Import Js ClusteringEngine HotspotRoutes.

Lemma chunks_concat {A : Type} (size : nat) :
  (0 < size)%nat ->
  forall (n : nat) (l : list A),
    (length l <= n * size)%nat ->
    concat (map (fun p => firstn size (skipn (p * size) l)) (seq 0 n)) = l.
Proof.
  intros Hsize. induction n as [| n IH]; intros l Hlen.
  - destruct l; simpl in *; [reflexivity | lia].
  - cbn [seq map concat]. rewrite <- seq_shift, map_map.
    rewrite (map_ext _ (fun p => firstn size (skipn (p * size) (skipn size l)))).
    + rewrite IH.
      * simpl. apply firstn_skipn.
      * rewrite length_skipn. simpl in Hlen. lia.
    + intros p. rewrite skipn_skipn. f_equal. f_equal. simpl. lia.
Qed.

Lemma page_of_chunk {A : Type} (matches : list A) (limit : Z) (p : nat) :
  (1 <= limit)%Z ->
  page_of matches (Z.of_nat (S p)) limit =
  firstn (Z.to_nat limit) (skipn (p * Z.to_nat limit) matches).
Proof.
  intros Hlimit. unfold page_of, skip_of. f_equal. f_equal.
  rewrite Nat2Z.inj_succ.
  replace (Z.succ (Z.of_nat p) - 1)%Z with (Z.of_nat p) by lia.
  rewrite Z2Nat.inj_mul by lia. rewrite Nat2Z.id. reflexivity.
Qed.

Lemma pages_of_bounds (total : nat) (limit : Z) :
  (1 <= limit)%Z ->
  let pages := Qceiling (of_nat total / inject_Z limit) in
  (Z.of_nat total <= pages * limit)%Z /\
  ((pages - 1) * limit < Z.of_nat total)%Z /\
  (0 <= pages)%Z.
Proof.
  intros Hlimit pages.
  assert (Hpos : 0 < inject_Z limit).
  { change 0 with (inject_Z 0). rewrite <- Zlt_Qlt. lia. }
  assert (Hnz : ~ inject_Z limit == 0) by (intros E; rewrite E in Hpos; Lqa.lra).
  pose proof (Qle_ceiling (of_nat total / inject_Z limit)) as Hup.
  pose proof (Qceiling_lt (of_nat total / inject_Z limit)) as Hlow.
  fold pages in Hup, Hlow.
  assert (Htotal : of_nat total == of_nat total / inject_Z limit * inject_Z limit).
  { field. exact Hnz. }
  assert (Hle : (Z.of_nat total <= pages * limit)%Z).
  { rewrite Zle_Qle, inject_Z_mult. fold (of_nat total). rewrite Htotal.
    apply Qmult_le_compat_r; [exact Hup | Lqa.lra]. }
  assert (Hlt : ((pages - 1) * limit < Z.of_nat total)%Z).
  { rewrite Zlt_Qlt, inject_Z_mult. fold (of_nat total). rewrite Htotal.
    apply Qmult_lt_compat_r; [exact Hpos | exact Hlow]. }
  split; [exact Hle |]. split; [exact Hlt |]. nia.
Qed.

(** X16.  Paging of [GET /api/hotspots] with a limit of at least 1: the
    reported number of pages is a whole number [pages]; pages 1 to [pages],
    one after the other, are exactly the matching documents in their sorted
    order, none twice and none left out; no page is longer than the limit;
    every page after the last is empty; and the last page is not empty unless
    nothing matched. *)
Theorem X16_pages_cover_the_matches
        {A : Type} (matches : list A) (limit : Z) :
  (1 <= limit)%Z ->
  exists pages : nat,
    pages_of (length matches) limit = of_nat pages /\
    concat (map (fun page => page_of matches (Z.of_nat page) limit) (seq 1 pages))
    = matches /\
    (forall page, (length (page_of matches page limit) <= Z.to_nat limit)%nat) /\
    (forall page, (Z.of_nat pages < page)%Z -> page_of matches page limit = []) /\
    (matches <> [] -> page_of matches (Z.of_nat pages) limit <> []).
Proof.
  intros Hlimit.
  destruct (pages_of_bounds (length matches) limit Hlimit) as (Hup & Hlow & Hpos).
  cbv zeta in Hup, Hlow, Hpos.
  set (c := Qceiling (of_nat (length matches) / inject_Z limit)) in *.
  exists (Z.to_nat c).
  assert (Hsize : (0 < Z.to_nat limit)%nat) by lia.
  assert (Hcover : (length matches <= Z.to_nat c * Z.to_nat limit)%nat).
  { rewrite <- Z2Nat.inj_mul by lia. apply Nat2Z.inj_le.
    rewrite Z2Nat.id by nia. exact Hup. }
  split; [| split; [| split; [| split]]].
  - unfold pages_of, Math_ceil, of_nat. fold c. rewrite Z2Nat.id by exact Hpos.
    reflexivity.
  - rewrite <- seq_shift, map_map.
    rewrite (map_ext _ (fun p => firstn (Z.to_nat limit)
                                        (skipn (p * Z.to_nat limit) matches))).
    + apply chunks_concat; assumption.
    + intros p. apply page_of_chunk. exact Hlimit.
  - intros page. unfold page_of. apply firstn_le_length.
  - intros page Hpage. unfold page_of, skip_of.
    rewrite skipn_all2; [apply firstn_nil |].
    apply Nat2Z.inj_le. rewrite Z2Nat.id by nia.
    rewrite Z2Nat.id in Hpage by exact Hpos. nia.
  - intros Hne. destruct matches as [| m ms]; [congruence |].
    assert (Hc : (1 <= c)%Z).
    { simpl length in Hup. rewrite Nat2Z.inj_succ in Hup. nia. }
    unfold page_of, skip_of. rewrite Z2Nat.id by exact Hpos.
    assert (Hskip : (Z.to_nat ((c - 1) * limit) < length (m :: ms))%nat).
    { apply Nat2Z.inj_lt. rewrite Z2Nat.id by nia. exact Hlow. }
    remember (skipn (Z.to_nat ((c - 1) * limit)) (m :: ms)) as rest eqn:Erest.
    assert (Hrest : (0 < length rest)%nat).
    { rewrite Erest, length_skipn. lia. }
    destruct rest as [| r rest]; [simpl in Hrest; lia |].
    destruct (Z.to_nat limit) as [| size] eqn:El; [lia |]. simpl. discriminate.
Qed.

Lemma X16_pages_witness :
  exists pages : nat,
    pages_of 5 2 = of_nat pages /\
    concat (map (fun page => page_of [1; 2; 3; 4; 5]%nat (Z.of_nat page) 2) (seq 1 pages))
    = [1; 2; 3; 4; 5]%nat /\
    (forall page, (length (page_of [1; 2; 3; 4; 5]%nat page 2) <= Z.to_nat 2)%nat) /\
    (forall page, (Z.of_nat pages < page)%Z -> page_of [1; 2; 3; 4; 5]%nat page 2 = []) /\
    ([1; 2; 3; 4; 5]%nat <> [] -> page_of [1; 2; 3; 4; 5]%nat (Z.of_nat pages) 2 <> []).
Proof.
  apply (X16_pages_cover_the_matches [1; 2; 3; 4; 5]%nat 2). lia.
Defined.

End PagingFacts.

Section SummaryFacts.

Import Js ClusteringEngine HotspotRoutes RouteNotions.

Lemma severityRanges_from (severities : list Q) (start : SeverityRanges) :
  let ranges := fold_left countSeverity severities start in
  range_0_2 ranges = (range_0_2 start + how_many (fun s => Qle_bool s 2) severities)%nat /\
  range_3_5 ranges = (range_3_5 start + how_many (between 2 5) severities)%nat /\
  range_6_8 ranges = (range_6_8 start + how_many (between 5 8) severities)%nat /\
  range_9_10 ranges = (range_9_10 start + how_many (Qltb 8) severities)%nat.
Proof.
  revert start. induction severities as [| s rest IH]; intros start; cbv zeta.
  - unfold how_many. simpl. repeat split; lia.
  - cbn [fold_left]. specialize (IH (countSeverity start s)). cbv zeta in IH.
    destruct IH as (H1 & H2 & H3 & H4). rewrite H1, H2, H3, H4.
    unfold how_many, between, Qltb, countSeverity. cbn [filter].
    destruct (Qle_bool s 2) eqn:E2.
    + assert (E5 : Qle_bool s 5 = true).
      { apply Qle_bool_iff. apply Qle_bool_iff in E2. Lqa.lra. }
      assert (E8 : Qle_bool s 8 = true).
      { apply Qle_bool_iff. apply Qle_bool_iff in E2. Lqa.lra. }
      rewrite E5, E8. cbn [negb andb length range_0_2 range_3_5 range_6_8 range_9_10].
      repeat split; lia.
    + destruct (Qle_bool s 5) eqn:E5.
      * assert (E8 : Qle_bool s 8 = true).
        { apply Qle_bool_iff. apply Qle_bool_iff in E5. Lqa.lra. }
        rewrite E8. cbn [negb andb length range_0_2 range_3_5 range_6_8 range_9_10].
        repeat split; lia.
      * destruct (Qle_bool s 8) eqn:E8;
          cbn [negb andb length range_0_2 range_3_5 range_6_8 range_9_10];
          repeat split; lia.
Qed.

(** X17.  The severity distribution of the statistics summary puts every
    severity in exactly one range: the four counts add up to the number of
    hotspots.  The ranges are cut at 2, 5 and 8, so a severity between the
    labels (2.5, say) is counted under the next label up: '0-2' holds the
    severities up to 2, '3-5' those above 2 and up to 5, '6-8' those above 5
    and up to 8, '9-10' everything above 8. *)
Theorem X17_severity_ranges_partition (bySeverity : list Q) :
  let ranges := severityRanges bySeverity in
  (range_0_2 ranges + range_3_5 ranges + range_6_8 ranges + range_9_10 ranges
   = length bySeverity)%nat /\
  range_0_2 ranges = how_many (fun s => Qle_bool s 2) bySeverity /\
  range_3_5 ranges = how_many (between 2 5) bySeverity /\
  range_6_8 ranges = how_many (between 5 8) bySeverity /\
  range_9_10 ranges = how_many (Qltb 8) bySeverity.
Proof.
  cbv zeta. unfold severityRanges.
  destruct (severityRanges_from bySeverity (mkRanges 0 0 0 0)) as (H1 & H2 & H3 & H4).
  cbn [range_0_2 range_3_5 range_6_8 range_9_10 Nat.add] in H1, H2, H3, H4.
  split; [| repeat split; assumption].
  rewrite H1, H2, H3, H4. clear.
  unfold how_many, between, Qltb.
  induction bySeverity as [| s rest IH]; [reflexivity |].
  cbn [filter length].
  destruct (Qle_bool s 2) eqn:E2.
  - assert (E5 : Qle_bool s 5 = true).
    { apply Qle_bool_iff. apply Qle_bool_iff in E2. Lqa.lra. }
    assert (E8 : Qle_bool s 8 = true).
    { apply Qle_bool_iff. apply Qle_bool_iff in E2. Lqa.lra. }
    rewrite E5, E8. cbn [negb andb length]. lia.
  - destruct (Qle_bool s 5) eqn:E5.
    + assert (E8 : Qle_bool s 8 = true).
      { apply Qle_bool_iff. apply Qle_bool_iff in E5. Lqa.lra. }
      rewrite E8. cbn [negb andb length]. lia.
    + destruct (Qle_bool s 8) eqn:E8; cbn [negb andb length]; lia.
Qed.

Lemma counter_get_set (acc : Counter) (key : string) (n : nat) (k : string) :
  counter_get (counter_set acc key n) k =
  if String.eqb key k then Some n else counter_get acc k.
Proof.
  induction acc as [| [k0 m] acc IH]; simpl.
  - reflexivity.
  - destruct (String.eqb k0 key) eqn:E0; simpl.
    + apply String.eqb_eq in E0. subst k0.
      destruct (String.eqb key k); reflexivity.
    + destruct (String.eqb k0 k) eqn:E1.
      * apply String.eqb_eq in E1. subst k0.
        rewrite String.eqb_sym, E0. reflexivity.
      * exact IH.
Qed.

Lemma counter_get_absent (acc : Counter) (key : string) :
  counter_get acc key = None <-> ~ In key (map fst acc).
Proof.
  induction acc as [| [k0 m] acc IH]; simpl.
  - tauto.
  - destruct (String.eqb k0 key) eqn:E0.
    + apply String.eqb_eq in E0. split; [discriminate | tauto].
    + apply String.eqb_neq in E0. tauto.
Qed.

Lemma counter_keys_set (acc : Counter) (key : string) (n : nat) :
  map fst (counter_set acc key n) =
  match counter_get acc key with
  | Some _ => map fst acc
  | None => map fst acc ++ [key]
  end.
Proof.
  induction acc as [| [k0 m] acc IH]; simpl.
  - reflexivity.
  - destruct (String.eqb k0 key) eqn:E0; simpl.
    + reflexivity.
    + rewrite IH. destruct (counter_get acc key); reflexivity.
Qed.

Lemma counter_total_set (acc : Counter) (key : string) (n : nat) :
  (list_sum (map snd (counter_set acc key n)) + counted acc key
   = list_sum (map snd acc) + n)%nat.
Proof.
  unfold counted. induction acc as [| [k0 m] acc IH]; simpl.
  - lia.
  - destruct (String.eqb k0 key) eqn:E0; simpl; lia.
Qed.

Lemma countKey_defined (acc : Counter) (key : string) :
  ~ inherited key ->
  countKey acc key = Some (counter_set acc key (counted acc key + 1)).
Proof.
  intros Hown. unfold countKey, counted.
  destruct (counter_get acc key) as [n |].
  - destruct n; reflexivity.
  - destruct (existsb (String.eqb key) Object_prototype_names) eqn:E; [| reflexivity].
    exfalso. apply Hown. apply existsb_exists in E. destruct E as (x & Hin & Hx).
    apply String.eqb_eq in Hx. subst x. exact Hin.
Qed.

Lemma countAll_from (keys : list string) :
  Forall (fun key => ~ inherited key) keys ->
  forall acc : Counter,
    NoDup (map fst acc) ->
    exists counter,
      fold_left countStep keys (Some acc) = Some counter /\
      NoDup (map fst counter) /\
      (forall k, counted counter k = (counted acc k + count_occ string_dec keys k)%nat) /\
      (forall k, counter_get counter k = None <->
                 counter_get acc k = None /\ ~ In k keys) /\
      list_sum (map snd counter) = (list_sum (map snd acc) + length keys)%nat.
Proof.
  induction 1 as [| key keys Hkey _ IH]; intros acc Hnd.
  - exists acc. simpl. repeat split; try tauto; lia.
  - cbn [fold_left countStep]. rewrite (countKey_defined acc key Hkey).
    set (acc' := counter_set acc key (counted acc key + 1)).
    assert (Hnd' : NoDup (map fst acc')).
    { unfold acc'. rewrite counter_keys_set.
      destruct (counter_get acc key) eqn:E; [exact Hnd |].
      apply counter_get_absent in E.
      apply NoDup_app; [exact Hnd | repeat constructor; simpl; tauto |].
      intros x Hx [Hk | []]. subst x. contradiction. }
    destruct (IH acc' Hnd') as (counter & Hfold & Hkeys & Hcount & Hnone & Htotal).
    exists counter. split; [exact Hfold |]. split; [exact Hkeys |].
    split; [| split].
    + intros k. rewrite Hcount. unfold acc'. unfold counted at 1.
      rewrite counter_get_set. cbn [count_occ].
      destruct (string_dec key k) as [E | E].
      * subst k. rewrite String.eqb_refl. lia.
      * apply String.eqb_neq in E. rewrite E. fold (counted acc k). lia.
    + intros k. rewrite Hnone. unfold acc'. rewrite counter_get_set. simpl.
      destruct (String.eqb key k) eqn:E.
      * apply String.eqb_eq in E. split; [intros [Hd _]; discriminate | tauto].
      * apply String.eqb_neq in E. tauto.
    + rewrite Htotal. pose proof (counter_total_set acc key (counted acc key + 1)) as Hs.
      fold acc' in Hs. simpl. lia.
Qed.

(** X18.  The status and waste-type distributions of the statistics
    summary: as long as no key is one of the names every object inherits,
    the counter lists each key once, stores with it how often the key occurs,
    has no entry for a key that does not occur, and its counts add up to the
    number of hotspots. *)
Theorem X18_counter_counts_every_key (keys : list string) :
  Forall (fun key => ~ inherited key) keys ->
  exists counter,
    countAll keys = Some counter /\
    NoDup (map fst counter) /\
    (forall k, In k keys ->
               counter_get counter k = Some (count_occ string_dec keys k)) /\
    (forall k, ~ In k keys -> counter_get counter k = None) /\
    list_sum (map snd counter) = length keys.
Proof.
  intros Hown.
  destruct (countAll_from keys Hown [] (NoDup_nil _))
    as (counter & Hfold & Hkeys & Hcount & Hnone & Htotal).
  exists counter. split; [exact Hfold |]. split; [exact Hkeys |].
  split; [| split].
  - intros k Hin. specialize (Hcount k). unfold counted in Hcount. simpl in Hcount.
    destruct (counter_get counter k) as [n |] eqn:E.
    + rewrite Hcount. reflexivity.
    + exfalso. apply Hnone in E. tauto.
  - intros k Hout. apply Hnone. split; [reflexivity | exact Hout].
  - exact Htotal.
Qed.

Lemma X18_counter_witness :
  exists counter,
    countAll ["pending"; "cleared"; "pending"]%string = Some counter /\
    NoDup (map fst counter) /\
    (forall k, In k ["pending"; "cleared"; "pending"]%string ->
               counter_get counter k =
               Some (count_occ string_dec ["pending"; "cleared"; "pending"]%string k)) /\
    (forall k, ~ In k ["pending"; "cleared"; "pending"]%string ->
               counter_get counter k = None) /\
    list_sum (map snd counter) = length ["pending"; "cleared"; "pending"]%string.
Proof.
  apply (X18_counter_counts_every_key ["pending"; "cleared"; "pending"]%string).
  repeat constructor; unfold inherited, Object_prototype_names; simpl;
    intros H; repeat (destruct H as [H | H]; [discriminate |]); exact H.
Defined.

Lemma Math_round_integer (z : Z) : Math_round (inject_Z z) = inject_Z z.
Proof.
  unfold Math_round. f_equal.
  pose proof (Qfloor_le (inject_Z z + (1 # 2))) as Hle.
  pose proof (Qlt_floor (inject_Z z + (1 # 2))) as Hlt.
  set (f := Qfloor (inject_Z z + (1 # 2))) in *.
  assert (H1 : inject_Z f < inject_Z (z + 1)).
  { rewrite inject_Z_plus. change (inject_Z 1) with 1. Lqa.lra. }
  assert (H2 : inject_Z z < inject_Z (f + 1)).
  { rewrite inject_Z_plus in Hlt |- *. change (inject_Z 1) with 1 in *. Lqa.lra. }
  rewrite <- Zlt_Qlt in H1, H2. lia.
Qed.

Lemma Math_round_comp (x y : Q) : x == y -> Math_round x = Math_round y.
Proof.
  intros E. unfold Math_round. f_equal. apply Qfloor_comp. rewrite E. reflexivity.
Qed.

Lemma Math_round_monotone (x y : Q) : x <= y -> Math_round x <= Math_round y.
Proof.
  intros H. unfold Math_round. rewrite <- Zle_Qle.
  apply Qfloor_resp_le. Lqa.lra.
Qed.

(** X19.  The averages and totals of the statistics summary are rounded to
    two decimals: the rounded value is within 0.005 of the value, rounding
    keeps the order of two values, and rounding a rounded value changes
    nothing. *)
Theorem X19_round2_is_a_rounding (x : Q) :
  (x - (1 # 200) < round2 x /\ round2 x <= x + (1 # 200)) /\
  (forall y, x <= y -> round2 x <= round2 y) /\
  round2 (round2 x) == round2 x.
Proof.
  split; [| split].
  - unfold round2. pose proof (Math_round_close (x * 100)) as [Hlo Hhi].
    split.
    + apply Qlt_shift_div_l; [reflexivity | Lqa.lra].
    + apply Qle_shift_div_r; [reflexivity | Lqa.lra].
  - intros y Hxy. unfold round2.
    pose proof (Math_round_monotone (x * 100) (y * 100)) as H.
    apply Qle_shift_div_l; [reflexivity |].
    assert (E : Math_round (x * 100) / 100 * 100 == Math_round (x * 100)) by (field).
    rewrite E. apply H. Lqa.lra.
  - unfold round2.
    rewrite (Math_round_comp (Math_round (x * 100) / 100 * 100) (Math_round (x * 100)))
      by field.
    unfold Math_round at 2. rewrite Math_round_integer. reflexivity.
Qed.

End SummaryFacts.

Section ValidationFacts.

Import Js ClusteringEngine Routes RouteNotions.

Lemma string_valid_inr (path : string) (allowed : list string) (d : string)
      (x : option string) (s : string) :
  In d allowed ->
  string_valid path allowed d x = inr s ->
  In s allowed /\ s = default x d.
Proof.
  intros Hd H. unfold string_valid in H. destruct x as [v |]; cbn [default].
  - destruct (existsb (String.eqb v) allowed) eqn:E; [| discriminate].
    injection H as <-. split; [| reflexivity].
    apply existsb_exists in E. destruct E as (a & Hin & Ha).
    apply String.eqb_eq in Ha. subst a. exact Hin.
  - injection H as <-. split; [exact Hd | reflexivity].
Qed.

Lemma number_positive_inr (path : string) (d : Q) (x : option Q) (v : Q) :
  0 < d ->
  number_positive path d x = inr v ->
  0 < v /\ v = default x d.
Proof.
  intros Hd H. unfold number_positive in H. destruct x as [a |]; cbn [default].
  - destruct (Qltb 0 a) eqn:E; [| discriminate]. injection H as <-.
    split; [| reflexivity].
    unfold Qltb in E. destruct (Qle_bool a 0) eqn:E'; [discriminate |].
    apply Qnot_le_lt. intros Hle. apply Qle_bool_iff in Hle. congruence.
  - injection H as <-. split; [exact Hd | reflexivity].
Qed.

Lemma number_integer_inr (path : string) (lo : Q) (hi : option Q) (d : Q)
      (x : option Q) (v : Q) :
  whole_within lo hi d ->
  number_integer path lo hi d x = inr v ->
  whole_within lo hi v /\ v = default x d.
Proof.
  intros Hd H. unfold number_integer in H. destruct x as [a |]; cbn [default].
  - destruct (is_integer a) eqn:Ei; cbn [negb] in H; [| discriminate].
    destruct (Qltb a lo) eqn:El; [discriminate |].
    assert (Hlo : lo <= a).
    { unfold Qltb in El. destruct (Qle_bool lo a) eqn:E'; [| discriminate].
      apply Qle_bool_iff. exact E'. }
    destruct hi as [h |].
    + destruct (Qltb h a) eqn:Eh; [discriminate |]. injection H as <-.
      split; [| reflexivity]. split; [exact Ei |]. split; [exact Hlo |].
      unfold Qltb in Eh. destruct (Qle_bool a h) eqn:E'; [| discriminate].
      apply Qle_bool_iff. exact E'.
    + injection H as <-. split; [| reflexivity]. repeat split; assumption.
  - injection H as <-. split; [exact Hd | reflexivity].
Qed.

Lemma validateParameters_inr (p parameters : Parameters) :
  validateParameters p = inr parameters ->
  parameters_in_range parameters /\
  p_eps parameters = Some (default (p_eps p) (1 # 100)) /\
  p_minPoints parameters = Some (default (p_minPoints p) 2) /\
  p_k parameters = Some (default (p_k p) 5) /\
  p_iterations parameters = Some (default (p_iterations p) 100) /\
  p_tolerance parameters = Some (default (p_tolerance p) (1 # 10000)) /\
  p_distance parameters = Some (default (p_distance p) "euclidean"%string) /\
  p_linkage parameters = Some (default (p_linkage p) "ward"%string) /\
  p_maxClusters parameters = Some (default (p_maxClusters p) 8).
Proof.
  intros H. unfold validateParameters in H.
  do 8 validation_step H. injection H as <-.
  apply number_positive_inr in E; [| reflexivity].
  apply number_integer_inr in E0; [| whole_default].
  apply number_integer_inr in E1; [| whole_default].
  apply number_integer_inr in E2; [| whole_default].
  apply number_positive_inr in E3; [| reflexivity].
  apply string_valid_inr in E4; [| simpl; tauto].
  apply string_valid_inr in E5; [| simpl; tauto].
  apply number_integer_inr in E6; [| whole_default].
  destruct E as [? <-], E0 as [? <-], E1 as [? <-], E2 as [? <-],
           E3 as [? <-], E4 as [? <-], E5 as [? <-], E6 as [? <-].
  split.
  - unfold parameters_in_range.
    cbn [p_eps p_minPoints p_k p_iterations p_tolerance p_distance p_linkage
         p_maxClusters filled_with].
    repeat (split; [assumption |]). assumption.
  - cbn [p_eps p_minPoints p_k p_iterations p_tolerance p_distance p_linkage
         p_maxClusters].
    repeat split; reflexivity.
Qed.

Lemma validate_inr (body : RequestOptions) (value : ValidOptions) :
  validate body = inr value ->
  (In (v_algorithm value) ["dbscan"; "kmeans"; "hierarchical"]%string /\
   v_algorithm value = default (q_algorithm body) "dbscan"%string) /\
  match q_parameters body with
  | Some p => validateParameters p = inr (v_parameters value)
  | None => v_parameters value = no_parameters
  end /\
  (whole_within 1 None (v_minClusterSize value) /\
   v_minClusterSize value = default (q_minClusterSize body) 2) /\
  (whole_within 1 (Some 50) (v_maxClusters value) /\
   v_maxClusters value = default (q_maxClusters body) 20).
Proof.
  intros H. unfold validate in H.
  do 4 validation_step H. injection H as <-.
  cbn [v_algorithm v_parameters v_minClusterSize v_maxClusters].
  apply string_valid_inr in E; [| simpl; tauto].
  apply number_integer_inr in E1; [| whole_default].
  apply number_integer_inr in E2; [| whole_default].
  split; [exact E |]. split; [| split; assumption].
  destruct (q_parameters body) as [p |]; [exact E0 | congruence].
Qed.

(** X20.  What passes the validation of [POST /clusters] is within the
    schema: the algorithm is one of the three known names, [minClusterSize]
    is a whole number of at least 1 and [maxClusters] a whole number from 1
    to 50, each the request's value or its default.  When the request has a
    [parameters] object every one of its eight keys is filled in and within
    its rule; when it has none, the parameters are the empty object and none
    of the defaults of the sub-schema is applied. *)
Theorem X20_validated_options_are_within_the_schema
        (body : RequestOptions) (value : ValidOptions) :
  validate body = inr value ->
  In (v_algorithm value) ["dbscan"; "kmeans"; "hierarchical"]%string /\
  v_algorithm value = default (q_algorithm body) "dbscan"%string /\
  whole_within 1 None (v_minClusterSize value) /\
  v_minClusterSize value = default (q_minClusterSize body) 2 /\
  whole_within 1 (Some 50) (v_maxClusters value) /\
  v_maxClusters value = default (q_maxClusters body) 20 /\
  match q_parameters body with
  | Some _ => parameters_in_range (v_parameters value)
  | None => v_parameters value = no_parameters
  end.
Proof.
  intros H. destruct (validate_inr body value H) as ((Ha & Ha') & Hp & (Hm & Hm') & (Hc & Hc')).
  repeat (split; [assumption |]).
  destruct (q_parameters body) as [p |]; [| exact Hp].
  apply validateParameters_inr in Hp. tauto.
Qed.

Lemma X20_validated_options_witness :
  exists value,
    validate (mkRequest (Some "kmeans"%string)
                        (Some (mkParameters None None (Some 3) None None None None None))
                        None (Some 7) None None) = inr value /\
    parameters_in_range (v_parameters value) /\
    v_maxClusters value = 7.
Proof.
  eexists. split; [vm_compute; reflexivity |].
  pose proof (X20_validated_options_are_within_the_schema
                (mkRequest (Some "kmeans"%string)
                           (Some (mkParameters None None (Some 3) None None None None None))
                           None (Some 7) None None) _ eq_refl) as H.
  cbn [q_parameters] in H. split; [apply H | reflexivity].
Defined.

Lemma prepareCoordinates_length (hotspots : list Hotspot) :
  length (prepareCoordinates hotspots) = length hotspots.
Proof.
  unfold prepareCoordinates. apply length_map.
Qed.

Lemma known_algorithm (name : string) :
  In name ["dbscan"; "kmeans"; "hierarchical"]%string ->
  (name = "dbscan"%string /\ algorithms name = Own dbscan) \/
  (name = "kmeans"%string /\ algorithms name = Own kmeans) \/
  (name = "hierarchical"%string /\ algorithms name = Own hierarchical).
Proof.
  simpl. intros [<- | [<- | [<- | []]]]; [left | right; left | right; right];
    split; reflexivity.
Qed.

(** X21.  How a validated request reaches the engine.  With fewer stored
    hotspots than [minClusterSize] the engine answers with its single
    cluster and calls no library.  Otherwise it never rejects the request:
    its first step is the library call of the chosen algorithm.  When the
    request carries a [parameters] object, the numbers handed to the library
    are the request's or the schema's defaults, so k-means is asked for
    [k = 5] centroids and the hierarchical cut is [8] however few hotspots
    there are; the engine's own defaults, which depend on the number of
    hotspots, are used only when the request has no [parameters]. *)
Theorem X21_validated_requests_reach_the_library
        (body : RequestOptions) (value : ValidOptions)
        (now : Z) (stored : list Hotspot) :
  validate body = inr value ->
  let program := runClustering now stored (engine_options value) in
  let matrix := prepareCoordinates stored in
  (of_nat (length stored) < v_minClusterSize value ->
   program = Ret (createSingleClusterResult stored)) /\
  (v_minClusterSize value <= of_nat (length stored) ->
   calls_library program = true /\
   (forall p, q_parameters body = Some p ->
      (v_algorithm value = "dbscan"%string ->
       exists continuation,
         program = Vis (DBSCAN matrix (default (p_eps p) (1 # 100))
                               (default (p_minPoints p) 2)) continuation) /\
      (v_algorithm value = "kmeans"%string ->
       exists continuation,
         program = Vis (KMEANS matrix (default (p_k p) 5)
                               (default (p_iterations p) 100)
                               (default (p_tolerance p) (1 # 10000)) 42) continuation) /\
      (v_algorithm value = "hierarchical"%string ->
       exists continuation,
         program = Vis (HCLUST matrix (default (p_distance p) "euclidean"%string)
                               (default (p_linkage p) "ward"%string)
                               (default (p_maxClusters p) 8)) continuation)) /\
   (q_parameters body = None ->
      (v_algorithm value = "kmeans"%string ->
       exists continuation,
         program = Vis (KMEANS matrix (default_k (length stored)) 100 (1 # 10000) 42)
                       continuation) /\
      (v_algorithm value = "hierarchical"%string ->
       exists continuation,
         program = Vis (HCLUST matrix "euclidean"%string "ward"%string
                               (Math_min 8 (Math_ceil (of_nat (length stored) / 2))))
                       continuation))).
Proof.
  intros H. cbv zeta.
  destruct (validate_inr body value H) as ((Ha & _) & Hp & _ & _).
  unfold runClustering, engine_options.
  cbn [o_algorithm o_parameters o_minClusterSize o_maxClusters default].
  rewrite prepareCoordinates_length.
  split.
  - intros Hfew. rewrite (Qltb_true_iff _ _ Hfew).
    destruct (known_algorithm _ Ha) as [[_ ->] | [[_ ->] | [_ ->]]]; reflexivity.
  - intros Hmany. rewrite (Qltb_false_iff _ _ Hmany).
    split; [| split].
    + destruct (known_algorithm _ Ha) as [[_ ->] | [[_ ->] | [_ ->]]]; reflexivity.
    + intros p Ep. rewrite Ep in Hp. apply validateParameters_inr in Hp.
      destruct Hp as (_ & He & Hm & Hk & Hi & Ht & Hd & Hl & Hc).
      repeat split; intros Halg; rewrite Halg;
        cbn [algorithms String.eqb Ascii.eqb Bool.eqb call bind
             runDBSCAN runKMeans runHierarchicalClustering];
        unfold runDBSCAN, runKMeans, runHierarchicalClustering;
        rewrite ?He, ?Hm, ?Hk, ?Hi, ?Ht, ?Hd, ?Hl, ?Hc; cbn [default bind];
        eexists; reflexivity.
    + intros Ep. rewrite Ep in Hp. rewrite Hp.
      split; intros Halg; rewrite Halg;
        cbn [algorithms String.eqb Ascii.eqb Bool.eqb call bind];
        unfold runKMeans, runHierarchicalClustering, no_parameters;
        cbn [default bind p_k p_iterations p_tolerance p_distance p_linkage p_maxClusters];
        rewrite ?prepareCoordinates_length;
        eexists; reflexivity.
Qed.

Lemma X21_validated_requests_witness :
  exists continuation,
    runClustering 0 Notions.three_reports
      (engine_options
         (mkValid "kmeans" (mkParameters (Some (1 # 100)) (Some 2) (Some 5) (Some 100)
                                         (Some (1 # 10000)) (Some "euclidean"%string)
                                         (Some "ward"%string) (Some 8))
                  2 20 false false))
    = Vis (KMEANS (prepareCoordinates Notions.three_reports) 5 100 (1 # 10000) 42)
          continuation.
Proof.
  pose proof (X21_validated_requests_reach_the_library
                (mkRequest (Some "kmeans"%string)
                           (Some no_parameters) None None None None)
                _ 0 Notions.three_reports eq_refl) as H.
  cbv zeta in H. destruct H as [_ H].
  destruct H as (_ & H & _).
  - vm_compute. discriminate.
  - destruct (H no_parameters eq_refl) as (_ & Hk & _).
    exact (Hk eq_refl).
Defined.

End ValidationFacts.

Section HierarchicalFacts.

Import Js ClusteringEngine Notions MoreNotions.

Lemma groupHierarchical_get (labels : list Z) :
  forall i m k,
    Map_get (groupHierarchical labels i m) k = Map_get m k ++ indicesLabelled labels i k.
Proof.
  induction labels as [| c rest IH]; intros i m k; simpl.
  - rewrite app_nil_r. reflexivity.
  - rewrite IH, step_get.
    destruct (Z.eqb c k); [rewrite <- app_assoc |]; reflexivity.
Qed.

Lemma groupHierarchical_keys (labels : list Z) :
  forall i m,
    NoDup (map fst m) ->
    NoDup (map fst (groupHierarchical labels i m)) /\
    (forall k, In k (map fst (groupHierarchical labels i m)) <->
               In k (map fst m) \/ In k labels).
Proof.
  induction labels as [| c rest IH]; intros i m Hnd; simpl.
  - split; [exact Hnd |]. intros k. tauto.
  - set (m1 := Map_push (if negb (Map_has m c) then Map_set m c [] else m) c i).
    assert (Hkeys : map fst m1 = if Map_has m c then map fst m else map fst m ++ [c])
      by apply step_keys.
    assert (Hin1 : forall k, In k (map fst m1) <-> In k (map fst m) \/ k = c).
    { intros k. rewrite Hkeys. destruct (Map_has m c) eqn:Eh.
      - apply Map_has_keys in Eh. split; [auto | intros [H | ->]; assumption].
      - rewrite in_app_iff. simpl. split; [intros [H | [H | []]]; auto |
                                        intros [H | H]; auto]. }
    assert (Hnd1 : NoDup (map fst m1)).
    { rewrite Hkeys. destruct (Map_has m c) eqn:Eh; [exact Hnd |].
      apply NoDup_app; [exact Hnd | constructor; [tauto | constructor] |].
      intros k Hk [<- | []]. apply Map_has_keys in Hk. congruence. }
    destruct (IH (S i) m1 Hnd1) as [H1 H3].
    split; [exact H1 |].
    intros k. rewrite H3, Hin1. split.
    + intros [[H | ->] | H]; [left; exact H | right; left; reflexivity | right; right; exact H].
    + intros [H | [<- | H]]; [left; left; exact H | left; right; reflexivity | right; exact H].
Qed.

(** X22.  On the hierarchical path every label is a cluster, [-1] included:
    there is exactly one cluster per label, its id is the label, its members
    are the points that carry the label in ascending order of index, and the
    clusters together hold every point exactly once. *)
Theorem X22_hierarchical_clusters_partition_the_points
        (labels : list Z) (coords : list (Q * Q)) (hotspots : list Hotspot) :
  length coords = length labels ->
  exists cs,
    processHierarchicalResults labels coords hotspots = Ret cs /\
    NoDup (map id cs) /\
    (forall k, In k (map id cs) <-> In k labels) /\
    Forall (fun c => memberIndices c = indicesLabelled labels 0 (id c) /\
                     memberIndices c <> [] /\
                     size c = length (memberIndices c)) cs /\
    Permutation (concat (map memberIndices cs)) (seq 0 (length labels)).
Proof.
  intros Hlen. unfold processHierarchicalResults.
  set (m := groupHierarchical labels 0 []).
  destruct (groupHierarchical_keys labels 0 [] (NoDup_nil _)) as [Hnd Hkeys].
  fold m in Hnd, Hkeys.
  pose proof (groupHierarchical_members labels 0 []) as Hmem.
  fold m in Hmem. simpl in Hmem.
  destruct (clustersOfMap_Ret "hierarchical" coords hotspots m) as [cs [Hcs [Hidx [Hid Hall]]]].
  { intros i Hi. apply (Permutation_in _ Hmem) in Hi.
    apply in_seq in Hi. lia. }
  exists cs. split; [exact Hcs |]. rewrite Hid.
  split; [exact Hnd |]. split; [| split].
  - intros k. rewrite Hkeys. simpl. tauto.
  - apply Forall_forall. intros c Hc.
    assert (Hentry : In (id c, memberIndices c) m).
    { rewrite <- (entries_of_clusters cs m Hid Hidx).
      apply (in_map (fun c => (id c, memberIndices c))). exact Hc. }
    assert (Hkey : In (id c) (map fst m)).
    { apply (in_map fst) in Hentry. exact Hentry. }
    pose proof (Map_get_entry m _ _ Hnd Hentry) as Hget.
    unfold m in Hget. rewrite (groupHierarchical_get labels 0 [] (id c)) in Hget.
    simpl in Hget. split; [symmetry; exact Hget |]. split.
    + rewrite <- Hget. apply indicesLabelled_nonempty.
      apply Hkeys in Hkey. simpl in Hkey. tauto.
    + apply (proj1 (Forall_forall _ _) Hall c Hc).
  - rewrite (concat_memberIndices cs m Hidx). exact Hmem.
Qed.

Lemma X22_hierarchical_witness :
  exists cs,
    processHierarchicalResults [0; -1; 0]%Z [(0, 0); (1, 1); (2, 2)]
                               Notions.three_reports = Ret cs /\
    NoDup (map id cs) /\
    (forall k, In k (map id cs) <-> In k [0; -1; 0]%Z) /\
    Forall (fun c => memberIndices c = indicesLabelled [0; -1; 0]%Z 0 (id c) /\
                     memberIndices c <> [] /\
                     size c = length (memberIndices c)) cs /\
    Permutation (concat (map memberIndices cs)) (seq 0 (length [0; -1; 0]%Z)).
Proof.
  apply (X22_hierarchical_clusters_partition_the_points
           [0; -1; 0]%Z [(0, 0); (1, 1); (2, 2)] Notions.three_reports).
  reflexivity.
Defined.

End HierarchicalFacts.
